(** * Browser controller of the banking document classifier

    A shallow embedding of the front-end scripts of the repository:
    - [src/unnamed/part_000], first file: the main page script (staging of a
      file, result display, recent documents, global chat; then the upload,
      the search, the documents by category, and the page as a whole under
      its events);
    - [src/unnamed/part_000], second file: the script of the document detail
      page (document-scoped chat), in [Module Detail], and the rest of that
      page in [Module DetailView];
    - [src/app/static/app.js]: a second copy of the main page script.  Its
      [handleFile], [saveToRecent], [loadRecentDocuments], [formatCategory],
      [formatLabel] and [formatFileSize] are, line for line, those of the
      first copy.  Its [displayResults] differs and is embedded in
      [Module AppStatic].  Its [displayRecentDocuments] lacks the test for a
      missing [#recentDocs] element; on a page that has the element the two
      copies do the same.  Its start and the end of its upload are in
      [Module AppJs].

    JavaScript strings are sequences of UTF-16 code units, embedded as lists
    of numbers.  A handler becomes a function on a record that holds the
    globals of its script and the parts of the page it writes to; an
    asynchronous handler takes the outcome of its request as an argument and
    is split at its [await].  An exception nobody catches ends a handler with
    [Throw], the page being as the handler left it.  [localStorage] is a
    finite map that accepts every write. *)

From Stdlib Require Import ZArith NArith List Ascii String Lia Reals Lra.
From stdpp Require Import base list gmap.

Local Open Scope N_scope.
Local Open Scope list_scope.

Set Warnings "-register-all".

(* ===================================================================== *)
(** * Strings *)
(* ===================================================================== *)

(** A UTF-16 code unit, and a JavaScript string. *)
Abbreviation code_unit := N.
Abbreviation jsstring := (list N).

(** An ASCII literal as a JavaScript string. *)
Definition u (s : string) : jsstring :=
  List.map N_of_ascii (list_ascii_of_string s).

Definition c_space : N := 32.
Definition c_underscore : N := 95.
Definition c_star : N := 42.
Definition c_newline : N := 10.
Definition c_quote : N := 34.
Definition c_backslash : N := 92.

(** [s.replace(/c/g, d)] for single code units [c] and [d]. *)
Definition replace_char (from to : N) (s : jsstring) : jsstring :=
  List.map (fun c => if N.eqb c from then to else c) s.

(** [s.split(sep)] for a separator of one code unit.  The empty string
    splits into one empty word. *)
Fixpoint split (sep : N) (s : jsstring) : list jsstring :=
  match s with
  | [] => [[]]
  | c :: r =>
      if N.eqb c sep then [] :: split sep r
      else match split sep r with
           | w :: ws => (c :: w) :: ws
           | [] => [[c]]
           end
  end.

(** [ws.join(sep)]. *)
Fixpoint join (sep : jsstring) (ws : list jsstring) : jsstring :=
  match ws with
  | [] => []
  | w :: ws' =>
      match ws' with
      | [] => w
      | _ :: _ => w ++ sep ++ join sep ws'
      end
  end.

(** [w.charAt(0)]: the first code unit as a string, empty on the empty
    string; [w.slice(1)]: everything after it. *)
Definition charAt0 (w : jsstring) : jsstring := take 1 w.
Definition slice1 (w : jsstring) : jsstring := drop 1 w.

(** ASCII upper-casing of one code unit: the part of
    [String.prototype.toUpperCase] that does not need the Unicode tables. *)
Definition ascii_upper (c : N) : N :=
  if (97 <=? c) && (c <=? 122) then c - 32 else c.

Definition ascii_toUpperCase (s : jsstring) : jsstring :=
  List.map ascii_upper s.

Definition is_ascii (c : N) : Prop := c < 128.

(** What is assumed of the platform's [toUpperCase]: on strings of ASCII
    code units it is [ascii_toUpperCase].  Nothing is assumed elsewhere (the
    full mapping can lengthen a string and works on code points). *)
Definition upper_conforms (toUpperCase : jsstring -> jsstring) : Prop :=
  forall s, Forall is_ascii s -> toUpperCase s = ascii_toUpperCase s.

(** Line terminators of the regular expression grammar: the code units that
    [.] does not match. *)
Definition is_line_terminator (c : N) : bool :=
  N.eqb c 10 || N.eqb c 13 || N.eqb c 8232 || N.eqb c 8233.

(** ** [formatCategory] and [formatLabel] *)

Section Labels.
Variable toUpperCase : jsstring -> jsstring.

(** [word => word.charAt(0).toUpperCase() + word.slice(1)] *)
Definition capitalize (word : jsstring) : jsstring :=
  toUpperCase (charAt0 word) ++ slice1 word.

(** [category.replace(/_/g, ' ').split(' ').map(...).join(' ')] *)
Definition formatCategory (category : jsstring) : jsstring :=
  join [c_space]
    (List.map capitalize (split c_space (replace_char c_underscore c_space category))).

Definition formatLabel (key : jsstring) : jsstring :=
  join [c_space]
    (List.map capitalize (split c_space (replace_char c_underscore c_space key))).

(** The description of the label in the specification, read directly: a
    separator (underscore or space) becomes a space, and a code unit that
    starts a word is upper-cased.  [start] tells whether the next code unit
    starts a word. *)
Fixpoint title_words (start : bool) (s : jsstring) : jsstring :=
  match s with
  | [] => []
  | c :: r =>
      if N.eqb c c_underscore || N.eqb c c_space
      then c_space :: title_words true r
      else (if start then toUpperCase [c] else [c]) ++ title_words false r
  end.
End Labels.

(** ** [formatMessageContent] *)

Definition strong_open : jsstring := Eval cbv in u "<strong>".
Definition strong_close : jsstring := Eval cbv in u "</strong>".
Definition br_tag : jsstring := Eval cbv in u "<br>".

(** The tail [(.*?)\*\*] of the pattern, matched lazily at the start of [s]:
    the capture and what follows the closing stars.  The shortest capture is
    tried first; each captured code unit must be matched by [.]. *)
Fixpoint lazy_until_stars (s : jsstring) : option (jsstring * jsstring) :=
  match s with
  | [] => None
  | c :: r =>
      match (if N.eqb c c_star
             then match r with
                  | d :: rest => if N.eqb d c_star then Some rest else None
                  | [] => None
                  end
             else None) with
      | Some rest => Some ([], rest)
      | None =>
          if is_line_terminator c then None
          else match lazy_until_stars r with
               | Some (x, rest) => Some (c :: x, rest)
               | None => None
               end
      end
  end.

(** A match of [/\*\*(.*?)\*\*/] at the start of [s]. *)
Definition match_bold (s : jsstring) : option (jsstring * jsstring) :=
  match s with
  | c :: d :: r =>
      if N.eqb c c_star && N.eqb d c_star then lazy_until_stars r else None
  | _ => None
  end.

(** [s.replace(/\*\*(.*?)\*\*/g, '<strong>$1</strong>')]: scan from the
    left; at a match, emit the replacement and go on after the match;
    otherwise copy one code unit.  A match is at least four code units long,
    so [S (length s)] steps are enough. *)
Fixpoint replace_bold_from (fuel : nat) (s : jsstring) : jsstring :=
  match fuel with
  | O => s
  | S fuel' =>
      match match_bold s with
      | Some (x, rest) => strong_open ++ x ++ strong_close ++ replace_bold_from fuel' rest
      | None =>
          match s with
          | [] => []
          | c :: r => c :: replace_bold_from fuel' r
          end
      end
  end.

Definition replace_bold (s : jsstring) : jsstring :=
  replace_bold_from (S (length s)) s.

(** [s.replace(/\n/g, '<br>')] *)
Definition replace_newlines (s : jsstring) : jsstring :=
  flat_map (fun c => if N.eqb c c_newline then br_tag else [c]) s.

Definition formatMessageContent (content : jsstring) : jsstring :=
  replace_newlines (replace_bold content).

(* ===================================================================== *)
(** * JSON values, [JSON.stringify] and [JSON.parse] *)
(* ===================================================================== *)

(** The values [JSON.parse] produces.  A number is kept as the literal it
    was read from: the double it denotes is not computed.  An object is the
    list of its own properties in enumeration order. *)
Inductive json : Type :=
| JNull
| JBool (b : bool)
| JNum (literal : jsstring)
| JStr (s : jsstring)
| JArr (items : list json)
| JObj (members : list (jsstring * json)).

(** ** Property order of an object

    An object enumerates its array-index keys first, in ascending numeric
    order, then its other keys in creation order; defining a key that exists
    replaces the value in place. *)

Definition is_digit (c : N) : bool := (48 <=? c) && (c <=? 57).

Definition digits_value (ds : jsstring) : N :=
  fold_left (fun acc c => 10 * acc + (c - 48)) ds 0.

(** The index denoted by a key that is a canonical array index (decimal, no
    leading zero, at most 2^32 - 2). *)
Definition array_index (k : jsstring) : option N :=
  match k with
  | [] => None
  | c :: r =>
      if forallb is_digit k && (negb (c =? 48) || bool_decide (r = []))
      then (if digits_value k <? 4294967295 then Some (digits_value k) else None)
      else None
  end.

Fixpoint obj_has (k : jsstring) (ms : list (jsstring * json)) : bool :=
  match ms with
  | [] => false
  | (k', _) :: ms' => bool_decide (k = k') || obj_has k ms'
  end.

Fixpoint obj_update (k : jsstring) (v : json) (ms : list (jsstring * json))
  : list (jsstring * json) :=
  match ms with
  | [] => []
  | (k', v') :: ms' =>
      if bool_decide (k = k') then (k', v) :: ms' else (k', v') :: obj_update k v ms'
  end.

Fixpoint obj_insert_index (i : N) (k : jsstring) (v : json)
  (ms : list (jsstring * json)) : list (jsstring * json) :=
  match ms with
  | [] => [(k, v)]
  | (k', v') :: ms' =>
      match array_index k' with
      | Some j => if j <? i then (k', v') :: obj_insert_index i k v ms'
                  else (k, v) :: ms
      | None => (k, v) :: ms
      end
  end.

(** [CreateDataProperty(obj, k, v)] on the property list. *)
Definition obj_put (k : jsstring) (v : json) (ms : list (jsstring * json))
  : list (jsstring * json) :=
  if obj_has k ms then obj_update k v ms
  else match array_index k with
       | Some i => obj_insert_index i k v ms
       | None => ms ++ [(k, v)]
       end.

(** The object built from the members of an object literal, in source
    order. *)
Definition obj_of_members (kvs : list (jsstring * json)) : list (jsstring * json) :=
  fold_left (fun ms kv => obj_put (fst kv) (snd kv) ms) kvs [].

(** [obj[k]] for an own property. *)
Fixpoint obj_get (k : jsstring) (ms : list (jsstring * json)) : option json :=
  match ms with
  | [] => None
  | (k', v) :: ms' => if bool_decide (k = k') then Some v else obj_get k ms'
  end.

(** ** [JSON.stringify] *)

Definition hex_digit (n : N) : N := if n <? 10 then 48 + n else 87 + n.

Definition hex4 (c : N) : jsstring :=
  [hex_digit (c / 4096 mod 16); hex_digit (c / 256 mod 16);
   hex_digit (c / 16 mod 16); hex_digit (c mod 16)].

(** [\uXXXX] with lower-case digits. *)
Definition unicode_escape (c : N) : jsstring := 92 :: 117 :: hex4 c.

Definition is_high_surrogate (c : N) : bool := (55296 <=? c) && (c <=? 56319).
Definition is_low_surrogate (c : N) : bool := (56320 <=? c) && (c <=? 57343).

(** The text of one code unit that is not part of a surrogate pair. *)
Definition quote_unit (c : N) : jsstring :=
  if c =? 8 then [92; 98]
  else if c =? 9 then [92; 116]
  else if c =? 10 then [92; 110]
  else if c =? 12 then [92; 102]
  else if c =? 13 then [92; 114]
  else if c =? 34 then [92; 34]
  else if c =? 92 then [92; 92]
  else if (c <? 32) || is_high_surrogate c || is_low_surrogate c
       then unicode_escape c
  else [c].

(** The code points of the string, one after the other: a high surrogate
    followed by a low one is a pair and is copied; any other code unit is
    on its own. *)
Fixpoint quote_units (s : jsstring) : jsstring :=
  match s with
  | [] => []
  | c :: r =>
      match r with
      | d :: r' =>
          if is_high_surrogate c && is_low_surrogate d
          then c :: d :: quote_units r'
          else quote_unit c ++ quote_units r
      | [] => quote_unit c
      end
  end.

(** [QuoteJSONString] *)
Definition JSON_quote (s : jsstring) : jsstring :=
  34 :: quote_units s ++ [34].

Definition text_null : jsstring := Eval cbv in u "null".
Definition text_true : jsstring := Eval cbv in u "true".
Definition text_false : jsstring := Eval cbv in u "false".

Section Stringify.
(** The text [JSON.stringify] writes for the number read from a literal
    (the shortest decimal of the double, or [null] when it is not finite):
    left to the platform. *)
Variable number_text : jsstring -> jsstring.

(** [JSON.stringify(v)] with no indentation. *)
Fixpoint JSON_stringify (v : json) : jsstring :=
  match v with
  | JNull => text_null
  | JBool b => if b then text_true else text_false
  | JNum literal => number_text literal
  | JStr s => JSON_quote s
  | JArr items => 91 :: join [44] (List.map JSON_stringify items) ++ [93]
  | JObj members =>
      123 :: join [44]
               (List.map (fun kv => JSON_quote (fst kv) ++ 58 :: JSON_stringify (snd kv))
                  members) ++ [125]
  end.
End Stringify.

(** ** [JSON.parse] *)

Definition is_ws (c : N) : bool :=
  (c =? 32) || (c =? 9) || (c =? 10) || (c =? 13).

Fixpoint skip_ws (s : jsstring) : jsstring :=
  match s with
  | c :: r => if is_ws c then skip_ws r else s
  | [] => []
  end.

Definition hex_value (c : N) : option N :=
  if (48 <=? c) && (c <=? 57) then Some (c - 48)
  else if (97 <=? c) && (c <=? 102) then Some (c - 87)
  else if (65 <=? c) && (c <=? 70) then Some (c - 55)
  else None.

(** The code unit of a one-letter escape. *)
Definition unescape (e : N) : option N :=
  if e =? 34 then Some 34
  else if e =? 92 then Some 92
  else if e =? 47 then Some 47
  else if e =? 98 then Some 8
  else if e =? 102 then Some 12
  else if e =? 110 then Some 10
  else if e =? 114 then Some 13
  else if e =? 116 then Some 9
  else None.

(** The characters of a string literal after its opening quote, up to and
    including the closing quote: the string and what follows. *)
Fixpoint parse_chars (s : jsstring) : option (jsstring * jsstring) :=
  match s with
  | [] => None
  | c :: r =>
      if c =? 34 then Some ([], r)
      else if c =? 92 then
        match r with
        | [] => None
        | e :: r1 =>
            if e =? 117 then
              match r1 with
              | h1 :: h2 :: h3 :: h4 :: r2 =>
                  match hex_value h1, hex_value h2, hex_value h3, hex_value h4 with
                  | Some a, Some b, Some c', Some d =>
                      match parse_chars r2 with
                      | Some (x, rest) => Some ((a * 4096 + b * 256 + c' * 16 + d) :: x, rest)
                      | None => None
                      end
                  | _, _, _, _ => None
                  end
              | _ => None
              end
            else
              match unescape e with
              | Some d =>
                  match parse_chars r1 with
                  | Some (x, rest) => Some (d :: x, rest)
                  | None => None
                  end
              | None => None
              end
        end
      else if c <? 32 then None
      else
        match parse_chars r with
        | Some (x, rest) => Some (c :: x, rest)
        | None => None
        end
  end.

Fixpoint span_digits (s : jsstring) : jsstring * jsstring :=
  match s with
  | [] => ([], [])
  | c :: r =>
      if is_digit c then (c :: fst (span_digits r), snd (span_digits r))
      else ([], s)
  end.

(** [0] or a non-zero digit followed by digits. *)
Definition parse_int_part (s : jsstring) : option (jsstring * jsstring) :=
  match s with
  | [] => None
  | c :: r =>
      if c =? 48 then Some ([48], r)
      else if is_digit c then Some (c :: fst (span_digits r), snd (span_digits r))
      else None
  end.

(** An optional [.] followed by at least one digit. *)
Definition parse_frac (s : jsstring) : option (jsstring * jsstring) :=
  match s with
  | c :: r =>
      if c =? 46 then
        match fst (span_digits r) with
        | [] => None
        | _ :: _ => Some (46 :: fst (span_digits r), snd (span_digits r))
        end
      else Some ([], s)
  | [] => Some ([], s)
  end.

(** An optional exponent: [e] or [E], an optional sign, at least one
    digit. *)
Definition parse_exp (s : jsstring) : option (jsstring * jsstring) :=
  match s with
  | c :: r =>
      if (c =? 101) || (c =? 69) then
        let sr := match r with
                  | d :: r' => if (d =? 43) || (d =? 45) then ([d], r') else ([], r)
                  | [] => ([], r)
                  end in
        match fst (span_digits (snd sr)) with
        | [] => None
        | _ :: _ => Some (c :: fst sr ++ fst (span_digits (snd sr)), snd (span_digits (snd sr)))
        end
      else Some ([], s)
  | [] => Some ([], s)
  end.

(** A number literal at the start of [s]: the literal and what follows. *)
Definition parse_number (s : jsstring) : option (jsstring * jsstring) :=
  let sr := match s with
            | c :: r => if c =? 45 then ([45], r) else ([], s)
            | [] => ([], s)
            end in
  match parse_int_part (snd sr) with
  | None => None
  | Some (i, r1) =>
      match parse_frac r1 with
      | None => None
      | Some (f, r2) =>
          match parse_exp r2 with
          | None => None
          | Some (e, r3) => Some (fst sr ++ i ++ f ++ e, r3)
          end
      end
  end.

(** [s] without the prefix [p], when it starts with it. *)
Fixpoint strip_prefix (p s : jsstring) : option jsstring :=
  match p with
  | [] => Some s
  | a :: p' =>
      match s with
      | b :: s' => if a =? b then strip_prefix p' s' else None
      | [] => None
      end
  end.

(** The result of a parser that recurses on a step count: a value and the
    rest of the input, a syntax error, or not enough steps. *)
Inductive presult (A : Type) : Type :=
| POk (a : A) (rest : jsstring)
| PFail
| PFuel.
Arguments POk {A} a rest.
Arguments PFail {A}.
Arguments PFuel {A}.

Definition presult_map {A B} (f : A -> B) (r : presult A) : presult B :=
  match r with
  | POk a rest => POk (f a) rest
  | PFail => PFail
  | PFuel => PFuel
  end.

(** A value; the elements of a non-empty array up to its closing bracket;
    the members of a non-empty object up to its closing brace. *)
Fixpoint parse_value (fuel : nat) (s : jsstring) : presult json :=
  match fuel with
  | O => PFuel
  | S f =>
      match skip_ws s with
      | [] => PFail
      | c :: r =>
          if c =? 34 then
            match parse_chars r with
            | Some (x, rest) => POk (JStr x) rest
            | None => PFail
            end
          else if c =? 91 then
            match skip_ws r with
            | d :: r' =>
                if d =? 93 then POk (JArr []) r'
                else presult_map JArr (parse_elements f r)
            | [] => PFail
            end
          else if c =? 123 then
            match skip_ws r with
            | d :: r' =>
                if d =? 125 then POk (JObj []) r'
                else presult_map (fun kvs => JObj (obj_of_members kvs)) (parse_members f r)
            | [] => PFail
            end
          else if c =? 116 then
            match strip_prefix [114; 117; 101] r with
            | Some rest => POk (JBool true) rest
            | None => PFail
            end
          else if c =? 102 then
            match strip_prefix [97; 108; 115; 101] r with
            | Some rest => POk (JBool false) rest
            | None => PFail
            end
          else if c =? 110 then
            match strip_prefix [117; 108; 108] r with
            | Some rest => POk JNull rest
            | None => PFail
            end
          else
            match parse_number (c :: r) with
            | Some (lit, rest) => POk (JNum lit) rest
            | None => PFail
            end
      end
  end
with parse_elements (fuel : nat) (s : jsstring) : presult (list json) :=
  match fuel with
  | O => PFuel
  | S f =>
      match parse_value f s with
      | POk v r =>
          match skip_ws r with
          | d :: r' =>
              if d =? 44 then presult_map (cons v) (parse_elements f r')
              else if d =? 93 then POk [v] r'
              else PFail
          | [] => PFail
          end
      | PFail => PFail
      | PFuel => PFuel
      end
  end
with parse_members (fuel : nat) (s : jsstring) : presult (list (jsstring * json)) :=
  match fuel with
  | O => PFuel
  | S f =>
      match skip_ws s with
      | c :: r =>
          if c =? 34 then
            match parse_chars r with
            | Some (k, r1) =>
                match skip_ws r1 with
                | d :: r2 =>
                    if d =? 58 then
                      match parse_value f r2 with
                      | POk v r3 =>
                          match skip_ws r3 with
                          | e :: r4 =>
                              if e =? 44 then presult_map (cons (k, v)) (parse_members f r4)
                              else if e =? 125 then POk [(k, v)] r4
                              else PFail
                          | [] => PFail
                          end
                      | PFail => PFail
                      | PFuel => PFuel
                      end
                    else PFail
                | [] => PFail
                end
            | None => PFail
            end
          else PFail
      | [] => PFail
      end
  end.

(** [JSON.parse(text)]: one value between optional white space; [None] is
    the [SyntaxError].  The step count is enough for every text
    ([parse_value_fuel] below), so [None] never stands for a lack of
    steps. *)
Definition JSON_parse (text : jsstring) : option json :=
  match parse_value (S (2 * length text)) text with
  | POk v rest =>
      match skip_ws rest with
      | [] => Some v
      | _ :: _ => None
      end
  | PFail => None
  | PFuel => None
  end.

(* ===================================================================== *)
(** * Data of the pages *)
(* ===================================================================== *)

(** A selected or dropped file: the fields the script reads. *)
Record File : Type := {
  file_name : jsstring;
  file_type : jsstring;
  file_size : Z
}.

(** A value of [extracted_info]: a scalar (possibly [null]) or an array. *)
Inductive extracted_value : Type :=
| EScalar (v : option jsstring)
| EList (items : list jsstring).

(** The body of a successful [/process-document] response.  [None] stands
    for [null] or a missing field, an association list for an object with
    its keys in enumeration order. *)
Record ProcessResult : Type := {
  document_id : jsstring;
  category : jsstring;
  urgency : jsstring;
  department : jsstring;
  confidence_score : R;
  requires_immediate_attention : bool;
  alerts : option (list jsstring);
  metadata : option (list (jsstring * option jsstring));
  extracted_info : option (list (jsstring * extracted_value))
}.

Inductive toast_kind : Type := ToastInfo | ToastSuccess | ToastWarning | ToastError.

(** A toast appended to [#toastContainer]. *)
Record toast : Type := { toast_message : jsstring; toast_type : toast_kind }.

Inductive chat_role : Type := RoleUser | RoleAssistant.

(** A message of a transcript, [{ role, content }].  The content is a
    JavaScript value: the scripts put a string there, or whatever the server
    sent as [response]; [None] is [undefined]. *)
Record chat_message : Type := { role : chat_role; content : option json }.

(** The body of a [POST /chat] request. *)
Record chat_request : Type := {
  req_query : jsstring;
  req_document_id : option (option jsstring);
  req_chat_history : list chat_message
}.

(** How a [POST /chat] ends: [fetch] rejects, the status is not ok, the body
    is not JSON, or the body carries the [response] string.  The status can
    also be ok with a body that is JSON but not of that shape: the body is
    [null], so that reading [data.response] raises a [TypeError] with the
    given message; or the body is another JSON value and [data.response] is
    the given value, [None] for [undefined].  Formatting a value that is not
    a string raises a [TypeError] (it has no [replace] to call), whose
    message is the second argument of [ChatOther]; the message is not used
    when the value is a string. *)
Inductive chat_reply : Type :=
| ChatNetworkError (message : jsstring)
| ChatHttpError
| ChatBodyError (message : jsstring)
| ChatOk (response : jsstring)
| ChatNullBody (message : jsstring)
| ChatOther (response : option json) (message : jsstring).

(** One [.metadata-item] appended to [#customerInfo]: with the value, or
    with the class [missing] and the text [Not found]. *)
Inductive metadata_row : Type :=
| ValueRow (label value : jsstring)
| MissingRow (label : jsstring).

(** One [.extracted-item] appended to [#extractedInfo]. *)
Inductive extracted_row : Type :=
| ScalarRow (label value : jsstring)
| ListRow (label : jsstring) (items : list jsstring).

(** [#resultsSection] once shown. *)
Record results_view : Type := {
  docId_text : jsstring;
  category_text : jsstring;
  category_class : jsstring;
  urgency_text : jsstring;
  urgency_class : jsstring;
  department_text : jsstring;
  confidence_text : jsstring;
  immediate_text : jsstring;
  customerInfo : list metadata_row;
  extractedInfo : list extracted_row
}.

(** One [.document-item] of the recent list.  The identifier, urgency and
    time stamp are kept as the values read from the entry ([None] is
    [undefined]); the time shown is computed from the clock when the list is
    drawn. *)
Record recent_row : Type := {
  row_id : option json;
  row_category : jsstring;
  row_label : jsstring;
  row_urgency : option json;
  row_timestamp : option json
}.

(** [#recentDocs]: as the page came, the empty-state paragraph, or rows. *)
Inductive recent_view : Type :=
| RecentUntouched
| RecentEmpty
| RecentRows (rows : list recent_row).

(** [#uploadArea]: the prompt, or the selected file with its size text. *)
Inductive upload_area : Type :=
| AreaPrompt
| AreaFileSelected (name size_text : jsstring).

Inductive js_error : Type := SyntaxError | TypeError.

(** ** The main page *)

(** The globals of the main page script and what it writes to.  [toasts],
    [requests] and [chatMessagesMain] list what was appended, oldest first.
    [recentDocs] is [None] when the page has no [#recentDocs] element. *)
Record page : Type := {
  currentFile : option File;
  recentDocuments : json;
  mainChatHistory : list chat_message;
  localStorage : gmap jsstring jsstring;
  uploadBtn_disabled : bool;
  uploadArea : upload_area;
  toasts : list toast;
  results : option results_view;
  recentDocs : option recent_view;
  chatMessagesMain : list (chat_role * jsstring);
  chatInputMain_value : jsstring;
  chat_disabled : bool;
  requests : list chat_request
}.

(** How a handler ends: normally, or with an exception nobody caught; the
    page is as the handler left it. *)
Inductive outcome : Type :=
| Normal (p : page)
| Throw (e : js_error) (p : page).

Definition final (o : outcome) : page :=
  match o with
  | Normal p => p
  | Throw _ p => p
  end.

Definition set_currentFile (f : option File) (p : page) : page :=
  Build_page f (recentDocuments p) (mainChatHistory p) (localStorage p)
    (uploadBtn_disabled p) (uploadArea p) (toasts p) (results p) (recentDocs p)
    (chatMessagesMain p) (chatInputMain_value p) (chat_disabled p) (requests p).

Definition set_recentDocuments (v : json) (p : page) : page :=
  Build_page (currentFile p) v (mainChatHistory p) (localStorage p)
    (uploadBtn_disabled p) (uploadArea p) (toasts p) (results p) (recentDocs p)
    (chatMessagesMain p) (chatInputMain_value p) (chat_disabled p) (requests p).

Definition set_mainChatHistory (h : list chat_message) (p : page) : page :=
  Build_page (currentFile p) (recentDocuments p) h (localStorage p)
    (uploadBtn_disabled p) (uploadArea p) (toasts p) (results p) (recentDocs p)
    (chatMessagesMain p) (chatInputMain_value p) (chat_disabled p) (requests p).

Definition set_localStorage (m : gmap jsstring jsstring) (p : page) : page :=
  Build_page (currentFile p) (recentDocuments p) (mainChatHistory p) m
    (uploadBtn_disabled p) (uploadArea p) (toasts p) (results p) (recentDocs p)
    (chatMessagesMain p) (chatInputMain_value p) (chat_disabled p) (requests p).

Definition set_uploadBtn_disabled (b : bool) (p : page) : page :=
  Build_page (currentFile p) (recentDocuments p) (mainChatHistory p) (localStorage p)
    b (uploadArea p) (toasts p) (results p) (recentDocs p)
    (chatMessagesMain p) (chatInputMain_value p) (chat_disabled p) (requests p).

Definition set_uploadArea (a : upload_area) (p : page) : page :=
  Build_page (currentFile p) (recentDocuments p) (mainChatHistory p) (localStorage p)
    (uploadBtn_disabled p) a (toasts p) (results p) (recentDocs p)
    (chatMessagesMain p) (chatInputMain_value p) (chat_disabled p) (requests p).

Definition set_toasts (t : list toast) (p : page) : page :=
  Build_page (currentFile p) (recentDocuments p) (mainChatHistory p) (localStorage p)
    (uploadBtn_disabled p) (uploadArea p) t (results p) (recentDocs p)
    (chatMessagesMain p) (chatInputMain_value p) (chat_disabled p) (requests p).

Definition set_results (r : option results_view) (p : page) : page :=
  Build_page (currentFile p) (recentDocuments p) (mainChatHistory p) (localStorage p)
    (uploadBtn_disabled p) (uploadArea p) (toasts p) r (recentDocs p)
    (chatMessagesMain p) (chatInputMain_value p) (chat_disabled p) (requests p).

Definition set_recentDocs (v : option recent_view) (p : page) : page :=
  Build_page (currentFile p) (recentDocuments p) (mainChatHistory p) (localStorage p)
    (uploadBtn_disabled p) (uploadArea p) (toasts p) (results p) v
    (chatMessagesMain p) (chatInputMain_value p) (chat_disabled p) (requests p).

Definition set_chatMessagesMain (m : list (chat_role * jsstring)) (p : page) : page :=
  Build_page (currentFile p) (recentDocuments p) (mainChatHistory p) (localStorage p)
    (uploadBtn_disabled p) (uploadArea p) (toasts p) (results p) (recentDocs p)
    m (chatInputMain_value p) (chat_disabled p) (requests p).

Definition set_chatInputMain_value (v : jsstring) (p : page) : page :=
  Build_page (currentFile p) (recentDocuments p) (mainChatHistory p) (localStorage p)
    (uploadBtn_disabled p) (uploadArea p) (toasts p) (results p) (recentDocs p)
    (chatMessagesMain p) v (chat_disabled p) (requests p).

Definition set_chat_disabled (b : bool) (p : page) : page :=
  Build_page (currentFile p) (recentDocuments p) (mainChatHistory p) (localStorage p)
    (uploadBtn_disabled p) (uploadArea p) (toasts p) (results p) (recentDocs p)
    (chatMessagesMain p) (chatInputMain_value p) b (requests p).

Definition set_requests (r : list chat_request) (p : page) : page :=
  Build_page (currentFile p) (recentDocuments p) (mainChatHistory p) (localStorage p)
    (uploadBtn_disabled p) (uploadArea p) (toasts p) (results p) (recentDocs p)
    (chatMessagesMain p) (chatInputMain_value p) (chat_disabled p) r.

(** The page when the script starts: [currentFile = null],
    [recentDocuments = []], [mainChatHistory = []], over a given storage. *)
Definition initial_page (storage : gmap jsstring jsstring) (has_recentDocs : bool) : page :=
  {| currentFile := None;
     recentDocuments := JArr [];
     mainChatHistory := [];
     localStorage := storage;
     uploadBtn_disabled := true;
     uploadArea := AreaPrompt;
     toasts := [];
     results := None;
     recentDocs := if has_recentDocs then Some RecentUntouched else None;
     chatMessagesMain := [];
     chatInputMain_value := [];
     chat_disabled := false;
     requests := [] |}.

(** [showToast(message, type)] *)
Definition showToast (message : jsstring) (type : toast_kind) (p : page) : page :=
  set_toasts (toasts p ++ [{| toast_message := message; toast_type := type |}]) p.

(** ** Input validation *)

Definition validTypes : list jsstring :=
  Eval cbv in [u "application/pdf"; u "image/jpeg"; u "image/jpg"; u "image/png"; u "text/plain"].

(** [validTypes.includes(t)] *)
Definition includes (l : list jsstring) (t : jsstring) : bool :=
  existsb (fun x => bool_decide (x = t)) l.

(** The alternatives of [/\.(pdf|jpg|jpeg|png|txt)$/i], in order. *)
Definition extensions : list jsstring :=
  Eval cbv in [u "pdf"; u "jpg"; u "jpeg"; u "png"; u "txt"].

(** Two code units match under the flag [i] (without [u]) when their
    canonical forms agree; for the ASCII letters and the dot of the pattern
    that is the ASCII upper-casing: a code unit above 127 never
    canonicalises to one below 128. *)
Definition ci_eq (a b : N) : bool := ascii_upper a =? ascii_upper b.

Fixpoint ci_equal (s t : jsstring) : bool :=
  match s, t with
  | [], [] => true
  | a :: s', b :: t' => ci_eq a b && ci_equal s' t'
  | _, _ => false
  end.

(** [suffix] followed by the end of input matches somewhere in [name]. *)
Definition ends_with_ci (suffix name : jsstring) : bool :=
  (length suffix <=? length name)%nat
  && ci_equal (drop (length name - length suffix) name) suffix.

(** [name.match(/\.(pdf|jpg|jpeg|png|txt)$/i)] is not [null]. *)
Definition name_matches (name : jsstring) : bool :=
  existsb (fun ext => ends_with_ci (46 :: ext) name) extensions.

Definition max_size : Z := 10 * 1024 * 1024.

Definition msg_invalid_type : jsstring :=
  Eval cbv in u "Invalid file type. Please upload PDF, JPG, PNG, or TXT files.".
Definition msg_too_large : jsstring :=
  Eval cbv in u "File size too large. Maximum size is 10MB.".

(** ** White space *)

(** White space and line terminators, as [String.prototype.trim] removes
    them. *)
Definition is_js_space (c : N) : bool :=
  ((9 <=? c) && (c <=? 13)) || (c =? 32) || (c =? 160) || (c =? 5760)
  || ((8192 <=? c) && (c <=? 8202)) || (c =? 8232) || (c =? 8233)
  || (c =? 8239) || (c =? 8287) || (c =? 12288) || (c =? 65279).

Fixpoint trim_start (s : jsstring) : jsstring :=
  match s with
  | c :: r => if is_js_space c then trim_start r else s
  | [] => []
  end.

(** [s.trim()] *)
Definition trim (s : jsstring) : jsstring :=
  rev (trim_start (rev (trim_start s))).

Definition msg_chat_failed : jsstring := Eval cbv in u "Chat request failed".
Definition msg_apology : jsstring :=
  Eval cbv in u "Sorry, I encountered an error. Please try again.".

(** The message of the error caught after a failed chat request. *)
Definition chat_error_message (r : chat_reply) : jsstring :=
  match r with
  | ChatNetworkError m => m
  | ChatHttpError => msg_chat_failed
  | ChatBodyError m => m
  | ChatOk _ => []
  | ChatNullBody m => m
  | ChatOther _ m => m
  end.

(** [data.response] where it is a string: the text that can be rendered. *)
Definition response_text (r : chat_reply) : option jsstring :=
  match r with
  | ChatOk response => Some response
  | ChatOther (Some (JStr response)) _ => Some response
  | _ => None
  end.

Definition key_recentDocuments : jsstring := Eval cbv in u "recentDocuments".
Definition key_id : jsstring := Eval cbv in u "id".
Definition key_category : jsstring := Eval cbv in u "category".
Definition key_urgency : jsstring := Eval cbv in u "urgency".
Definition key_timestamp : jsstring := Eval cbv in u "timestamp".
Definition key_length : jsstring := Eval cbv in u "length".
Definition key_toString : jsstring := Eval cbv in u "toString".

(** Whether a parsed value can be turned into a string, as a template
    literal and [new Date(...)] do.  An object that has an own property
    [toString] cannot (the property is no function, and [valueOf] gives no
    primitive): the conversion throws a [TypeError].  An array joins the
    strings of its elements. *)
Fixpoint stringifiable (v : json) : bool :=
  match v with
  | JObj members => negb (obj_has key_toString members)
  | JArr items => forallb stringifiable items
  | _ => true
  end.

(** The same for a property that may be missing: [undefined] converts. *)
Definition field_stringifiable (field : option json) : bool :=
  match field with
  | Some v => stringifiable v
  | None => true
  end.

(** The entry [saveToRecent] builds; [now] is [new Date().toISOString()]. *)
Definition recent_entry (result : ProcessResult) (now : jsstring) : json :=
  JObj [(key_id, JStr (document_id result));
        (key_category, JStr (category result));
        (key_urgency, JStr (urgency result));
        (key_timestamp, JStr now)].

Definition sizes : list jsstring := Eval cbv in [u "Bytes"; u "KB"; u "MB"].
Definition text_undefined : jsstring := Eval cbv in u "undefined".
Definition text_zero_bytes : jsstring := Eval cbv in u "0 Bytes".

(** [sizes[i]] in a string concatenation: out of range it is [undefined]. *)
Definition sizes_at (i : Z) : jsstring :=
  if (i <? 0)%Z then text_undefined else nth (Z.to_nat i) sizes text_undefined.

Definition text_yes : jsstring := [9888; 65039; 32; 89; 101; 115].
Definition text_no : jsstring := [10003; 32; 78; 111].
Definition class_prefix : jsstring := Eval cbv in u "result-value badge ".

(* ===================================================================== *)
(** * The handlers *)
(* ===================================================================== *)

Section Platform.
(** What the scripts take from the platform and the embedding leaves
    open: upper-casing outside ASCII, the arithmetic of doubles, the
    printing of numbers. *)
Variable toUpperCase : jsstring -> jsstring.
Variable number_text : jsstring -> jsstring.
Variable number_is_zero : jsstring -> bool.
Variable Math_log : R -> R.
Variable fdiv : R -> R -> R.
Variable fmul : R -> R -> R.
Variable Number_toString : R -> jsstring.
Variable toFixed1 : R -> jsstring.

(** ** [formatFileSize] *)

(** [Math.floor(Math.log(bytes) / Math.log(k))] with [k = 1024] *)
Definition unit_index (bytes : Z) : Z :=
  Zfloor (fdiv (Math_log (IZR bytes)) (Math_log 1024)).

(** [Math.round(x)]: the nearest integer, a tie going up. *)
Definition Math_round (x : R) : R := IZR (Zfloor (x + / 2)).

Definition formatFileSize (bytes : Z) : jsstring :=
  if (bytes =? 0)%Z then text_zero_bytes
  else
    let i := unit_index bytes in
    Number_toString
      (fdiv (Math_round (fmul (fdiv (IZR bytes) (powerRZ 1024 i)) 100)) 100)
    ++ [32] ++ sizes_at i.

(** ** [handleFile] *)

(** [handleFile]: the type test, then the size test, each ending the
    handler with an error toast; otherwise the file is staged. *)
Definition handleFile (file : File) (p : page) : page :=
  if negb (includes validTypes (file_type file)) && negb (name_matches (file_name file))
  then showToast msg_invalid_type ToastError p
  else if (file_size file >? max_size)%Z
  then showToast msg_too_large ToastError p
  else
    set_uploadArea (AreaFileSelected (file_name file) (formatFileSize (file_size file)))
      (set_uploadBtn_disabled false (set_currentFile (Some file) p)).

(** ** [displayResults] *)

(** The row of one metadata entry: [if (value)] holds for a non-empty
    string. *)
Definition metadata_item (kv : jsstring * option jsstring) : metadata_row :=
  match snd kv with
  | Some (c :: v) => ValueRow (formatLabel toUpperCase (fst kv)) (c :: v)
  | Some [] => MissingRow (formatLabel toUpperCase (fst kv))
  | None => MissingRow (formatLabel toUpperCase (fst kv))
  end.

(** The rows of one entry of [extracted_info]: none for a falsy value; an
    array is never falsy. *)
Definition extracted_item (kv : jsstring * extracted_value) : list extracted_row :=
  match snd kv with
  | EScalar (Some (c :: v)) => [ScalarRow (formatLabel toUpperCase (fst kv)) (c :: v)]
  | EScalar (Some []) => []
  | EScalar None => []
  | EList items => [ListRow (formatLabel toUpperCase (fst kv)) items]
  end.

(** [result.alerts.forEach(alert => showToast(alert, 'warning'))] *)
Definition show_alerts (l : list jsstring) (p : page) : page :=
  fold_left (fun q alert => showToast alert ToastWarning q) l p.

(** [displayResults] of the main page script: the section is shown, the
    basic fields are filled, every alert becomes a warning toast, and the
    two lists are rebuilt. *)
Definition displayResults (result : ProcessResult) (p : page) : page :=
  let p1 :=
    match alerts result with
    | Some l => if (0 <? length l)%nat then show_alerts l p else p
    | None => p
    end in
  set_results
    (Some {| docId_text := document_id result;
             category_text := formatCategory toUpperCase (category result);
             category_class := class_prefix ++ category result;
             urgency_text := toUpperCase (urgency result);
             urgency_class := class_prefix ++ urgency result;
             department_text := department result;
             confidence_text := toFixed1 (fmul (confidence_score result) 100) ++ [37];
             immediate_text :=
               if requires_immediate_attention result then text_yes else text_no;
             customerInfo :=
               match metadata result with
               | Some ms => List.map metadata_item ms
               | None => []
               end;
             extractedInfo :=
               match extracted_info result with
               | Some es => flat_map extracted_item es
               | None => []
               end |})
    p1.

(** ** The recent documents *)

(** [recentDocuments.length === 0]; [None] when reading [length] throws
    (on [null]). *)
Definition length_is_zero (v : json) : option bool :=
  match v with
  | JNull => None
  | JArr items => Some (bool_decide (items = []))
  | JStr s => Some (bool_decide (s = []))
  | JObj ms =>
      Some (match obj_get key_length ms with
            | Some (JNum lit) => number_is_zero lit
            | _ => false
            end)
  | JBool _ => Some false
  | JNum _ => Some false
  end.

(** The row of one entry; [None] when drawing it throws a [TypeError]:
    [doc] is [null], or [doc.id], [doc.urgency] or [doc.timestamp] cannot be
    turned into a string, or [doc.category] is not a string and
    [formatCategory] fails on it. *)
Definition recent_item (doc : json) : option recent_row :=
  match doc with
  | JObj ms =>
      if field_stringifiable (obj_get key_id ms)
         && field_stringifiable (obj_get key_urgency ms)
         && field_stringifiable (obj_get key_timestamp ms)
      then
        match obj_get key_category ms with
        | Some (JStr c) =>
            Some {| row_id := obj_get key_id ms;
                    row_category := c;
                    row_label := formatCategory toUpperCase c;
                    row_urgency := obj_get key_urgency ms;
                    row_timestamp := obj_get key_timestamp ms |}
        | _ => None
        end
      else None
  | _ => None
  end.

(** [recentDocuments.map(doc => ...)]: all rows, or [None] at the first
    entry that throws. *)
Fixpoint recent_items (docs : list json) : option (list recent_row) :=
  match docs with
  | [] => Some []
  | d :: ds =>
      match recent_item d with
      | Some r =>
          match recent_items ds with
          | Some rs => Some (r :: rs)
          | None => None
          end
      | None => None
      end
  end.

(** [displayRecentDocuments]: nothing without the [#recentDocs] element;
    the empty-state paragraph for a sequence of length zero; otherwise one
    row for each entry. *)
Definition displayRecentDocuments (p : page) : outcome :=
  match recentDocs p with
  | None => Normal p
  | Some _ =>
      match length_is_zero (recentDocuments p) with
      | None => Throw TypeError p
      | Some true => Normal (set_recentDocs (Some RecentEmpty) p)
      | Some false =>
          match recentDocuments p with
          | JArr docs =>
              match recent_items docs with
              | Some rows => Normal (set_recentDocs (Some (RecentRows rows)) p)
              | None => Throw TypeError p
              end
          | _ => Throw TypeError p
          end
      end
  end.

(** [now] is the value of [new Date().toISOString()] at the call.
    [unshift] exists on arrays only. *)
Definition saveToRecent (now : jsstring) (result : ProcessResult) (p : page) : outcome :=
  match recentDocuments p with
  | JArr docs =>
      let docs1 := recent_entry result now :: docs in
      let docs2 := if (10 <? length docs1)%nat then take 10 docs1 else docs1 in
      displayRecentDocuments
        (set_localStorage
           (<[key_recentDocuments := JSON_stringify number_text (JArr docs2)]>
              (localStorage p))
           (set_recentDocuments (JArr docs2) p))
  | _ => Throw TypeError p
  end.

(** [loadRecentDocuments]: [getItem] gives [null] for a missing key;
    [if (stored)] fails on [null] and on the empty string; [JSON.parse] is
    called with no handler around it. *)
Definition loadRecentDocuments (p : page) : outcome :=
  match localStorage p !! key_recentDocuments with
  | None => Normal p
  | Some [] => Normal p
  | Some (c :: stored) =>
      match JSON_parse (c :: stored) with
      | None => Throw SyntaxError p
      | Some v => displayRecentDocuments (set_recentDocuments v p)
      end
  end.

(** Recording results one after the other, each with the time stamp of
    its call; an exception of one call does not stop the next. *)
Definition record_all (rs : list (jsstring * ProcessResult)) (p : page) : page :=
  fold_left (fun q nr => final (saveToRecent (fst nr) (snd nr) q)) rs p.

(** ** The global chat *)

(** [addChatMessage(role, content)] *)
Definition addChatMessage (r : chat_role) (text : jsstring) (p : page) : page :=
  set_chatMessagesMain (chatMessagesMain p ++ [(r, formatMessageContent text)]) p.

Definition chat_toast_prefix : jsstring := Eval cbv in u "Chat error: ".

(** [handleChat] up to the [await]: the user message is shown, the input
    cleared and disabled, the request sent with the transcript so far. *)
Definition handleChat_send (query : jsstring) (p : page) : page :=
  set_requests
    (requests p ++ [{| req_query := query; req_document_id := None;
                       req_chat_history := mainChatHistory p |}])
    (set_chat_disabled true
       (set_chatInputMain_value [] (addChatMessage RoleUser query p))).

(** [handleChat] after the [await]: the [try] body, the [catch] and the
    [finally].  The reply is rendered first and the two messages are pushed
    after it, so an answer that cannot be rendered goes to the [catch] with
    the transcript as it was. *)
Definition handleChat_settle (query : jsstring) (reply : chat_reply) (p : page) : page :=
  set_chat_disabled false
    match response_text reply with
    | Some response =>
        let p1 := addChatMessage RoleAssistant response p in
        set_mainChatHistory
          (mainChatHistory p1
             ++ [{| role := RoleUser; content := Some (JStr query) |}]
             ++ [{| role := RoleAssistant; content := Some (JStr response) |}])
          p1
    | None =>
        addChatMessage RoleAssistant msg_apology
          (showToast (chat_toast_prefix ++ chat_error_message reply) ToastError p)
    end.

(** One turn of the global chat: the text of the input when the handler
    runs, and how the request ends. *)
Definition handleChat (reply : chat_reply) (p : page) : page :=
  match trim (chatInputMain_value p) with
  | [] => p
  | c :: q => handleChat_settle (c :: q) reply (handleChat_send (c :: q) p)
  end.

End Platform.

(** ** The result display of [src/app/static/app.js] *)

Module AppStatic.
Section Platform.
Variable toUpperCase : jsstring -> jsstring.
Variable fmul : R -> R -> R.
Variable toFixed1 : R -> jsstring.

(** The two texts of [#immediate], code unit for code unit as this copy has
    them. *)
Definition text_yes : jsstring := [226; 353; 160; 239; 184; 32; 89; 101; 115].
Definition text_no : jsstring := [226; 339; 8220; 32; 78; 111].

(** No row for a falsy value. *)
Definition metadata_item (kv : jsstring * option jsstring) : list metadata_row :=
  match snd kv with
  | Some (c :: v) => [ValueRow (formatLabel toUpperCase (fst kv)) (c :: v)]
  | Some [] => []
  | None => []
  end.

(** This copy does not read [result.alerts]. *)
Definition displayResults (result : ProcessResult) (p : page) : page :=
  set_results
    (Some {| docId_text := document_id result;
             category_text := formatCategory toUpperCase (category result);
             category_class := class_prefix ++ category result;
             urgency_text := toUpperCase (urgency result);
             urgency_class := class_prefix ++ urgency result;
             department_text := department result;
             confidence_text := toFixed1 (fmul (confidence_score result) 100) ++ [37];
             immediate_text :=
               if requires_immediate_attention result then text_yes else text_no;
             customerInfo :=
               match metadata result with
               | Some ms => flat_map metadata_item ms
               | None => []
               end;
             extractedInfo :=
               match extracted_info result with
               | Some es => flat_map (extracted_item toUpperCase) es
               | None => []
               end |})
    p.
End Platform.
End AppStatic.

(** ** The document detail page *)

Module Detail.

(** The globals of the detail page script and what its chat writes to. *)
Record page : Type := {
  documentId : option jsstring;
  chatHistory : list chat_message;
  chatMessages : list (chat_role * jsstring);
  chatInput_value : jsstring;
  chat_disabled : bool;
  toasts : list toast;
  requests : list chat_request
}.

Definition showToast (message : jsstring) (type : toast_kind) (p : page) : page :=
  {| documentId := documentId p;
     chatHistory := chatHistory p;
     chatMessages := chatMessages p;
     chatInput_value := chatInput_value p;
     chat_disabled := chat_disabled p;
     toasts := toasts p ++ [{| toast_message := message; toast_type := type |}];
     requests := requests p |}.

(** [addMessageToChat(role, content)] *)
Definition addMessageToChat (r : chat_role) (text : jsstring) (p : page) : page :=
  {| documentId := documentId p;
     chatHistory := chatHistory p;
     chatMessages := chatMessages p ++ [(r, formatMessageContent text)];
     chatInput_value := chatInput_value p;
     chat_disabled := chat_disabled p;
     toasts := toasts p;
     requests := requests p |}.

Definition error_toast_prefix : jsstring := Eval cbv in u "Error: ".

(** [sendMessage] up to the [await]. *)
Definition sendMessage_send (message : jsstring) (p : page) : page :=
  let p1 := addMessageToChat RoleUser message p in
  {| documentId := documentId p1;
     chatHistory := chatHistory p1;
     chatMessages := chatMessages p1;
     chatInput_value := [];
     chat_disabled := true;
     toasts := toasts p1;
     requests :=
       requests p1 ++ [{| req_query := message;
                          req_document_id := Some (documentId p1);
                          req_chat_history := chatHistory p1 |}] |}.

(** The two [chatHistory.push] calls after [await response.json()], which
    come before the reply is rendered.  The first pushes the user message.
    The argument of the second reads [data.response]: on a [null] body that
    raises, and the second push does not happen; on another body the value
    read is pushed, string or not.  Without a body nothing is pushed. *)
Definition pushed (message : jsstring) (reply : chat_reply) : list chat_message :=
  match reply with
  | ChatOk response =>
      [{| role := RoleUser; content := Some (JStr message) |}]
        ++ [{| role := RoleAssistant; content := Some (JStr response) |}]
  | ChatOther response _ =>
      [{| role := RoleUser; content := Some (JStr message) |}]
        ++ [{| role := RoleAssistant; content := response |}]
  | ChatNullBody _ => [{| role := RoleUser; content := Some (JStr message) |}]
  | _ => []
  end.

(** [sendMessage] after the [await]: the pushes, then the reply rendered,
    or the [catch] when something raised (its toast and the apology), then
    the [finally].  [addMessageToChat] formats the content before it appends
    the element, so a reply that is no string leaves no element. *)
Definition sendMessage_settle (message : jsstring) (reply : chat_reply) (p : page) : page :=
  let p1 :=
    {| documentId := documentId p;
       chatHistory := chatHistory p ++ pushed message reply;
       chatMessages := chatMessages p;
       chatInput_value := chatInput_value p;
       chat_disabled := chat_disabled p;
       toasts := toasts p;
       requests := requests p |} in
  let p2 :=
    match response_text reply with
    | Some response => addMessageToChat RoleAssistant response p1
    | None =>
        addMessageToChat RoleAssistant msg_apology
          (showToast (error_toast_prefix ++ chat_error_message reply) ToastError p1)
    end in
  {| documentId := documentId p2;
     chatHistory := chatHistory p2;
     chatMessages := chatMessages p2;
     chatInput_value := chatInput_value p2;
     chat_disabled := false;
     toasts := toasts p2;
     requests := requests p2 |}.

(** One turn of the document chat. *)
Definition sendMessage (reply : chat_reply) (p : page) : page :=
  match trim (chatInput_value p) with
  | [] => p
  | c :: m => sendMessage_settle (c :: m) reply (sendMessage_send (c :: m) p)
  end.

Definition text_unknown : jsstring := Eval cbv in u "Unknown".

(** The [formatCategory] of this script: [Unknown] for a falsy
    argument. *)
Definition formatCategory (toUpperCase : jsstring -> jsstring)
  (category : option jsstring) : jsstring :=
  match category with
  | Some (c :: r) => formatCategory toUpperCase (c :: r)
  | _ => text_unknown
  end.

End Detail.

(* ===================================================================== *)
(** * The descriptions of the specification *)
(* ===================================================================== *)

(** ** The chat message format, as the specification words it *)

Definition stars : jsstring := [c_star; c_star].

(** What [.*] can match: a string without line terminator. *)
Definition dot_star (x : jsstring) : Prop :=
  Forall (fun c => is_line_terminator c = false) x.

(** [s] starts with an occurrence of [**x**], followed by [rest]. *)
Definition bold_at (s x rest : jsstring) : Prop :=
  s = stars ++ x ++ stars ++ rest /\ dot_star x.

(** The non-greedy occurrence: no occurrence at the same place is
    shorter. *)
Definition lazy_bold_at (s x rest : jsstring) : Prop :=
  bold_at s x rest
  /\ forall x' rest', bold_at s x' rest' -> (length x <= length x')%nat.

(** [Formatted s out]: [out] is [s] with each non-greedy occurrence of
    [**x**], taken from the left, replaced by [<strong>x</strong>], each
    newline replaced by [<br>], and every other code unit copied. *)
Inductive Formatted : jsstring -> jsstring -> Prop :=
| Formatted_end : Formatted [] []
| Formatted_bold s x rest out :
    lazy_bold_at s x rest ->
    Formatted rest out ->
    Formatted s (strong_open ++ x ++ strong_close ++ out)
| Formatted_newline rest out :
    Formatted rest out ->
    Formatted (c_newline :: rest) (br_tag ++ out)
| Formatted_other c rest out :
    c <> c_newline ->
    (forall x r, ~ bold_at (c :: rest) x r) ->
    Formatted rest out ->
    Formatted (c :: rest) (c :: out).

(** ** Values that survive [JSON.stringify] then [JSON.parse] *)

(** A value without number, whose objects list their properties in
    enumeration order with no key twice: strings, booleans, [null], and
    arrays and objects of such.  The entries of the recent list are of this
    kind. *)
Inductive plain : json -> Prop :=
| plain_null : plain JNull
| plain_bool b : plain (JBool b)
| plain_str s : plain (JStr s)
| plain_arr items : Forall plain items -> plain (JArr items)
| plain_obj members :
    obj_of_members members = members ->
    Forall (fun kv => plain (snd kv)) members ->
    plain (JObj members).

(** The number of steps [parse_value] needs on the text of a value. *)
Fixpoint json_size (v : json) : nat :=
  match v with
  | JArr items => S (list_sum (List.map (fun x => S (json_size x)) items))
  | JObj members => S (list_sum (List.map (fun kv => S (json_size (snd kv))) members))
  | _ => 1
  end.

(** The text of a plain value starts with one of these code units, none
    of them white space or a closing bracket. *)
Definition opens_value (c : N) : Prop :=
  c = 110 \/ c = 116 \/ c = 102 \/ c = 34 \/ c = 91 \/ c = 123.

(** A value is read back from its text, whatever follows, in [json_size]
    steps. *)
Definition reads_back (number_text : jsstring -> jsstring) (v : json) : Prop :=
  forall f rest,
    (json_size v <= f)%nat ->
    parse_value f (JSON_stringify number_text v ++ rest) = POk v rest.

(** The text of one member of an object. *)
Definition member_text (number_text : jsstring -> jsstring) (kv : jsstring * json)
  : jsstring :=
  JSON_quote (fst kv) ++ 58 :: JSON_stringify number_text (snd kv).

(** ** The recent list *)

(** The entries of recorded results, in the order of recording. *)
Definition entries_of (rs : list (jsstring * ProcessResult)) : list json :=
  List.map (fun nr => recent_entry (snd nr) (fst nr)) rs.

(** The storage holds the text of the sequence. *)
Definition persisted (number_text : jsstring -> jsstring) (p : page) : Prop :=
  localStorage p !! key_recentDocuments
  = Some (JSON_stringify number_text (recentDocuments p)).

(** ** Turns of a chat *)

(** What a turn adds to the transcript: the two messages when the text
    typed is not blank and the request ends with a reply, nothing
    otherwise. *)
Definition turn_messages (t : jsstring * chat_reply) : list chat_message :=
  match trim (fst t), response_text (snd t) with
  | c :: q, Some response =>
      [{| role := RoleUser; content := Some (JStr (c :: q)) |};
       {| role := RoleAssistant; content := Some (JStr response) |}]
  | _, _ => []
  end.

(** An answer as the contract of [POST /chat] has it, or none at all: the
    request failed, or the body holds a [response] string. *)
Definition conforms (reply : chat_reply) : bool :=
  match reply with
  | ChatNullBody _ => false
  | ChatOther (Some (JStr _)) _ => true
  | ChatOther _ _ => false
  | _ => true
  end.

(** What a turn of the document chat adds to its transcript, answer by
    answer: the user message and the [response] of a body that is not
    [null], string or not; the user message alone for the body [null];
    nothing when the text typed is blank, the request failed or the body is
    no JSON. *)
Definition detail_turn_messages (t : jsstring * chat_reply) : list chat_message :=
  match trim (fst t) with
  | [] => []
  | c :: q =>
      match snd t with
      | ChatOk response =>
          [{| role := RoleUser; content := Some (JStr (c :: q)) |};
           {| role := RoleAssistant; content := Some (JStr response) |}]
      | ChatOther response _ =>
          [{| role := RoleUser; content := Some (JStr (c :: q)) |};
           {| role := RoleAssistant; content := response |}]
      | ChatNullBody _ => [{| role := RoleUser; content := Some (JStr (c :: q)) |}]
      | ChatNetworkError _ | ChatHttpError | ChatBodyError _ => []
      end
  end.

(** Turns of the global chat, one after the other: for each, the text typed
    and how its request ends. *)
Definition chat_turns (turns : list (jsstring * chat_reply)) (p : page) : page :=
  fold_left (fun q t => handleChat (snd t) (set_chatInputMain_value (fst t) q)) turns p.

(** The same for the chat of the document page. *)
Definition detail_chat_turns (turns : list (jsstring * chat_reply)) (d : Detail.page)
  : Detail.page :=
  fold_left
    (fun q t =>
       Detail.sendMessage (snd t)
         {| Detail.documentId := Detail.documentId q;
            Detail.chatHistory := Detail.chatHistory q;
            Detail.chatMessages := Detail.chatMessages q;
            Detail.chatInput_value := fst t;
            Detail.chat_disabled := Detail.chat_disabled q;
            Detail.toasts := Detail.toasts q;
            Detail.requests := Detail.requests q |})
    turns d.

(** ** The input validator, as the specification words it *)

(** The extension of a file name: what follows its last dot. *)
Fixpoint extension (name : jsstring) : option jsstring :=
  match name with
  | [] => None
  | c :: r =>
      match extension r with
      | Some e => Some e
      | None => if c =? 46 then Some r else None
      end
  end.

(** The extension is one of the allowed ones, whatever the case of its
    letters. *)
Definition extension_allowed (name : jsstring) : Prop :=
  exists e ext,
    extension name = Some e /\ In ext extensions
    /\ ascii_toUpperCase e = ascii_toUpperCase ext.

(** The declared media type is on the allow-list or the extension is
    allowed. *)
Definition type_allowed (file : File) : Prop :=
  In (file_type file) validTypes \/ extension_allowed (file_name file).

(** The type is allowed and the size is at most 10 MiB. *)
Definition acceptable (file : File) : Prop :=
  type_allowed file /\ (file_size file <= 10 * 1024 * 1024)%Z.

(** ** The arithmetic of doubles *)

(** What is assumed of [Math.log] and of the division of doubles in
    [formatFileSize]: [Math.log(1)] is zero; on the sizes of files
    [Math.log] is within a hundredth of the logarithm; a quotient of a
    non-negative by a positive number is non-negative and, on the range
    used, within a hundredth of the exact quotient.  IEEE 754 arithmetic
    is far more accurate than that. *)
Record doubles_accurate (Math_log : R -> R) (fdiv : R -> R -> R) : Prop := {
  log_one : Math_log 1%R = 0%R;
  log_close :
    forall x, (2 <= x <= 16777216)%R -> (Rabs (Math_log x - ln x) <= / 100)%R;
  div_nonneg : forall a b, (0 <= a)%R -> (0 < b)%R -> (0 <= fdiv a b)%R;
  div_close :
    forall a b, (0 <= a <= 32)%R -> (1 <= b)%R -> (Rabs (fdiv a b - a / b) <= / 100)%R
}.

(* ===================================================================== *)
(** * Sample inputs *)
(* ===================================================================== *)

(** A result whose metadata lacks the customer identifier and which carries
    two alerts. *)
Definition sample_result : ProcessResult :=
  {| document_id := u "doc-1";
     category := u "loan_applications";
     urgency := u "high";
     department := u "Loans";
     confidence_score := 1%R;
     requires_immediate_attention := true;
     alerts := Some [u "Customer ID missing"; u "Signature missing"];
     metadata := Some [(u "customer_id", None); (u "account_number", Some (u "DE89"))];
     extracted_info := None |}.

(** The main page at start, nothing stored. *)
Definition sample_page : page := initial_page ∅ true.

(** The main page at start over a storage whose record is not JSON. *)
Definition sample_broken_page : page :=
  initial_page {[ key_recentDocuments := u "{oops" ]} true.

(** A text file named in upper case, with no media type. *)
Definition sample_file : File :=
  {| file_name := u "STATEMENT.TXT"; file_type := []; file_size := 2048 |}.

(** A 15 MB file. *)
Definition sample_large_file : File :=
  {| file_name := u "scan.pdf"; file_type := u "application/pdf"; file_size := 15000000 |}.

(** Stand-ins for what the platform prints. *)
Definition no_text (x : R) : jsstring := [].
Definition same_text (literal : jsstring) : jsstring := literal.
Definition never_zero (literal : jsstring) : bool := false.

(** The document page with a message typed in. *)
Definition sample_detail_page : Detail.page :=
  {| Detail.documentId := Some (u "doc-1");
     Detail.chatHistory := [];
     Detail.chatMessages := [];
     Detail.chatInput_value := u " Wie? ";
     Detail.chat_disabled := false;
     Detail.toasts := [];
     Detail.requests := [] |}.

(** The main page with a message typed in. *)
Definition sample_chat_page : page := set_chatInputMain_value (u " Wie? ") sample_page.

(** Two answers of [POST /chat] with status 200 and a body without a
    [response] string: the body [null] and the body [{}], each with the
    message of the [TypeError] it leads to. *)
Definition sample_null_reply : chat_reply :=
  ChatNullBody (u "Cannot read properties of null (reading 'response')").
Definition sample_empty_reply : chat_reply :=
  ChatOther None (u "Cannot read properties of undefined (reading 'replace')").

(** Eleven results recorded one after the other. *)
Definition sample_records : list (jsstring * ProcessResult) :=
  replicate 11 (u "2024-05-01T10:00:00.000Z", sample_result).

(* ===================================================================== *)
(** * The rest of the main page script *)
(* ===================================================================== *)

(** ** Values read from a response *)

(** A property of a parsed body at a place where the script tests it or
    writes it into a template literal: missing ([undefined]), [null], or a
    string. *)
Inductive js_field : Type :=
| FMissing
| FNull
| FText (s : jsstring).

(** The test [if (f)], and the left operand of [||] and of [? :]. *)
Definition truthy (f : js_field) : bool :=
  match f with
  | FText (_ :: _) => true
  | _ => false
  end.

(** [`${f}`] *)
Definition field_text (f : js_field) : jsstring :=
  match f with
  | FMissing => text_undefined
  | FNull => text_null
  | FText s => s
  end.

(** [`${f || fallback}`] *)
Definition or_else (f : js_field) (fallback : jsstring) : jsstring :=
  if truthy f then field_text f else fallback.

(** ** Integers in template literals *)

(** The decimal digits of a number, the most significant first; [fuel]
    bounds how many there are. *)
Fixpoint decimal_digits (fuel : nat) (n : N) : jsstring :=
  match fuel with
  | O => []
  | S f => if n <? 10 then [48 + n] else decimal_digits f (n / 10) ++ [48 + n mod 10]
  end.

(** [`${n}`] for an integer of magnitude below 10^21: its decimal digits,
    after a minus sign when it is negative.  A number has no more decimal
    digits than binary ones. *)
Definition integer_text (n : Z) : jsstring :=
  match n with
  | Z0 => [48]
  | Zpos q => decimal_digits (S (N.to_nat (N.log2 (Npos q)))) (Npos q)
  | Zneg q => 45 :: decimal_digits (S (N.to_nat (N.log2 (Npos q)))) (Npos q)
  end.

(** ** [encodeURIComponent] *)

(** The code units [encodeURIComponent] copies: the ASCII letters and
    digits and [- _ . ! ~ * ' ( )]. *)
Definition is_uri_unreserved (c : N) : bool :=
  ((65 <=? c) && (c <=? 90)) || ((97 <=? c) && (c <=? 122)) || ((48 <=? c) && (c <=? 57))
  || (c =? 45) || (c =? 95) || (c =? 46) || (c =? 33) || (c =? 126)
  || (c =? 42) || (c =? 39) || (c =? 40) || (c =? 41).

Definition upper_hex_digit (n : N) : N := if n <? 10 then 48 + n else 55 + n.

(** [%XX] with upper-case digits. *)
Definition percent_octet (b : N) : jsstring :=
  [37; upper_hex_digit (b / 16); upper_hex_digit (b mod 16)].

(** The octets of the UTF-8 encoding of a code point. *)
Definition utf8 (v : N) : list N :=
  if v <? 128 then [v]
  else if v <? 2048 then [192 + v / 64; 128 + v mod 64]
  else if v <? 65536 then [224 + v / 4096; 128 + v / 64 mod 64; 128 + v mod 64]
  else [240 + v / 262144; 128 + v / 4096 mod 64; 128 + v / 64 mod 64; 128 + v mod 64].

(** The code point of a surrogate pair. *)
Definition code_point (high low : N) : N :=
  (high - 55296) * 1024 + (low - 56320) + 65536.

Definition percent_encode (v : N) : jsstring := flat_map percent_octet (utf8 v).

(** [encodeURIComponent(s)]; [None] is the [URIError] raised at a
    surrogate that has no partner. *)
Fixpoint encodeURIComponent (s : jsstring) : option jsstring :=
  match s with
  | [] => Some []
  | c :: r =>
      if is_uri_unreserved c then option_map (cons c) (encodeURIComponent r)
      else if is_low_surrogate c then None
      else if is_high_surrogate c then
        match r with
        | d :: r' =>
            if is_low_surrogate d
            then option_map (app (percent_encode (code_point c d))) (encodeURIComponent r')
            else None
        | [] => None
        end
      else option_map (app (percent_encode c)) (encodeURIComponent r)
  end.

(** ** Replies and views *)

(** How [POST /process-document] ends: [fetch] rejects; the status is not
    ok and the body is an object, with or without [detail]; a body that
    cannot be read (no JSON, or [null] under a status that is not ok); the
    status is ok and the body is the result. *)
Inductive upload_reply : Type :=
| UploadNetworkError (message : jsstring)
| UploadRejected (detail : js_field)
| UploadUnreadable (message : jsstring)
| UploadOk (result : ProcessResult).

(** One element of [data.results] of [GET /search-documents].
    [sr_metadata] is [None] for a missing or [null] [metadata], and holds
    the [category] of the object otherwise. *)
Record search_result : Type := {
  sr_document_id : jsstring;
  sr_similarity : R;
  sr_text_preview : jsstring;
  sr_metadata : option js_field
}.

(** How the search request ends; [SearchOk None] is a body without
    [results] (or with [null]). *)
Inductive search_reply : Type :=
| SearchNetworkError (message : jsstring)
| SearchHttpError
| SearchUnreadable (message : jsstring)
| SearchOk (found : option (list search_result)).

(** One [.search-result-item]: the text of the identifier span after the
    page sign, the similarity badge, the preview, and the metadata block
    ([None] when absent) with its category badge (class and label, [None]
    when absent). *)
Record search_item : Type := {
  si_id : jsstring;
  si_similarity : jsstring;
  si_preview : jsstring;
  si_metadata : option (option (jsstring * jsstring))
}.

(** [#searchResults] *)
Inductive search_view : Type :=
| SearchUntouched
| SearchSearching
| SearchNoResults
| SearchFailed
| SearchItems (items : list search_item).

(** One document of a category in the body of
    [GET /documents-by-category]. *)
Record category_doc : Type := {
  cd_document_id : jsstring;
  cd_filename : js_field;
  cd_urgency : js_field;
  cd_customer_id : js_field;
  cd_processed_at : js_field
}.

(** How the request for the documents by category ends: any failure (the
    handler only logs its message), or a body with its [categories], [None]
    when missing or [null], else the object in enumeration order. *)
Inductive categories_reply : Type :=
| CategoriesError
| CategoriesOk (categories : option (list (jsstring * list category_doc))).

(** One [.document-card]: the argument written into its [onclick], the
    file name, the class and the text of the urgency badge, the customer
    span and the date. *)
Record document_card : Type := {
  card_target : jsstring;
  card_filename : jsstring;
  card_urgency_class : jsstring;
  card_urgency : jsstring;
  card_customer : option jsstring;
  card_date : jsstring
}.

(** One [.category-group] *)
Record category_group : Type := {
  group_icon : jsstring;
  group_title : jsstring;
  group_count : jsstring;
  group_cards : list document_card
}.

(** [#categoriesView] *)
Inductive categories_view : Type :=
| CategoriesUntouched
| CategoriesEmpty
| CategoriesFailed
| CategoryGroups (groups : list category_group).

(** ** The whole main page *)

(** The page of the main script: what the handlers embedded above work on
    ([core]), the other elements the script writes to, and the traffic.
    [upload_requests] and [search_requests] list what was sent, oldest
    first; the [*_pending] fields count the requests and timers that have
    not yet come back; [chats_pending] holds the query of each chat request
    under way.  [categoriesView], [searchInput_value] and [searchResults]
    are [None] on a page without the element. *)
Record main_page : Type := {
  core : page;
  dragover : bool;
  uploadBtn_text : jsstring;
  uploadSpinner_hidden : bool;
  fileInput_value : jsstring;
  upload_requests : list File;
  uploads_pending : nat;
  reset_timers : nat;
  category_requests : nat;
  categories_pending : nat;
  categoriesView : option categories_view;
  searchInput_value : option jsstring;
  searchResults : option search_view;
  search_requests : list jsstring;
  searches_pending : nat;
  chats_pending : list jsstring;
  location_href : option jsstring
}.

Definition set_core (v : page) (w : main_page) : main_page :=
  Build_main_page v (dragover w) (uploadBtn_text w) (uploadSpinner_hidden w)
    (fileInput_value w) (upload_requests w) (uploads_pending w) (reset_timers w)
    (category_requests w) (categories_pending w) (categoriesView w)
    (searchInput_value w) (searchResults w) (search_requests w) (searches_pending w)
    (chats_pending w) (location_href w).

Definition set_dragover (v : bool) (w : main_page) : main_page :=
  Build_main_page (core w) v (uploadBtn_text w) (uploadSpinner_hidden w)
    (fileInput_value w) (upload_requests w) (uploads_pending w) (reset_timers w)
    (category_requests w) (categories_pending w) (categoriesView w)
    (searchInput_value w) (searchResults w) (search_requests w) (searches_pending w)
    (chats_pending w) (location_href w).

Definition set_uploadBtn_text (v : jsstring) (w : main_page) : main_page :=
  Build_main_page (core w) (dragover w) v (uploadSpinner_hidden w) (fileInput_value w)
    (upload_requests w) (uploads_pending w) (reset_timers w) (category_requests w)
    (categories_pending w) (categoriesView w) (searchInput_value w) (searchResults w)
    (search_requests w) (searches_pending w) (chats_pending w) (location_href w).

Definition set_uploadSpinner_hidden (v : bool) (w : main_page) : main_page :=
  Build_main_page (core w) (dragover w) (uploadBtn_text w) v (fileInput_value w)
    (upload_requests w) (uploads_pending w) (reset_timers w) (category_requests w)
    (categories_pending w) (categoriesView w) (searchInput_value w) (searchResults w)
    (search_requests w) (searches_pending w) (chats_pending w) (location_href w).

Definition set_fileInput_value (v : jsstring) (w : main_page) : main_page :=
  Build_main_page (core w) (dragover w) (uploadBtn_text w) (uploadSpinner_hidden w) v
    (upload_requests w) (uploads_pending w) (reset_timers w) (category_requests w)
    (categories_pending w) (categoriesView w) (searchInput_value w) (searchResults w)
    (search_requests w) (searches_pending w) (chats_pending w) (location_href w).

Definition set_upload_requests (v : list File) (w : main_page) : main_page :=
  Build_main_page (core w) (dragover w) (uploadBtn_text w) (uploadSpinner_hidden w)
    (fileInput_value w) v (uploads_pending w) (reset_timers w) (category_requests w)
    (categories_pending w) (categoriesView w) (searchInput_value w) (searchResults w)
    (search_requests w) (searches_pending w) (chats_pending w) (location_href w).

Definition set_uploads_pending (v : nat) (w : main_page) : main_page :=
  Build_main_page (core w) (dragover w) (uploadBtn_text w) (uploadSpinner_hidden w)
    (fileInput_value w) (upload_requests w) v (reset_timers w) (category_requests w)
    (categories_pending w) (categoriesView w) (searchInput_value w) (searchResults w)
    (search_requests w) (searches_pending w) (chats_pending w) (location_href w).

Definition set_reset_timers (v : nat) (w : main_page) : main_page :=
  Build_main_page (core w) (dragover w) (uploadBtn_text w) (uploadSpinner_hidden w)
    (fileInput_value w) (upload_requests w) (uploads_pending w) v (category_requests w)
    (categories_pending w) (categoriesView w) (searchInput_value w) (searchResults w)
    (search_requests w) (searches_pending w) (chats_pending w) (location_href w).

Definition set_category_requests (v : nat) (w : main_page) : main_page :=
  Build_main_page (core w) (dragover w) (uploadBtn_text w) (uploadSpinner_hidden w)
    (fileInput_value w) (upload_requests w) (uploads_pending w) (reset_timers w) v
    (categories_pending w) (categoriesView w) (searchInput_value w) (searchResults w)
    (search_requests w) (searches_pending w) (chats_pending w) (location_href w).

Definition set_categories_pending (v : nat) (w : main_page) : main_page :=
  Build_main_page (core w) (dragover w) (uploadBtn_text w) (uploadSpinner_hidden w)
    (fileInput_value w) (upload_requests w) (uploads_pending w) (reset_timers w)
    (category_requests w) v (categoriesView w) (searchInput_value w) (searchResults w)
    (search_requests w) (searches_pending w) (chats_pending w) (location_href w).

Definition set_categoriesView (v : option categories_view) (w : main_page) : main_page :=
  Build_main_page (core w) (dragover w) (uploadBtn_text w) (uploadSpinner_hidden w)
    (fileInput_value w) (upload_requests w) (uploads_pending w) (reset_timers w)
    (category_requests w) (categories_pending w) v (searchInput_value w)
    (searchResults w) (search_requests w) (searches_pending w) (chats_pending w)
    (location_href w).

Definition set_searchInput_value (v : option jsstring) (w : main_page) : main_page :=
  Build_main_page (core w) (dragover w) (uploadBtn_text w) (uploadSpinner_hidden w)
    (fileInput_value w) (upload_requests w) (uploads_pending w) (reset_timers w)
    (category_requests w) (categories_pending w) (categoriesView w) v (searchResults w)
    (search_requests w) (searches_pending w) (chats_pending w) (location_href w).

Definition set_searchResults (v : option search_view) (w : main_page) : main_page :=
  Build_main_page (core w) (dragover w) (uploadBtn_text w) (uploadSpinner_hidden w)
    (fileInput_value w) (upload_requests w) (uploads_pending w) (reset_timers w)
    (category_requests w) (categories_pending w) (categoriesView w)
    (searchInput_value w) v (search_requests w) (searches_pending w) (chats_pending w)
    (location_href w).

Definition set_search_requests (v : list jsstring) (w : main_page) : main_page :=
  Build_main_page (core w) (dragover w) (uploadBtn_text w) (uploadSpinner_hidden w)
    (fileInput_value w) (upload_requests w) (uploads_pending w) (reset_timers w)
    (category_requests w) (categories_pending w) (categoriesView w)
    (searchInput_value w) (searchResults w) v (searches_pending w) (chats_pending w)
    (location_href w).

Definition set_searches_pending (v : nat) (w : main_page) : main_page :=
  Build_main_page (core w) (dragover w) (uploadBtn_text w) (uploadSpinner_hidden w)
    (fileInput_value w) (upload_requests w) (uploads_pending w) (reset_timers w)
    (category_requests w) (categories_pending w) (categoriesView w)
    (searchInput_value w) (searchResults w) (search_requests w) v (chats_pending w)
    (location_href w).

Definition set_chats_pending (v : list jsstring) (w : main_page) : main_page :=
  Build_main_page (core w) (dragover w) (uploadBtn_text w) (uploadSpinner_hidden w)
    (fileInput_value w) (upload_requests w) (uploads_pending w) (reset_timers w)
    (category_requests w) (categories_pending w) (categoriesView w)
    (searchInput_value w) (searchResults w) (search_requests w) (searches_pending w) v
    (location_href w).

Definition set_location_href (v : option jsstring) (w : main_page) : main_page :=
  Build_main_page (core w) (dragover w) (uploadBtn_text w) (uploadSpinner_hidden w)
    (fileInput_value w) (upload_requests w) (uploads_pending w) (reset_timers w)
    (category_requests w) (categories_pending w) (categoriesView w)
    (searchInput_value w) (searchResults w) (search_requests w) (searches_pending w)
    (chats_pending w) v.

(** A handler of [core] as a handler of the whole page. *)
Definition on_core (f : page -> page) (w : main_page) : main_page :=
  set_core (f (core w)) w.

Definition text_processing : jsstring := Eval cbv in u "Processing...".
Definition text_process_document : jsstring := Eval cbv in u "Process Document".
Definition msg_processing_failed : jsstring := Eval cbv in u "Processing failed".
Definition msg_processed : jsstring := Eval cbv in u "Document processed successfully!".
Definition error_prefix : jsstring := Eval cbv in u "Error: ".
Definition msg_enter_query : jsstring := Eval cbv in u "Please enter a search query".
Definition msg_search_failed : jsstring := Eval cbv in u "Search failed".
Definition search_error_prefix : jsstring := Eval cbv in u "Search error: ".
Definition search_url_prefix : jsstring := Eval cbv in u "/search-documents?query=".
Definition search_url_suffix : jsstring := Eval cbv in u "&n_results=5".
Definition text_percent_match : jsstring := Eval cbv in u "% match".
Definition text_no_filename : jsstring := Eval cbv in u "Unknown".
Definition text_NA : jsstring := Eval cbv in u "N/A".
Definition text_just_now : jsstring := Eval cbv in u "Just now".
Definition text_m_ago : jsstring := Eval cbv in u "m ago".
Definition text_h_ago : jsstring := Eval cbv in u "h ago".
Definition text_d_ago : jsstring := Eval cbv in u "d ago".
Definition text_Enter : jsstring := Eval cbv in u "Enter".
Definition detail_url_prefix : jsstring := Eval cbv in u "/static/document-detail.html?id=".

(** The page sign put before identifiers and file names, and the default
    icon of a category. *)
Definition page_sign : jsstring := [55357; 56516].

(** [categoryIcons] *)
Definition categoryIcons : list (jsstring * jsstring) :=
  Eval cbv in
    [(u "loan_applications", [55357; 56499]);
     (u "account_inquiries", [55357; 56496]);
     (u "complaints", [9888; 65039]);
     (u "kyc_updates", [55357; 56592]);
     (u "general_correspondence", [55357; 56551])].

(** The names every object inherits from [Object.prototype]:
    [categoryIcons[name]] finds a function (or, for [__proto__], the
    prototype itself) under them, never [undefined]. *)
Definition Object_prototype_names : list jsstring :=
  Eval cbv in
    [u "constructor"; u "hasOwnProperty"; u "isPrototypeOf"; u "propertyIsEnumerable";
     u "toLocaleString"; u "toString"; u "valueOf"; u "__proto__";
     u "__defineGetter__"; u "__defineSetter__"; u "__lookupGetter__"; u "__lookupSetter__"].

Fixpoint own_icon (k : jsstring) (icons : list (jsstring * jsstring)) : option jsstring :=
  match icons with
  | [] => None
  | (k', icon) :: icons' => if bool_decide (k = k') then Some icon else own_icon k icons'
  end.

Section Window.
(** What the handlers below take from the platform, besides what the
    handlers above take: the printing of a number with no decimals, the
    message of an exception raised by the engine, the time value of
    [new Date(v)] ([None] for an invalid date), the local date and time of a
    time value, and the text of a value inherited from
    [Object.prototype]. *)
Variable toUpperCase : jsstring -> jsstring.
Variable number_text : jsstring -> jsstring.
Variable number_is_zero : jsstring -> bool.
Variable Math_log : R -> R.
Variable fdiv : R -> R -> R.
Variable fmul : R -> R -> R.
Variable Number_toString : R -> jsstring.
Variable toFixed1 : R -> jsstring.
Variable toFixed0 : R -> jsstring.
Variable error_message : js_error -> page -> jsstring.
Variable uri_error_message : jsstring.
Variable Date_of : option json -> option Z.
Variable toLocaleDateString : option Z -> jsstring.
Variable toLocaleTimeString : option Z -> jsstring.
Variable inherited_text : jsstring -> jsstring.

(** ** Dates *)

(** [formatTimestamp(timestamp)] at the clock value [now].  The quotients
    are floored; with an invalid date every comparison fails and the date
    is printed. *)
Definition formatTimestamp (now : Z) (timestamp : option json) : jsstring :=
  match Date_of timestamp with
  | None => toLocaleDateString None
  | Some date =>
      let diff := (now - date)%Z in
      let minutes := Zfloor (fdiv (IZR diff) 60000) in
      let hours := Zfloor (fdiv (IZR diff) 3600000) in
      let days := Zfloor (fdiv (IZR diff) 86400000) in
      if (minutes <? 1)%Z then text_just_now
      else if (minutes <? 60)%Z then integer_text minutes ++ text_m_ago
      else if (hours <? 24)%Z then integer_text hours ++ text_h_ago
      else if (days <? 7)%Z then integer_text days ++ text_d_ago
      else toLocaleDateString (Some date)
  end.

(** [formatDate(dateString)] of the main page script. *)
Definition formatDate (dateString : js_field) : jsstring :=
  if truthy dateString
  then toLocaleDateString (Date_of (Some (JStr (field_text dateString))))
       ++ [32] ++ toLocaleTimeString (Date_of (Some (JStr (field_text dateString))))
  else text_NA.

(** ** Choosing a file *)

(** [handleFileSelect]: the first file of the input, if there is one. *)
Definition handleFileSelect (files : list File) (w : main_page) : main_page :=
  match files with
  | [] => w
  | file :: _ => on_core (handleFile Math_log fdiv fmul Number_toString file) w
  end.

(** The listeners of [dragover], [dragleave] and [drop] on the upload
    area. *)
Definition on_dragover (w : main_page) : main_page := set_dragover true w.
Definition on_dragleave (w : main_page) : main_page := set_dragover false w.
Definition on_drop (files : list File) (w : main_page) : main_page :=
  match files with
  | [] => set_dragover false w
  | file :: _ =>
      on_core (handleFile Math_log fdiv fmul Number_toString file) (set_dragover false w)
  end.

(** [resetUploadArea] *)
Definition resetUploadArea (w : main_page) : main_page :=
  set_fileInput_value []
    (on_core
       (fun p => set_uploadArea AreaPrompt (set_uploadBtn_disabled true (set_currentFile None p)))
       w).

(** ** The documents by category *)

(** [categoryIcons[category] || page_sign] *)
Definition icon_of (category : jsstring) : jsstring :=
  match own_icon category categoryIcons with
  | Some icon => icon
  | None =>
      if includes Object_prototype_names category then inherited_text category
      else page_sign
  end.

Definition card_of (doc : category_doc) : document_card :=
  {| card_target := cd_document_id doc;
     card_filename := or_else (cd_filename doc) text_no_filename;
     card_urgency_class := field_text (cd_urgency doc);
     card_urgency := or_else (cd_urgency doc) text_NA;
     card_customer :=
       if truthy (cd_customer_id doc) then Some (field_text (cd_customer_id doc)) else None;
     card_date := formatDate (cd_processed_at doc) |}.

Definition group_of (entry : jsstring * list category_doc) : category_group :=
  {| group_icon := icon_of (fst entry);
     group_title := formatCategory toUpperCase (fst entry);
     group_count := integer_text (Z.of_nat (length (snd entry)));
     group_cards := List.map card_of (snd entry) |}.

(** [displayDocumentsByCategory(categories)] *)
Definition displayDocumentsByCategory
  (categories : option (list (jsstring * list category_doc))) (w : main_page) : main_page :=
  match categoriesView w with
  | None => w
  | Some _ =>
      match categories with
      | None => set_categoriesView (Some CategoriesEmpty) w
      | Some [] => set_categoriesView (Some CategoriesEmpty) w
      | Some (entry :: entries) =>
          set_categoriesView (Some (CategoryGroups (List.map group_of (entry :: entries)))) w
      end
  end.

(** [loadDocumentsByCategory] up to its [await]: the request leaves. *)
Definition loadDocumentsByCategory_send (w : main_page) : main_page :=
  set_categories_pending (S (categories_pending w))
    (set_category_requests (S (category_requests w)) w).

(** [loadDocumentsByCategory] after its [await].  The [catch] writes to
    [#categoriesView] without testing for it: on a page without the element
    the function ends with a [TypeError] in a promise nobody waits for, and
    the page stays as it is. *)
Definition loadDocumentsByCategory_settle (reply : categories_reply) (w : main_page)
  : main_page :=
  match reply with
  | CategoriesOk categories => displayDocumentsByCategory categories w
  | CategoriesError =>
      match categoriesView w with
      | None => w
      | Some _ => set_categoriesView (Some CategoriesFailed) w
      end
  end.

(** [viewDocument(documentId)] *)
Definition viewDocument (documentId : jsstring) (w : main_page) : main_page :=
  set_location_href (Some (detail_url_prefix ++ documentId)) w.

(** ** The upload *)

(** [handleUpload] up to its [await]. *)
Definition handleUpload_send (w : main_page) : main_page :=
  match currentFile (core w) with
  | None => w
  | Some file =>
      set_uploads_pending (S (uploads_pending w))
        (set_upload_requests (upload_requests w ++ [file])
           (set_uploadSpinner_hidden false
              (set_uploadBtn_text text_processing
                 (on_core (set_uploadBtn_disabled true) w))))
  end.

(** The [finally] of [handleUpload]. *)
Definition handleUpload_finally (w : main_page) : main_page :=
  on_core (set_uploadBtn_disabled false)
    (set_uploadSpinner_hidden true (set_uploadBtn_text text_process_document w)).

(** The [catch] of [handleUpload]. *)
Definition handleUpload_catch (message : jsstring) (p : page) (w : main_page) : main_page :=
  set_core (showToast (error_prefix ++ message) ToastError p) w.

(** [handleUpload] after its [await]; [now] is the time stamp
    [saveToRecent] takes.  An exception of [saveToRecent] is caught like a
    failed request. *)
Definition handleUpload_settle (now : jsstring) (reply : upload_reply) (w : main_page)
  : main_page :=
  handleUpload_finally
    match reply with
    | UploadOk result =>
        match saveToRecent toUpperCase number_text number_is_zero now result
                (displayResults toUpperCase fmul toFixed1 result (core w)) with
        | Normal p =>
            set_reset_timers (S (reset_timers w))
              (loadDocumentsByCategory_send
                 (set_core (showToast msg_processed ToastSuccess p) w))
        | Throw e p => handleUpload_catch (error_message e p) p w
        end
    | UploadNetworkError message => handleUpload_catch message (core w) w
    | UploadUnreadable message => handleUpload_catch message (core w) w
    | UploadRejected detail =>
        handleUpload_catch (or_else detail msg_processing_failed) (core w) w
    end.

(** ** The search *)

Definition search_item_of (result : search_result) : search_item :=
  {| si_id := sr_document_id result;
     si_similarity := toFixed0 (fmul (sr_similarity result) 100) ++ text_percent_match;
     si_preview := sr_text_preview result;
     si_metadata :=
       match sr_metadata result with
       | None => None
       | Some category =>
           Some (if truthy category
                 then Some (field_text category,
                            formatCategory toUpperCase (field_text category))
                 else None)
       end |}.

(** [displaySearchResults(results)] *)
Definition displaySearchResults (found : option (list search_result)) (w : main_page)
  : main_page :=
  match searchResults w with
  | None => w
  | Some _ =>
      match found with
      | None => set_searchResults (Some SearchNoResults) w
      | Some [] => set_searchResults (Some SearchNoResults) w
      | Some (r :: rs) =>
          set_searchResults (Some (SearchItems (List.map search_item_of (r :: rs)))) w
      end
  end.

(** The [catch] of [handleSearch]: the toast, then the failure text. *)
Definition handleSearch_catch (message : jsstring) (w : main_page) : main_page :=
  let w1 := on_core (showToast (search_error_prefix ++ message) ToastError) w in
  match searchResults w1 with
  | None => w1
  | Some _ => set_searchResults (Some SearchFailed) w1
  end.

(** [handleSearch] up to its [await].  [encodeURIComponent] is inside the
    [try]: its [URIError] ends the search at once. *)
Definition handleSearch_send (w : main_page) : main_page :=
  match searchInput_value w with
  | None => w
  | Some typed =>
      match trim typed with
      | [] => on_core (showToast msg_enter_query ToastWarning) w
      | c :: query =>
          match searchResults w with
          | None => w
          | Some _ =>
              let w1 := set_searchResults (Some SearchSearching) w in
              match encodeURIComponent (c :: query) with
              | Some encoded =>
                  set_searches_pending (S (searches_pending w1))
                    (set_search_requests
                       (search_requests w1
                          ++ [search_url_prefix ++ encoded ++ search_url_suffix])
                       w1)
              | None => handleSearch_catch uri_error_message w1
              end
          end
      end
  end.

(** [handleSearch] after its [await]. *)
Definition handleSearch_settle (reply : search_reply) (w : main_page) : main_page :=
  match reply with
  | SearchOk found => displaySearchResults found w
  | SearchHttpError => handleSearch_catch msg_search_failed w
  | SearchNetworkError message => handleSearch_catch message w
  | SearchUnreadable message => handleSearch_catch message w
  end.

(** ** The page as a whole *)

(** [handleChat] up to its [await], on the whole page: the query waits for
    its answer. *)
Definition handleChat_start (w : main_page) : main_page :=
  match trim (chatInputMain_value (core w)) with
  | [] => w
  | c :: query =>
      set_chats_pending (chats_pending w ++ [c :: query])
        (on_core (handleChat_send (c :: query)) w)
  end.

(** The listener of [DOMContentLoaded]: the listeners are registered and
    the documents by category requested. *)
Definition DOMContentLoaded (w : main_page) : main_page :=
  loadDocumentsByCategory_send w.

(** What can happen on the page: the events the script listens to, the
    text typed into its inputs, the ends of its requests and of its timer,
    and a call of [handleSearch] (the script registers no listener for it;
    the markup of the page may call it). *)
Inductive event : Type :=
| DragOver
| DragLeave
| Drop (files : list File)
| FileChange (files : list File)
| UploadClick
| UploadAnswer (now : jsstring) (reply : upload_reply)
| ResetTimer
| CategoriesAnswer (reply : categories_reply)
| ChatTyped (text : jsstring)
| ChatClick
| ChatKeyPress (key : jsstring)
| ChatAnswer (i : nat) (reply : chat_reply)
| SearchTyped (text : jsstring)
| SearchCall
| SearchAnswer (reply : search_reply).

(** The page after an event; [None] when the event cannot happen (an
    answer or a timer nobody waits for, text for an input that is not
    there).  [ChatAnswer i] answers the [i]-th request under way: answers
    come in any order. *)
Definition step (e : event) (w : main_page) : option main_page :=
  match e with
  | DragOver => Some (on_dragover w)
  | DragLeave => Some (on_dragleave w)
  | Drop files => Some (on_drop files w)
  | FileChange files => Some (handleFileSelect files w)
  | UploadClick => Some (handleUpload_send w)
  | UploadAnswer now reply =>
      match uploads_pending w with
      | O => None
      | S n => Some (handleUpload_settle now reply (set_uploads_pending n w))
      end
  | ResetTimer =>
      match reset_timers w with
      | O => None
      | S n => Some (resetUploadArea (set_reset_timers n w))
      end
  | CategoriesAnswer reply =>
      match categories_pending w with
      | O => None
      | S n => Some (loadDocumentsByCategory_settle reply (set_categories_pending n w))
      end
  | ChatTyped text => Some (on_core (set_chatInputMain_value text) w)
  | ChatClick => Some (handleChat_start w)
  | ChatKeyPress key =>
      Some (if bool_decide (key = text_Enter) then handleChat_start w else w)
  | ChatAnswer i reply =>
      match chats_pending w !! i with
      | None => None
      | Some query =>
          Some (on_core (handleChat_settle query reply)
                  (set_chats_pending (delete i (chats_pending w)) w))
      end
  | SearchTyped text =>
      match searchInput_value w with
      | None => None
      | Some _ => Some (set_searchInput_value (Some text) w)
      end
  | SearchCall => Some (handleSearch_send w)
  | SearchAnswer reply =>
      match searches_pending w with
      | O => None
      | S n => Some (handleSearch_settle reply (set_searches_pending n w))
      end
  end.

(** The page after a sequence of events; one that cannot happen is passed
    over. *)
Definition run (events : list event) (w : main_page) : main_page :=
  fold_left (fun w' e => default w' (step e w')) events w.

End Window.

(* ===================================================================== *)
(** * The rest of [src/app/static/app.js] *)
(* ===================================================================== *)

(** The second copy of the main page script has no chat and no documents
    by category; its [handleFile], [handleUpload] up to the [await],
    [resetUploadArea] and [formatTimestamp] are those above.  What differs
    is embedded here, on the same page record. *)
Module AppJs.
Section Platform.
Variable toUpperCase : jsstring -> jsstring.
Variable number_text : jsstring -> jsstring.
Variable number_is_zero : jsstring -> bool.
Variable fmul : R -> R -> R.
Variable toFixed1 : R -> jsstring.
Variable error_message : js_error -> page -> jsstring.

(** [displayRecentDocuments] without the test for the element: writing to
    a missing [#recentDocs] raises a [TypeError]. *)
Definition displayRecentDocuments (p : page) : outcome :=
  match length_is_zero number_is_zero (recentDocuments p) with
  | None => Throw TypeError p
  | Some true =>
      match recentDocs p with
      | Some _ => Normal (set_recentDocs (Some RecentEmpty) p)
      | None => Throw TypeError p
      end
  | Some false =>
      match recentDocuments p with
      | JArr docs =>
          match recent_items toUpperCase docs with
          | Some rows =>
              match recentDocs p with
              | Some _ => Normal (set_recentDocs (Some (RecentRows rows)) p)
              | None => Throw TypeError p
              end
          | None => Throw TypeError p
          end
      | _ => Throw TypeError p
      end
  end.

Definition saveToRecent (now : jsstring) (result : ProcessResult) (p : page) : outcome :=
  match recentDocuments p with
  | JArr docs =>
      let docs1 := recent_entry result now :: docs in
      let docs2 := if (10 <? length docs1)%nat then take 10 docs1 else docs1 in
      displayRecentDocuments
        (set_localStorage
           (<[key_recentDocuments := JSON_stringify number_text (JArr docs2)]>
              (localStorage p))
           (set_recentDocuments (JArr docs2) p))
  | _ => Throw TypeError p
  end.

Definition loadRecentDocuments (p : page) : outcome :=
  match localStorage p !! key_recentDocuments with
  | None => Normal p
  | Some [] => Normal p
  | Some (c :: stored) =>
      match JSON_parse (c :: stored) with
      | None => Throw SyntaxError p
      | Some v => displayRecentDocuments (set_recentDocuments v p)
      end
  end.

(** The listener of [DOMContentLoaded], on a page that has the elements
    the listeners are registered on: the stored list is loaded; an
    exception of the load ends the listener. *)
Definition DOMContentLoaded (w : main_page) : main_page :=
  on_core (fun p => final (loadRecentDocuments p)) w.

(** [handleUpload] after its [await]: no request for the documents by
    category follows the success toast. *)
Definition handleUpload_settle (now : jsstring) (reply : upload_reply) (w : main_page)
  : main_page :=
  handleUpload_finally
    match reply with
    | UploadOk result =>
        match saveToRecent now result
                (AppStatic.displayResults toUpperCase fmul toFixed1 result (core w)) with
        | Normal p =>
            set_reset_timers (S (reset_timers w))
              (set_core (showToast msg_processed ToastSuccess p) w)
        | Throw e p => handleUpload_catch (error_message e p) p w
        end
    | UploadNetworkError message => handleUpload_catch message (core w) w
    | UploadUnreadable message => handleUpload_catch message (core w) w
    | UploadRejected detail =>
        handleUpload_catch (or_else detail msg_processing_failed) (core w) w
    end.

(** Uploads answered with a result one after the other, each with the time
    stamp of its answer. *)
Definition uploads_answered (rs : list (jsstring * ProcessResult)) (w : main_page)
  : main_page :=
  fold_left (fun w' nr => handleUpload_settle (fst nr) (UploadOk (snd nr)) w') rs w.

End Platform.
End AppJs.

(* ===================================================================== *)
(** * The rest of the document detail page *)
(* ===================================================================== *)

Module DetailView.

(** [document.metadata] in the body of [GET /document/<id>] *)
Record doc_metadata : Type := {
  md_category : js_field;
  md_urgency : js_field;
  md_filename : js_field;
  md_processed_at : js_field;
  md_customer_id : js_field
}.

(** The body of [GET /document/<id>]; [body_metadata] is [None] when
    [metadata] is missing or [null]. *)
Record document_body : Type := {
  body_id : js_field;
  body_metadata : option doc_metadata;
  body_document : js_field
}.

(** How the request for the document ends. *)
Inductive document_reply : Type :=
| DocumentNetworkError (message : jsstring)
| DocumentHttpError
| DocumentUnreadable (message : jsstring)
| DocumentOk (body : document_body).

(** What [displayDocumentInfo] writes: the texts of the information
    items, the customer section ([None] when absent) and the preview. *)
Record info_view : Type := {
  info_id : jsstring;
  info_category_class : jsstring;
  info_category : jsstring;
  info_urgency_class : jsstring;
  info_urgency : jsstring;
  info_filename : jsstring;
  info_processed : jsstring;
  info_customer : option jsstring;
  info_preview : jsstring
}.

(** [#documentInfo] *)
Inductive info_panel : Type :=
| InfoUntouched
| InfoFailed
| InfoShown (view : info_view).

(** The detail page as a whole: the chat embedded above, the information
    panel, the requests for the document sent, whether the chat listeners
    are registered, the pending redirect, and the messages of the chat
    requests under way. *)
Record window : Type := {
  chat : Detail.page;
  documentInfo : info_panel;
  document_requests : list jsstring;
  loads_pending : nat;
  listening : bool;
  redirect_timers : nat;
  chats_pending : list jsstring
}.

Definition set_chat (v : Detail.page) (w : window) : window :=
  Build_window v (documentInfo w) (document_requests w) (loads_pending w) (listening w)
    (redirect_timers w) (chats_pending w).

Definition set_documentInfo (v : info_panel) (w : window) : window :=
  Build_window (chat w) v (document_requests w) (loads_pending w) (listening w)
    (redirect_timers w) (chats_pending w).

Definition set_document_requests (v : list jsstring) (w : window) : window :=
  Build_window (chat w) (documentInfo w) v (loads_pending w) (listening w)
    (redirect_timers w) (chats_pending w).

Definition set_loads_pending (v : nat) (w : window) : window :=
  Build_window (chat w) (documentInfo w) (document_requests w) v (listening w)
    (redirect_timers w) (chats_pending w).

Definition set_listening (v : bool) (w : window) : window :=
  Build_window (chat w) (documentInfo w) (document_requests w) (loads_pending w) v
    (redirect_timers w) (chats_pending w).

Definition set_redirect_timers (v : nat) (w : window) : window :=
  Build_window (chat w) (documentInfo w) (document_requests w) (loads_pending w)
    (listening w) v (chats_pending w).

Definition set_chats_pending (v : list jsstring) (w : window) : window :=
  Build_window (chat w) (documentInfo w) (document_requests w) (loads_pending w)
    (listening w) (redirect_timers w) v.

Definition on_chat (f : Detail.page -> Detail.page) (w : window) : window :=
  set_chat (f (chat w)) w.

Definition set_documentId (id : option jsstring) (d : Detail.page) : Detail.page :=
  {| Detail.documentId := id;
     Detail.chatHistory := Detail.chatHistory d;
     Detail.chatMessages := Detail.chatMessages d;
     Detail.chatInput_value := Detail.chatInput_value d;
     Detail.chat_disabled := Detail.chat_disabled d;
     Detail.toasts := Detail.toasts d;
     Detail.requests := Detail.requests d |}.

Definition set_chatInput_value (text : jsstring) (d : Detail.page) : Detail.page :=
  {| Detail.documentId := Detail.documentId d;
     Detail.chatHistory := Detail.chatHistory d;
     Detail.chatMessages := Detail.chatMessages d;
     Detail.chatInput_value := text;
     Detail.chat_disabled := Detail.chat_disabled d;
     Detail.toasts := Detail.toasts d;
     Detail.requests := Detail.requests d |}.

Definition msg_no_id : jsstring := Eval cbv in u "No document ID provided".
Definition msg_load_failed : jsstring := Eval cbv in u "Failed to load document".
Definition document_url_prefix : jsstring := Eval cbv in u "/document/".
Definition text_no_content : jsstring := Eval cbv in u "No content available".
Definition text_ellipsis : jsstring := Eval cbv in u "...".

(** [metadata] when the body has none: the empty object. *)
Definition no_metadata : doc_metadata :=
  {| md_category := FMissing; md_urgency := FMissing; md_filename := FMissing;
     md_processed_at := FMissing; md_customer_id := FMissing |}.

(** A tested property as the argument of [Detail.formatCategory]. *)
Definition text_of (f : js_field) : option jsstring :=
  match f with
  | FText s => Some s
  | _ => None
  end.

Section Platform.
Variable toUpperCase : jsstring -> jsstring.
Variable Date_of : option json -> option Z.
Variable toLocaleString : option Z -> jsstring.

(** [formatDate(dateString)] of the detail page script. *)
Definition formatDate (dateString : js_field) : jsstring :=
  if truthy dateString
  then toLocaleString (Date_of (Some (JStr (field_text dateString))))
  else text_NA.

(** [metadata.urgency?.toUpperCase() || 'N/A'] *)
Definition urgency_label (urgency : js_field) : jsstring :=
  match urgency with
  | FText s =>
      match toUpperCase s with
      | [] => text_NA
      | c :: t => c :: t
      end
  | _ => text_NA
  end.

(** [document.document ? document.document.substring(0, 500) + '...'
    : 'No content available'] *)
Definition preview_of (content : js_field) : jsstring :=
  if truthy content then take 500 (field_text content) ++ text_ellipsis
  else text_no_content.

(** [displayDocumentInfo(document)] *)
Definition displayDocumentInfo (body : document_body) : info_view :=
  let metadata := default no_metadata (body_metadata body) in
  {| info_id := field_text (body_id body);
     info_category_class := field_text (md_category metadata);
     info_category := Detail.formatCategory toUpperCase (text_of (md_category metadata));
     info_urgency_class := field_text (md_urgency metadata);
     info_urgency := urgency_label (md_urgency metadata);
     info_filename := or_else (md_filename metadata) text_no_filename;
     info_processed := formatDate (md_processed_at metadata);
     info_customer :=
       if truthy (md_customer_id metadata)
       then Some (field_text (md_customer_id metadata)) else None;
     info_preview := preview_of (body_document body) |}.

(** [loadDocument] up to its [await]: the identifier goes into the path as
    it is. *)
Definition loadDocument_send (w : window) : window :=
  set_loads_pending (S (loads_pending w))
    (set_document_requests
       (document_requests w
          ++ [document_url_prefix ++ default text_null (Detail.documentId (chat w))])
       w).

(** [loadDocument] after its [await]. *)
Definition loadDocument_settle (reply : document_reply) (w : window) : window :=
  let failed (message : jsstring) :=
    on_chat (Detail.showToast (error_prefix ++ message) ToastError)
      (set_documentInfo InfoFailed w) in
  match reply with
  | DocumentOk body => set_documentInfo (InfoShown (displayDocumentInfo body)) w
  | DocumentHttpError => failed msg_load_failed
  | DocumentNetworkError message => failed message
  | DocumentUnreadable message => failed message
  end.

(** The listener of [DOMContentLoaded]; [id] is [params.get('id')].
    Without an identifier the error toast is shown and the redirect to the
    main page scheduled: no document is requested and no chat listener
    registered. *)
Definition DOMContentLoaded (id : option jsstring) (w : window) : window :=
  let w1 := on_chat (set_documentId id) w in
  match id with
  | Some (c :: s) => set_listening true (loadDocument_send w1)
  | _ =>
      set_redirect_timers (S (redirect_timers w1))
        (on_chat (Detail.showToast msg_no_id ToastError) w1)
  end.

(** [sendMessage] up to its [await], on the whole page. *)
Definition sendMessage_start (w : window) : window :=
  match trim (Detail.chatInput_value (chat w)) with
  | [] => w
  | c :: message =>
      set_chats_pending (chats_pending w ++ [c :: message])
        (on_chat (Detail.sendMessage_send (c :: message)) w)
  end.

(** What can happen on the detail page. *)
Inductive event : Type :=
| DocumentAnswer (reply : document_reply)
| Typed (text : jsstring)
| SendClick
| KeyPress (key : jsstring) (shiftKey : bool)
| ChatAnswer (i : nat) (reply : chat_reply).

(** The page after an event; [None] when the event cannot happen.  A click
    or a key does nothing when no listener is registered; the [Enter] key
    sends unless the shift key is down. *)
Definition step (e : event) (w : window) : option window :=
  match e with
  | DocumentAnswer reply =>
      match loads_pending w with
      | O => None
      | S n => Some (loadDocument_settle reply (set_loads_pending n w))
      end
  | Typed text => Some (on_chat (set_chatInput_value text) w)
  | SendClick => Some (if listening w then sendMessage_start w else w)
  | KeyPress key shiftKey =>
      Some (if listening w && bool_decide (key = text_Enter) && negb shiftKey
            then sendMessage_start w else w)
  | ChatAnswer i reply =>
      match chats_pending w !! i with
      | None => None
      | Some message =>
          Some (on_chat (Detail.sendMessage_settle message reply)
                  (set_chats_pending (delete i (chats_pending w)) w))
      end
  end.

Definition run (events : list event) (w : window) : window :=
  fold_left (fun w' e => default w' (step e w')) events w.

End Platform.
End DetailView.

(* ===================================================================== *)
(** * Properties of pages *)
(* ===================================================================== *)

(** A text of white space only: what [trim] empties. *)
Definition blank (s : jsstring) : bool := forallb is_js_space s.

(** A history made of exchanges: a user message followed by an assistant
    message, any number of times. *)
Fixpoint paired (h : list chat_message) : bool :=
  match h with
  | [] => true
  | a :: h' =>
      match h' with
      | b :: h'' =>
          match role a, role b with
          | RoleUser, RoleAssistant => paired h''
          | _, _ => false
          end
      | [] => false
      end
  end.

(** A chat request is in order with respect to a history: it carries a
    query that is not empty, and a history made of exchanges that the
    current history extends. *)
Definition request_in_order (history : list chat_message) (r : chat_request) : Prop :=
  req_query r <> []
  /\ paired (req_chat_history r) = true
  /\ req_chat_history r `prefix_of` history.

(** The main page before the script has done anything: the globals at
    their initial values, nothing sent, nothing awaited.  The elements may
    be in any state. *)
Record fresh (w : main_page) : Prop := {
  fresh_currentFile : currentFile (core w) = None;
  fresh_recentDocuments : recentDocuments (core w) = JArr [];
  fresh_mainChatHistory : mainChatHistory (core w) = [];
  fresh_requests : requests (core w) = [];
  fresh_upload_requests : upload_requests w = [];
  fresh_uploads_pending : uploads_pending w = 0%nat;
  fresh_reset_timers : reset_timers w = 0%nat;
  fresh_chats_pending : chats_pending w = []
}.

(** The detail page before its script has done anything. *)
Record fresh_detail (w : DetailView.window) : Prop := {
  fresh_chatHistory : Detail.chatHistory (DetailView.chat w) = [];
  fresh_detail_requests : Detail.requests (DetailView.chat w) = [];
  fresh_document_requests : DetailView.document_requests w = [];
  fresh_listening : DetailView.listening w = false;
  fresh_detail_pending : DetailView.chats_pending w = []
}.

(** The toasts of the alerts of a result, in order. *)
Definition alert_toasts (result : ProcessResult) : list toast :=
  List.map (fun a => {| toast_message := a; toast_type := ToastWarning |})
    (default [] (alerts result)).

(** An entry of [extracted_info] that gets a row: a non-empty string or an
    array. *)
Definition has_row (kv : jsstring * extracted_value) : bool :=
  match snd kv with
  | EScalar (Some (_ :: _)) => true
  | EScalar _ => false
  | EList _ => true
  end.

(** The message shown after an upload that did not end with a result. *)
Definition upload_failure_message (reply : upload_reply) : jsstring :=
  match reply with
  | UploadNetworkError message => message
  | UploadUnreadable message => message
  | UploadRejected detail => or_else detail msg_processing_failed
  | UploadOk _ => []
  end.

(** What is assumed of the division of doubles in [formatTimestamp]: the
    floor of the quotient of a difference of time values by the number of
    milliseconds in a minute, an hour or a day is the integer quotient.
    With quotients rounded to the nearest double this holds for all
    differences up to 2^52 milliseconds. *)
Definition floor_division_exact (fdiv : R -> R -> R) : Prop :=
  forall a b : Z,
    (Z.abs a <= 2 ^ 52)%Z ->
    (b = 60000 \/ b = 3600000 \/ b = 86400000)%Z ->
    Zfloor (fdiv (IZR a) (IZR b)) = (a / b)%Z.

(** The code units that can stand in an encoded component: the ones copied,
    and the percent sign of an escape (its digits are among the ones
    copied). *)
Definition uri_safe (c : N) : bool := is_uri_unreserved c || (c =? 37).

(** [q] has the globals, the storage and the chat traffic of [p]: what a
    handler that only draws leaves alone. *)
Definition same_globals (p q : page) : Prop :=
  currentFile q = currentFile p
  /\ recentDocuments q = recentDocuments p
  /\ localStorage q = localStorage p
  /\ mainChatHistory q = mainChatHistory p
  /\ requests q = requests p.

(** [q] differs from [p] at most in the recent list: the sequence, its
    stored text and its element. *)
Definition same_but_recent (p q : page) : Prop :=
  currentFile q = currentFile p
  /\ mainChatHistory q = mainChatHistory p
  /\ uploadBtn_disabled q = uploadBtn_disabled p
  /\ uploadArea q = uploadArea p
  /\ toasts q = toasts p
  /\ results q = results p
  /\ chatMessagesMain q = chatMessagesMain p
  /\ chatInputMain_value q = chatInputMain_value p
  /\ chat_disabled q = chat_disabled p
  /\ requests q = requests p.

(** Every file sent for processing, and the file staged, passed the
    validation. *)
Definition files_validated (w : main_page) : Prop :=
  Forall acceptable (upload_requests w)
  /\ forall file, currentFile (core w) = Some file -> acceptable file.

(** The recent list is a sequence of at most ten recorded entries. *)
Definition recent_in_order (p : page) : Prop :=
  exists rs : list (jsstring * ProcessResult),
    recentDocuments p = JArr (entries_of rs) /\ (length rs <= 10)%nat.

(** The chat of the main page is in order: the history is made of
    exchanges, every request sent is in order with respect to it, and no
    query under way is empty. *)
Definition chat_in_order (w : main_page) : Prop :=
  paired (mainChatHistory (core w)) = true
  /\ Forall (request_in_order (mainChatHistory (core w))) (requests (core w))
  /\ Forall (fun r => req_document_id r = None) (requests (core w))
  /\ Forall (fun query => query <> []) (chats_pending w).

(** A code unit is a number below 2^16. *)
Definition is_code_unit (c : N) : Prop := c < 65536.

(** A history in which every assistant message comes directly after a user
    message; [after_user] tells whether the message before is a user
    message. *)
Fixpoint answers_follow (after_user : bool) (h : list chat_message) : bool :=
  match h with
  | [] => true
  | m :: h' =>
      match role m with
      | RoleUser => answers_follow true h'
      | RoleAssistant => after_user && answers_follow false h'
      end
  end.

(** A user message holds a text that is not empty. *)
Definition user_text (m : chat_message) : Prop :=
  role m = RoleUser -> exists c q, content m = Some (JStr (c :: q)).

(** A history of turns: user messages with their text, each followed by at
    most one assistant message.  A user message can stay without one. *)
Definition in_turns (h : list chat_message) : Prop :=
  answers_follow false h = true /\ Forall user_text h.

(** A request of the document chat is in order with respect to a history:
    its query is not empty, and it carries a history of turns that the
    current history extends. *)
Definition detail_request_in_order (history : list chat_message) (r : chat_request)
  : Prop :=
  req_query r <> []
  /\ in_turns (req_chat_history r)
  /\ req_chat_history r `prefix_of` history.

(** The chat of the detail page is in order for the identifier [id] taken
    from the address: the global holds it; the history is one of turns;
    every request sent is in order and carries it; no message
    under way is empty; the listeners are registered only for an
    identifier that is not empty, and without them nothing was sent; the
    document was requested once, or not at all without an identifier. *)
Definition detail_in_order (id : option jsstring) (w : DetailView.window) : Prop :=
  Detail.documentId (DetailView.chat w) = id
  /\ in_turns (Detail.chatHistory (DetailView.chat w))
  /\ Forall (detail_request_in_order (Detail.chatHistory (DetailView.chat w)))
       (Detail.requests (DetailView.chat w))
  /\ Forall (fun r => req_document_id r = Some id) (Detail.requests (DetailView.chat w))
  /\ Forall (fun message => message <> []) (DetailView.chats_pending w)
  /\ (DetailView.listening w = true -> exists c s, id = Some (c :: s))
  /\ (DetailView.listening w = false ->
      Detail.requests (DetailView.chat w) = []
      /\ DetailView.chats_pending w = []
      /\ Detail.chatHistory (DetailView.chat w) = [])
  /\ DetailView.document_requests w
     = match id with
       | Some (c :: s) => [DetailView.document_url_prefix ++ c :: s]
       | _ => []
       end.

(** The row of the recent list for a recorded result. *)
Definition recent_row_of (toUpperCase : jsstring -> jsstring)
  (nr : jsstring * ProcessResult) : recent_row :=
  {| row_id := Some (JStr (document_id (snd nr)));
     row_category := category (snd nr);
     row_label := formatCategory toUpperCase (category (snd nr));
     row_urgency := Some (JStr (urgency (snd nr)));
     row_timestamp := Some (JStr (fst nr)) |}.

(** What is assumed of [Math.log] and of the division of doubles for sizes
    up to 2^53 bytes: both within a hundredth of the exact value. *)
Record doubles_accurate_large (Math_log : R -> R) (fdiv : R -> R -> R) : Prop := {
  large_log_close :
    forall x, (2 <= x <= 9007199254740992)%R -> (Rabs (Math_log x - ln x) <= / 100)%R;
  large_div_close :
    forall a b, (0 <= a <= 64)%R -> (1 <= b)%R -> (Rabs (fdiv a b - a / b) <= / 100)%R
}.

(** The events of the upload: choosing a file, sending it, its answer and
    the reset; and the events that run the chat handler. *)
Definition is_upload_event (e : event) : bool :=
  match e with
  | Drop _ | FileChange _ | UploadClick | UploadAnswer _ _ | ResetTimer => true
  | _ => false
  end.

Definition is_chat_event (e : event) : bool :=
  match e with
  | ChatClick | ChatKeyPress _ | ChatAnswer _ _ => true
  | _ => false
  end.

(* ===================================================================== *)
(** * More sample inputs *)
(* ===================================================================== *)

(** Stand-ins for what the platform gives. *)
Definition no_message (e : js_error) (p : page) : jsstring := [].
Definition epoch (v : option json) : option Z := Some 0%Z.
Definition no_date (t : option Z) : jsstring := [].
Definition no_inherited (name : jsstring) : jsstring := [].

(** The whole main page at start over a core page: the search input holds
    a query with an ampersand. *)
Definition sample_window (p : page) : main_page :=
  {| core := p;
     dragover := false;
     uploadBtn_text := text_process_document;
     uploadSpinner_hidden := true;
     fileInput_value := [];
     upload_requests := [];
     uploads_pending := 0;
     reset_timers := 0;
     category_requests := 0;
     categories_pending := 0;
     categoriesView := Some CategoriesUntouched;
     searchInput_value := Some (u " a&b=c ");
     searchResults := Some SearchUntouched;
     search_requests := [];
     searches_pending := 0;
     chats_pending := [];
     location_href := None |}.

Definition sample_main_page : main_page := sample_window sample_page.

(** The main page with a file staged. *)
Definition sample_staged_page : main_page :=
  sample_window (set_uploadBtn_disabled false (set_currentFile (Some sample_file) sample_page)).

(** The page of the second copy over a storage that holds [null]. *)
Definition sample_null_page : main_page :=
  sample_window (initial_page {[ key_recentDocuments := u "null" ]} true).

(** A result with extracted information: a name, a missing amount, an
    empty remark and two dates. *)
Definition sample_extracted_result : ProcessResult :=
  {| document_id := u "doc-2";
     category := u "complaints";
     urgency := u "low";
     department := u "Service";
     confidence_score := 1%R;
     requires_immediate_attention := false;
     alerts := None;
     metadata := None;
     extracted_info :=
       Some [(u "customer_name", EScalar (Some (u "Ada")));
             (u "amount", EScalar None);
             (u "remark", EScalar (Some []));
             (u "dates", EList [u "2024-05-01"; u "2024-05-02"])] |}.

(** The main page at start with one result in the recent list. *)
Definition sample_recorded_page : page :=
  set_recentDocuments
    (JArr (entries_of [(u "2024-05-01T10:00:00.000Z", sample_result)])) sample_page.

(** A file selected, sent, answered with a result, and a chat turn. *)
Definition sample_events : list event :=
  [FileChange [sample_large_file; sample_file];
   FileChange [sample_file];
   UploadClick;
   ChatTyped (u " Wie? ");
   ChatClick;
   UploadAnswer (u "2024-05-01T10:00:00.000Z") (UploadOk sample_result);
   ChatAnswer 0 (ChatOk (u "So."));
   ResetTimer].

(** Two categories, the second one unknown to the icon table. *)
Definition sample_categories : list (jsstring * list category_doc) :=
  [(u "complaints",
    [{| cd_document_id := u "doc-1"; cd_filename := FText (u "a.pdf");
        cd_urgency := FText (u "high"); cd_customer_id := FNull;
        cd_processed_at := FMissing |};
     {| cd_document_id := u "doc-2"; cd_filename := FMissing;
        cd_urgency := FMissing; cd_customer_id := FText (u "C-7");
        cd_processed_at := FText (u "2024-05-01") |}]);
   (u "other", [])].

(** A short document. *)
Definition sample_document : DetailView.document_body :=
  {| DetailView.body_id := FText (u "doc-1");
     DetailView.body_metadata := None;
     DetailView.body_document := FText (u "Sehr geehrte Damen und Herren") |}.

(** The detail page before its script runs, and what happens on it. *)
Definition sample_detail_window : DetailView.window :=
  {| DetailView.chat :=
       {| Detail.documentId := None;
          Detail.chatHistory := [];
          Detail.chatMessages := [];
          Detail.chatInput_value := [];
          Detail.chat_disabled := false;
          Detail.toasts := [];
          Detail.requests := [] |};
     DetailView.documentInfo := DetailView.InfoUntouched;
     DetailView.document_requests := [];
     DetailView.loads_pending := 0;
     DetailView.listening := false;
     DetailView.redirect_timers := 0;
     DetailView.chats_pending := [] |}.

Definition sample_detail_events : list DetailView.event :=
  [DetailView.Typed (u "Wer?");
   DetailView.KeyPress text_Enter true;
   DetailView.KeyPress text_Enter false;
   DetailView.DocumentAnswer (DetailView.DocumentOk sample_document);
   DetailView.ChatAnswer 0 (ChatOk (u "Die Bank."))].

(** On the detail page: a message answered with the body [null], then a
    second one answered with a text. *)
Definition sample_detail_null_events : list DetailView.event :=
  [DetailView.Typed (u "Wer?");
   DetailView.SendClick;
   DetailView.ChatAnswer 0 sample_null_reply;
   DetailView.Typed (u "Und?");
   DetailView.SendClick;
   DetailView.ChatAnswer 0 (ChatOk (u "Die Bank."))].

(** The main page after events, and the detail page after events, with the
    stand-ins for the platform. *)
Definition sample_run (events : list event) (w : main_page) : main_page :=
  run ascii_toUpperCase same_text never_zero ln Rdiv Rmult no_text no_text no_text
    no_message [] epoch no_date no_date no_inherited events w.

Definition sample_settle (now : jsstring) (reply : upload_reply) (w : main_page) : main_page :=
  handleUpload_settle ascii_toUpperCase same_text never_zero Rmult no_text no_message
    now reply w.

Definition sample_detail_run (events : list DetailView.event) (w : DetailView.window)
  : DetailView.window :=
  DetailView.run ascii_toUpperCase epoch no_date events w.

(* ===================================================================== *)
(** * Theorems *)
(* ===================================================================== *)

(** ** Labels *)

Lemma split_nonempty sep s : exists w ws, split sep s = w :: ws.
Proof.
  induction s as [|c r IH]; simpl; [eauto|].
  destruct (N.eqb c sep); [eauto|].
  destruct IH as (w & ws & ->). eauto.
Qed.

Lemma join_cons_app sep a w ws : join sep ((a ++ w) :: ws) = a ++ join sep (w :: ws).
Proof.
  simpl. destruct ws; [reflexivity|]. now rewrite <- app_assoc.
Qed.

Lemma capitalize_nil up : up [] = [] -> capitalize up [] = [].
Proof. intros H. unfold capitalize, charAt0, slice1. simpl. now rewrite H. Qed.

Lemma capitalize_cons up c w : capitalize up (c :: w) = up [c] ++ w.
Proof. unfold capitalize, charAt0, slice1. simpl. now rewrite take_0, drop_0. Qed.

Lemma join_split_title up (Hup : up [] = []) s :
  forall (start : bool) (w : jsstring) (ws : list jsstring),
    split c_space (replace_char c_underscore c_space s) = w :: ws ->
    join [c_space] ((if start then capitalize up w else w) :: List.map (capitalize up) ws)
    = title_words up start s.
Proof.
  induction s as [|c r IH]; intros start w ws Hs; simpl in Hs.
  - injection Hs as <- <-. simpl. destruct start; [|reflexivity].
    now apply capitalize_nil.
  - destruct (split_nonempty c_space (replace_char c_underscore c_space r))
      as (w' & ws' & Hr).
    rewrite Hr in Hs.
    assert (Hsep : forall st : bool,
      join [c_space] ((if st then capitalize up [] else []) :: List.map (capitalize up) (w' :: ws'))
      = c_space :: title_words up true r).
    { intros st. rewrite <- (IH true w' ws' Hr).
      destruct st; [rewrite (capitalize_nil up Hup)|]; reflexivity. }
    cbn [title_words].
    destruct (N.eqb_spec c c_underscore) as [->|Hu].
    + simpl in Hs. injection Hs as <- <-. apply Hsep.
    + simpl orb. destruct (N.eqb_spec c c_space) as [->|Hsp].
      * simpl in Hs. injection Hs as <- <-. apply Hsep.
      * destruct (N.eqb_spec c c_space) as [|_]; [contradiction|].
        injection Hs as <- <-.
        rewrite <- (IH false w' ws' Hr).
        destruct start.
        -- rewrite capitalize_cons. apply join_cons_app.
        -- apply (join_cons_app [c_space] [c]).
Qed.

Lemma upper_conforms_nil up : upper_conforms up -> up [] = [].
Proof. intros H. rewrite (H []); [reflexivity | constructor]. Qed.

Lemma formatCategory_title up s :
  upper_conforms up -> formatCategory up s = title_words up true s.
Proof.
  intros Hup. unfold formatCategory.
  destruct (split_nonempty c_space (replace_char c_underscore c_space s)) as (w & ws & Hs).
  rewrite Hs. apply (join_split_title up (upper_conforms_nil up Hup) s true w ws Hs).
Qed.

(** ** The chat message format *)

Lemma lazy_until_stars_sound s : forall x rest,
  lazy_until_stars s = Some (x, rest) ->
  s = x ++ stars ++ rest /\ dot_star x
  /\ forall x' r', s = x' ++ stars ++ r' -> (length x <= length x')%nat.
Proof.
  induction s as [|c r IH]; intros x rest H; simpl in H; [discriminate|].
  destruct (N.eqb_spec c c_star) as [Hc|Hc].
  - destruct r as [|d r'].
    + destruct (is_line_terminator c); discriminate.
    + destruct (N.eqb_spec d c_star) as [Hd|Hd].
      * injection H as <- <-. subst. repeat split; [constructor|]. intros; simpl; lia.
      * destruct (is_line_terminator c) eqn:Hlt; [discriminate|].
        destruct (lazy_until_stars (d :: r')) as [[x0 rest0]|] eqn:Hr; [|discriminate].
        injection H as <- <-.
        destruct (IH _ _ eq_refl) as (Hs & Hx & Hmin).
        repeat split.
        -- simpl. now rewrite Hs.
        -- now constructor.
        -- intros x' r'' Hx'. destruct x' as [|c' x''].
           ++ simpl in Hx'. injection Hx' as _ Hd' _. contradiction.
           ++ simpl in Hx'. injection Hx' as _ Hx'. specialize (Hmin _ _ Hx'). simpl. lia.
  - destruct (is_line_terminator c) eqn:Hlt; [discriminate|].
    destruct (lazy_until_stars r) as [[x0 rest0]|] eqn:Hr; [|discriminate].
    injection H as <- <-.
    destruct (IH _ _ eq_refl) as (Hs & Hx & Hmin).
    repeat split.
    + simpl. now rewrite Hs.
    + now constructor.
    + intros x' r'' Hx'. destruct x' as [|c' x''].
      * simpl in Hx'. injection Hx' as Hc' _. contradiction.
      * simpl in Hx'. injection Hx' as _ Hx'. specialize (Hmin _ _ Hx'). simpl. lia.
Qed.

Lemma lazy_until_stars_complete x' : forall s r',
  s = x' ++ stars ++ r' -> dot_star x' ->
  exists x rest, lazy_until_stars s = Some (x, rest).
Proof.
  induction x' as [|c x'' IH]; intros s r' -> Hx.
  - simpl. eauto.
  - inversion Hx as [|? ? Hc Hx'']; subst.
    destruct (IH _ r' eq_refl Hx'') as (x0 & rest0 & H0).
    cbn [app lazy_until_stars]. rewrite H0, Hc.
    destruct (if c =? c_star then _ else _) as [rest1|]; eauto.
Qed.

Lemma match_bold_Some s x rest :
  match_bold s = Some (x, rest) <-> lazy_bold_at s x rest.
Proof.
  split.
  - intros H. unfold match_bold in H.
    destruct s as [|c [|d r]]; try discriminate.
    destruct (N.eqb_spec c c_star) as [->|]; [|discriminate].
    destruct (N.eqb_spec d c_star) as [->|]; [|discriminate].
    simpl in H. destruct (lazy_until_stars_sound _ _ _ H) as (Hs & Hx & Hmin).
    split; [split|].
    + simpl. now rewrite Hs.
    + exact Hx.
    + intros x' rest' [Hs' _]. simpl in Hs'. injection Hs' as Hs'.
      apply (Hmin x' rest'). exact Hs'.
  - intros [[Hs Hx] Hmin]. subst s.
    change (match_bold (stars ++ x ++ stars ++ rest))
      with (lazy_until_stars (x ++ stars ++ rest)).
    destruct (lazy_until_stars_complete x _ rest eq_refl Hx) as (x0 & rest0 & H0).
    rewrite H0. destruct (lazy_until_stars_sound _ _ _ H0) as (Hs0 & Hx0 & Hmin0).
    assert (Hle : (length x <= length x0)%nat).
    { apply (Hmin x0 rest0). split; [|exact Hx0]. now rewrite Hs0. }
    assert (Hge : (length x0 <= length x)%nat) by (apply (Hmin0 x rest); reflexivity).
    assert (Hlen : length x = length x0) by lia.
    destruct (app_inj_1 _ _ _ _ Hlen Hs0) as [-> Hr].
    simpl in Hr. injection Hr as ->. reflexivity.
Qed.

Lemma match_bold_None s :
  match_bold s = None <-> forall x r, ~ bold_at s x r.
Proof.
  split.
  - intros H x r Hb.
    destruct Hb as [Hs Hx]. subst s.
    change (match_bold (stars ++ x ++ stars ++ r))
      with (lazy_until_stars (x ++ stars ++ r)) in H.
    destruct (lazy_until_stars_complete x _ r eq_refl Hx) as (x0 & rest0 & H0).
    rewrite H0 in H. discriminate.
  - intros H. destruct (match_bold s) as [[x rest]|] eqn:Hm; [|reflexivity].
    apply match_bold_Some in Hm. destruct Hm as [Hb _]. exfalso. eapply H, Hb.
Qed.

Lemma match_bold_length s x rest :
  match_bold s = Some (x, rest) -> length s = (4 + length x + length rest)%nat.
Proof.
  intros H. apply match_bold_Some in H. destruct H as [[-> _] _].
  simpl. rewrite length_app. simpl. lia.
Qed.

Lemma replace_bold_from_fuel f1 : forall f2 s,
  (length s < f1)%nat -> (length s < f2)%nat ->
  replace_bold_from f1 s = replace_bold_from f2 s.
Proof.
  induction f1 as [|f1 IH]; intros f2 s H1 H2; [lia|].
  destruct f2 as [|f2]; [lia|]. cbn [replace_bold_from].
  destruct (match_bold s) as [[x rest]|] eqn:Hm.
  - apply match_bold_length in Hm. rewrite (IH f2 rest) by lia. reflexivity.
  - destruct s as [|c r]; [reflexivity|]. simpl in H1, H2.
    rewrite (IH f2 r) by lia. reflexivity.
Qed.

Lemma replace_bold_eq s :
  replace_bold s =
  match match_bold s with
  | Some (x, rest) => strong_open ++ x ++ strong_close ++ replace_bold rest
  | None => match s with [] => [] | c :: r => c :: replace_bold r end
  end.
Proof.
  unfold replace_bold at 1. cbn [replace_bold_from].
  destruct (match_bold s) as [[x rest]|] eqn:Hm.
  - apply match_bold_length in Hm. unfold replace_bold.
    rewrite (replace_bold_from_fuel (length s) (S (length rest)) rest) by lia.
    reflexivity.
  - destruct s as [|c r]; [reflexivity|]. unfold replace_bold. reflexivity.
Qed.

Lemma replace_newlines_app a b :
  replace_newlines (a ++ b) = replace_newlines a ++ replace_newlines b.
Proof. apply flat_map_app. Qed.

Lemma replace_newlines_dot_star x : dot_star x -> replace_newlines x = x.
Proof.
  induction 1 as [|c x Hc Hx IH]; [reflexivity|].
  unfold replace_newlines in *. simpl. rewrite IH.
  unfold is_line_terminator in Hc.
  destruct (N.eqb_spec c c_newline) as [->|]; [discriminate|reflexivity].
Qed.

Lemma formatMessageContent_bold s x rest :
  match_bold s = Some (x, rest) ->
  formatMessageContent s
  = strong_open ++ x ++ strong_close ++ formatMessageContent rest.
Proof.
  intros Hm. unfold formatMessageContent. rewrite replace_bold_eq, Hm.
  rewrite !replace_newlines_app.
  apply match_bold_Some in Hm. destruct Hm as [[_ Hx] _].
  now rewrite (replace_newlines_dot_star x Hx).
Qed.

Lemma formatMessageContent_unit c r :
  match_bold (c :: r) = None ->
  formatMessageContent (c :: r)
  = (if c =? c_newline then br_tag else [c]) ++ formatMessageContent r.
Proof.
  intros Hm. unfold formatMessageContent. rewrite replace_bold_eq, Hm. reflexivity.
Qed.

Lemma match_bold_not_star c r : c <> c_star -> match_bold (c :: r) = None.
Proof.
  intros Hc. simpl. destruct r; [reflexivity|].
  destruct (N.eqb_spec c c_star); [contradiction|reflexivity].
Qed.

Lemma Formatted_sound s out : Formatted s out -> out = formatMessageContent s.
Proof.
  induction 1 as [|s x rest out Hb _ IH|rest out _ IH|c rest out Hc Hb _ IH].
  - reflexivity.
  - apply match_bold_Some in Hb. rewrite (formatMessageContent_bold _ _ _ Hb).
    now rewrite IH.
  - rewrite formatMessageContent_unit by (now apply match_bold_not_star).
    now rewrite IH.
  - apply match_bold_None in Hb. rewrite (formatMessageContent_unit _ _ Hb).
    destruct (N.eqb_spec c c_newline); [contradiction|]. now rewrite IH.
Qed.

Lemma Formatted_complete_bounded n : forall s,
  (length s <= n)%nat -> Formatted s (formatMessageContent s).
Proof.
  induction n as [|n IH]; intros s Hn.
  - destruct s; [constructor|simpl in Hn; lia].
  - destruct (match_bold s) as [[x rest]|] eqn:Hm.
    + rewrite (formatMessageContent_bold _ _ _ Hm).
      pose proof (match_bold_length _ _ _ Hm).
      apply (Formatted_bold s x rest); [now apply match_bold_Some|].
      apply IH. lia.
    + destruct s as [|c r]; [constructor|].
      rewrite (formatMessageContent_unit _ _ Hm).
      simpl in Hn.
      destruct (N.eqb_spec c c_newline) as [->|Hc].
      * apply Formatted_newline. apply IH. lia.
      * apply Formatted_other; [exact Hc|now apply match_bold_None|apply IH; lia].
Qed.

Lemma formatMessageContent_plain s :
  Forall (fun c => c <> c_star /\ c <> c_newline) s -> formatMessageContent s = s.
Proof.
  induction 1 as [|c r [Hs Hn] _ IH]; [reflexivity|].
  rewrite formatMessageContent_unit by (now apply match_bold_not_star).
  destruct (N.eqb_spec c c_newline); [contradiction|]. now rewrite IH.
Qed.

(** C9.  [formatMessageContent s] is the one string that is [s] with each
    non-greedy occurrence of [**x**] ([x] without line terminator, as [.]
    matches) replaced by [<strong>x</strong>], each newline replaced by
    [<br>] and every other code unit copied; in particular a string without
    star and newline, whatever markup it holds, is returned as it is. *)
Theorem formatMessageContent_spec :
  (forall s out, Formatted s out <-> out = formatMessageContent s)
  /\ (forall s, Forall (fun c => c <> c_star /\ c <> c_newline) s ->
                formatMessageContent s = s)
  /\ formatMessageContent (u "<b>&amp; **x** <script>") 
     = u "<b>&amp; <strong>x</strong> <script>".
Proof.
  split; [|split].
  - intros s out. split.
    + apply Formatted_sound.
    + intros ->. apply (Formatted_complete_bounded (length s)). lia.
  - apply formatMessageContent_plain.
  - reflexivity.
Qed.

(** ** [JSON.parse] after [JSON.stringify] *)

Lemma hex_value_digit n : n < 16 -> hex_value (hex_digit n) = Some n.
Proof.
  intros Hn. unfold hex_value, hex_digit.
  destruct (N.ltb_spec n 10).
  - destruct (N.leb_spec 48 (48 + n)); [|lia].
    destruct (N.leb_spec (48 + n) 57); [|lia]. simpl. f_equal. lia.
  - destruct (N.leb_spec 48 (87 + n)); [|lia].
    destruct (N.leb_spec (87 + n) 57); [lia|]. simpl.
    destruct (N.leb_spec 97 (87 + n)); [|lia].
    destruct (N.leb_spec (87 + n) 102); [|lia]. simpl. f_equal. lia.
Qed.

Lemma hex4_value c : c < 65536 ->
  (c / 4096 mod 16) * 4096 + (c / 256 mod 16) * 256 + (c / 16 mod 16) * 16 + c mod 16 = c.
Proof.
  intros Hc. zify. Z.to_euclidean_division_equations. lia.
Qed.

Lemma parse_chars_unicode_escape c t :
  c < 65536 ->
  parse_chars (unicode_escape c ++ t)
  = match parse_chars t with
    | Some (x, rest) => Some (c :: x, rest)
    | None => None
    end.
Proof.
  intros Hc. unfold unicode_escape, hex4. cbn [app parse_chars].
  change (92 =? 34) with false. change (92 =? 92) with true.
  change (117 =? 117) with true. cbv iota.
  rewrite !hex_value_digit by (apply N.mod_lt; lia).
  rewrite hex4_value by exact Hc. reflexivity.
Qed.

Lemma parse_chars_quote_unit c t :
  parse_chars (quote_unit c ++ t)
  = match parse_chars t with
    | Some (x, rest) => Some (c :: x, rest)
    | None => None
    end.
Proof.
  unfold quote_unit.
  destruct (N.eqb_spec c 8) as [->|H8]; [reflexivity|].
  destruct (N.eqb_spec c 9) as [->|H9]; [reflexivity|].
  destruct (N.eqb_spec c 10) as [->|H10]; [reflexivity|].
  destruct (N.eqb_spec c 12) as [->|H12]; [reflexivity|].
  destruct (N.eqb_spec c 13) as [->|H13]; [reflexivity|].
  destruct (N.eqb_spec c 34) as [->|H34]; [reflexivity|].
  destruct (N.eqb_spec c 92) as [->|H92]; [reflexivity|].
  destruct ((c <? 32) || is_high_surrogate c || is_low_surrogate c) eqn:He.
  - apply parse_chars_unicode_escape.
    unfold is_high_surrogate, is_low_surrogate in He.
    destruct (N.ltb_spec c 32); [lia|].
    destruct (N.leb_spec c 56319); [lia|].
    destruct (N.leb_spec c 57343); [lia|].
    rewrite !andb_false_r in He. discriminate.
  - apply orb_false_iff in He. destruct He as [He _].
    apply orb_false_iff in He. destruct He as [He _].
    cbn [app parse_chars].
    destruct (N.eqb_spec c 34); [contradiction|].
    destruct (N.eqb_spec c 92); [contradiction|].
    rewrite He. reflexivity.
Qed.

Lemma parse_chars_surrogate c t :
  is_high_surrogate c || is_low_surrogate c = true ->
  parse_chars (c :: t)
  = match parse_chars t with
    | Some (x, rest) => Some (c :: x, rest)
    | None => None
    end.
Proof.
  intros H. unfold is_high_surrogate, is_low_surrogate in H.
  assert (Hc : 55296 <= c).
  { destruct (N.leb_spec 55296 c); [assumption|].
    destruct (N.leb_spec 56320 c); [lia|]. discriminate. }
  cbn [parse_chars].
  destruct (N.eqb_spec c 34); [lia|].
  destruct (N.eqb_spec c 92); [lia|].
  destruct (N.ltb_spec c 32); [lia|]. reflexivity.
Qed.

Lemma quote_units_cons c r :
  quote_units (c :: r)
  = match r with
    | d :: r' =>
        if is_high_surrogate c && is_low_surrogate d
        then c :: d :: quote_units r'
        else quote_unit c ++ quote_units r
    | [] => quote_unit c ++ quote_units r
    end.
Proof. destruct r; simpl; [now rewrite app_nil_r|reflexivity]. Qed.

Lemma parse_chars_quote_units_bounded n : forall s rest,
  (length s <= n)%nat ->
  parse_chars (quote_units s ++ 34 :: rest) = Some (s, rest).
Proof.
  induction n as [|n IH]; intros s rest Hn.
  - destruct s; [reflexivity|simpl in Hn; lia].
  - destruct s as [|c r]; [reflexivity|]. simpl in Hn.
    rewrite quote_units_cons.
    destruct r as [|d r'].
    + rewrite <- app_assoc, parse_chars_quote_unit. reflexivity.
    + destruct (is_high_surrogate c && is_low_surrogate d) eqn:Hp.
      * apply andb_true_iff in Hp. destruct Hp as [Hh Hl].
        cbn [app].
        rewrite parse_chars_surrogate by (rewrite Hh; reflexivity).
        rewrite parse_chars_surrogate by (rewrite Hl; apply orb_true_r).
        simpl in Hn. rewrite IH by lia. reflexivity.
      * rewrite <- app_assoc, parse_chars_quote_unit.
        rewrite IH by lia. reflexivity.
Qed.

Lemma parse_chars_quote_units s rest :
  parse_chars (quote_units s ++ 34 :: rest) = Some (s, rest).
Proof. apply (parse_chars_quote_units_bounded (length s)). lia. Qed.

Lemma json_ind_nested (P : json -> Prop) :
  P JNull -> (forall b, P (JBool b)) -> (forall l, P (JNum l)) ->
  (forall s, P (JStr s)) ->
  (forall items, Forall P items -> P (JArr items)) ->
  (forall members, Forall (fun kv => P (snd kv)) members -> P (JObj members)) ->
  forall v, P v.
Proof.
  intros Hnull Hbool Hnum Hstr Harr Hobj.
  fix IH 1. intros [|b|l|s|items|members].
  - exact Hnull.
  - apply Hbool.
  - apply Hnum.
  - apply Hstr.
  - apply Harr.
    exact ((fix all (l : list json) : Forall P l :=
              match l with
              | [] => @List.Forall_nil _ P
              | x :: l' => @List.Forall_cons _ P x l' (IH x) (all l')
              end) items).
  - apply Hobj.
    exact ((fix all (l : list (jsstring * json)) : Forall (fun kv => P (snd kv)) l :=
              match l with
              | [] => @List.Forall_nil _ _
              | kv :: l' => @List.Forall_cons _ _ kv l' (IH (snd kv)) (all l')
              end) members).
Qed.

Lemma parse_value_S f s :
  parse_value (S f) s =
  match skip_ws s with
  | [] => PFail
  | c :: r =>
      if c =? 34 then
        match parse_chars r with
        | Some (x, rest) => POk (JStr x) rest
        | None => PFail
        end
      else if c =? 91 then
        match skip_ws r with
        | d :: r' =>
            if d =? 93 then POk (JArr []) r'
            else presult_map JArr (parse_elements f r)
        | [] => PFail
        end
      else if c =? 123 then
        match skip_ws r with
        | d :: r' =>
            if d =? 125 then POk (JObj []) r'
            else presult_map (fun kvs => JObj (obj_of_members kvs)) (parse_members f r)
        | [] => PFail
        end
      else if c =? 116 then
        match strip_prefix [114; 117; 101] r with
        | Some rest => POk (JBool true) rest
        | None => PFail
        end
      else if c =? 102 then
        match strip_prefix [97; 108; 115; 101] r with
        | Some rest => POk (JBool false) rest
        | None => PFail
        end
      else if c =? 110 then
        match strip_prefix [117; 108; 108] r with
        | Some rest => POk JNull rest
        | None => PFail
        end
      else
        match parse_number (c :: r) with
        | Some (lit, rest) => POk (JNum lit) rest
        | None => PFail
        end
  end.
Proof. reflexivity. Qed.

Lemma parse_elements_S f s :
  parse_elements (S f) s =
  match parse_value f s with
  | POk v r =>
      match skip_ws r with
      | d :: r' =>
          if d =? 44 then presult_map (cons v) (parse_elements f r')
          else if d =? 93 then POk [v] r'
          else PFail
      | [] => PFail
      end
  | PFail => PFail
  | PFuel => PFuel
  end.
Proof. reflexivity. Qed.

Lemma parse_members_S f s :
  parse_members (S f) s =
  match skip_ws s with
  | c :: r =>
      if c =? 34 then
        match parse_chars r with
        | Some (k, r1) =>
            match skip_ws r1 with
            | d :: r2 =>
                if d =? 58 then
                  match parse_value f r2 with
                  | POk v r3 =>
                      match skip_ws r3 with
                      | e :: r4 =>
                          if e =? 44 then presult_map (cons (k, v)) (parse_members f r4)
                          else if e =? 125 then POk [(k, v)] r4
                          else PFail
                      | [] => PFail
                      end
                  | PFail => PFail
                  | PFuel => PFuel
                  end
                else PFail
            | [] => PFail
            end
        | None => PFail
        end
      else PFail
  | [] => PFail
  end.
Proof. reflexivity. Qed.

Lemma skip_ws_cons c t : is_ws c = false -> skip_ws (c :: t) = c :: t.
Proof. intros H. simpl. now rewrite H. Qed.

Section Roundtrip.
Variable number_text : jsstring -> jsstring.
Abbreviation str := (JSON_stringify number_text).
Abbreviation reads_back := (reads_back number_text).
Abbreviation member_text := (member_text number_text).

Lemma stringify_head v : plain v -> exists c t, str v = c :: t /\ opens_value c.
Proof.
  unfold opens_value.
  destruct 1 as [|[]| | |]; simpl; eexists _, _; (split; [reflexivity|]); tauto.
Qed.

Lemma skip_ws_opens c t : opens_value c -> skip_ws (c :: t) = c :: t.
Proof. unfold opens_value. intros H. decompose [or] H; subst; reflexivity. Qed.

Lemma sum_sizes_cons x items :
  list_sum (List.map (fun y => S (json_size y)) (x :: items))
  = (S (json_size x) + list_sum (List.map (fun y => S (json_size y)) items))%nat.
Proof. reflexivity. Qed.

Lemma parse_elements_join items :
  Forall plain items -> Forall reads_back items ->
  forall x f rest,
    plain x -> reads_back x ->
    (list_sum (List.map (fun y => S (json_size y)) (x :: items)) <= f)%nat ->
    parse_elements f (join [44] (List.map str (x :: items)) ++ 93 :: rest)
    = POk (x :: items) rest.
Proof.
  induction items as [|y items IH]; intros Hp Hr x f rest Hpx Hrx Hf;
    rewrite sum_sizes_cons in Hf; (destruct f as [|f]; [lia|]);
    rewrite parse_elements_S.
  - simpl. rewrite Hrx by lia. reflexivity.
  - inversion Hp as [|? ? Hpy Hp']; subst. inversion Hr as [|? ? Hry Hr']; subst.
    change (join [44] (List.map str (x :: y :: items)))
      with (str x ++ [44] ++ join [44] (List.map str (y :: items))).
    rewrite <- !app_assoc. rewrite Hrx by lia.
    cbn [app]. rewrite (skip_ws_cons 44) by reflexivity.
    change (44 =? 44) with true. cbv iota.
    rewrite (IH Hp' Hr' y f rest Hpy Hry) by lia.
    reflexivity.
Qed.

Lemma sum_member_sizes_cons (kv : jsstring * json) members :
  list_sum (List.map (fun kv => S (json_size (snd kv))) (kv :: members))
  = (S (json_size (snd kv))
     + list_sum (List.map (fun kv => S (json_size (snd kv))) members))%nat.
Proof. reflexivity. Qed.

Lemma member_text_app k v t :
  member_text (k, v) ++ t = 34 :: quote_units k ++ 34 :: 58 :: str v ++ t.
Proof.
  unfold member_text, JSON_quote. cbn [fst snd app].
  rewrite <- !app_assoc. reflexivity.
Qed.

Lemma parse_members_join members :
  Forall (fun kv => plain (snd kv)) members ->
  Forall (fun kv => reads_back (snd kv)) members ->
  forall kv f rest,
    plain (snd kv) -> reads_back (snd kv) ->
    (list_sum (List.map (fun kv => S (json_size (snd kv))) (kv :: members)) <= f)%nat ->
    parse_members f (join [44] (List.map member_text (kv :: members)) ++ 125 :: rest)
    = POk (kv :: members) rest.
Proof.
  induction members as [|kv' members IH]; intros Hp Hr [k v] f rest Hpx Hrx Hf;
    rewrite sum_member_sizes_cons in Hf; (destruct f as [|f]; [lia|]);
    rewrite parse_members_S; cbn [fst snd] in *.
  - cbn [List.map join]. rewrite member_text_app.
    rewrite (skip_ws_cons 34) by reflexivity.
    change (34 =? 34) with true. cbv iota.
    rewrite parse_chars_quote_units.
    rewrite (skip_ws_cons 58) by reflexivity.
    change (58 =? 58) with true. cbv iota.
    rewrite Hrx by lia. reflexivity.
  - inversion Hp as [|? ? Hpy Hp']; subst. inversion Hr as [|? ? Hry Hr']; subst.
    change (join [44] (List.map member_text ((k, v) :: kv' :: members)))
      with (member_text (k, v) ++ [44] ++ join [44] (List.map member_text (kv' :: members))).
    rewrite <- !app_assoc. rewrite member_text_app.
    rewrite (skip_ws_cons 34) by reflexivity.
    change (34 =? 34) with true. cbv iota.
    rewrite parse_chars_quote_units.
    rewrite (skip_ws_cons 58) by reflexivity.
    change (58 =? 58) with true. cbv iota.
    rewrite Hrx by lia.
    cbn [app]. rewrite (skip_ws_cons 44) by reflexivity.
    change (44 =? 44) with true. cbv iota.
    rewrite (IH Hp' Hr' kv' f rest Hpy Hry) by lia.
    reflexivity.
Qed.

Lemma reads_back_plain v : plain v -> reads_back v.
Proof.
  induction v as [|b|l|s|items IH|members IH] using json_ind_nested;
    intros Hp f rest Hf; (destruct f as [|f]; [simpl in Hf; lia|]);
    rewrite parse_value_S.
  - reflexivity.
  - destruct b; reflexivity.
  - inversion Hp.
  - cbn [JSON_stringify]. unfold JSON_quote. cbn [app].
    rewrite (skip_ws_cons 34) by reflexivity.
    change (34 =? 34) with true. cbv iota.
    rewrite <- app_assoc. cbn [app].
    now rewrite parse_chars_quote_units.
  - inversion Hp as [| | |? Hitems|]; subst.
    cbn [JSON_stringify app]. rewrite (skip_ws_cons 91) by reflexivity.
    change (91 =? 34) with false. change (91 =? 91) with true. cbv iota.
    destruct items as [|x items]; [reflexivity|].
    inversion Hitems as [|? ? Hpx Hp']; subst. inversion IH as [|? ? Hrx Hr']; subst.
    rewrite <- app_assoc. cbn [app].
    assert (Hall : Forall reads_back items).
    { clear -Hp' Hr'. induction Hr' as [|y items Hy _ IHr]; [constructor|].
      inversion Hp'; subst. constructor; auto. }
    destruct (stringify_head x Hpx) as (c & t & Hx & Hc).
    assert (Hskip : skip_ws (join [44] (List.map str (x :: items)) ++ 93 :: rest)
                    = c :: (t ++ (match items with
                                  | [] => []
                                  | _ :: _ => [44] ++ join [44] (List.map str items)
                                  end ++ 93 :: rest))).
    { cbn [List.map join]. rewrite Hx.
      destruct items; cbn [List.map]; rewrite <- ?app_assoc; cbn [app];
        now rewrite (skip_ws_opens c). }
    rewrite Hskip.
    assert (Hc93 : (c =? 93) = false).
    { unfold opens_value in Hc. decompose [or] Hc; subst; reflexivity. }
    rewrite Hc93.
    cbn [json_size] in Hf.
    rewrite (parse_elements_join items Hp' Hall x f rest Hpx (Hrx Hpx)) by lia.
    reflexivity.
  - inversion Hp as [| | | |? Hcanon Hmembers]; subst.
    cbn [JSON_stringify app]. rewrite (skip_ws_cons 123) by reflexivity.
    change (123 =? 34) with false. change (123 =? 91) with false.
    change (123 =? 123) with true. cbv iota.
    destruct members as [|kv members]; [reflexivity|].
    inversion Hmembers as [|? ? Hpx Hp']; subst. inversion IH as [|? ? Hrx Hr']; subst.
    rewrite <- app_assoc. cbn [app].
    assert (Hall : Forall (fun kv => reads_back (snd kv)) members).
    { clear -Hp' Hr'. induction Hr' as [|y items Hy _ IHr]; [constructor|].
      inversion Hp'; subst. constructor; auto. }
    change (List.map (fun kv0 => JSON_quote (fst kv0) ++ 58 :: str (snd kv0)) (kv :: members))
      with (List.map member_text (kv :: members)).
    assert (Hskip : exists t,
               skip_ws (join [44] (List.map member_text (kv :: members)) ++ 125 :: rest)
               = 34 :: t).
    { destruct kv as [k v].
      destruct members; cbn [List.map join]; rewrite <- ?app_assoc;
        rewrite member_text_app; rewrite (skip_ws_cons 34) by reflexivity; eauto. }
    destruct Hskip as [t Hskip]. rewrite Hskip.
    change (34 =? 125) with false. cbv iota.
    cbn [json_size] in Hf.
    rewrite (parse_members_join members Hp' Hall kv f rest Hpx (Hrx Hpx)) by lia.
    cbn [presult_map]. now rewrite Hcanon.
Qed.

Lemma json_size_elements items :
  Forall (fun x => (json_size x <= length (str x))%nat) items ->
  (list_sum (List.map (fun x => S (json_size x)) items)
   <= length (join [44%N] (List.map str items)) + 1)%nat.
Proof.
  induction 1 as [|x items Hx _ IH]; [simpl; lia|].
  rewrite sum_sizes_cons. cbn [List.map join].
  destruct items as [|y items]; [simpl; lia|].
  cbn [List.map] in *. rewrite !length_app. simpl length at 2. lia.
Qed.

Lemma json_size_members members :
  Forall (fun kv => (json_size (snd kv) <= length (str (snd kv)))%nat) members ->
  (list_sum (List.map (fun kv => S (json_size (snd kv))) members)
   <= length (join [44%N] (List.map member_text members)) + 1)%nat.
Proof.
  induction 1 as [|[k v] members Hx _ IH]; [simpl; lia|].
  rewrite sum_member_sizes_cons. cbn [List.map join fst snd] in *.
  assert (Hm : (json_size v <= length (member_text (k, v)))%nat).
  { unfold member_text. cbn [fst snd]. rewrite length_app. cbn [length].
    etransitivity; [exact Hx|]. lia. }
  destruct members as [|kv' members];
    cbn [List.map join list_sum fold_right] in *; [lia|].
  rewrite !length_app. cbn [length]. lia.
Qed.

Lemma json_size_le v : plain v -> (json_size v <= length (str v))%nat.
Proof.
  induction v as [|b|l|s|items IH|members IH] using json_ind_nested; intros Hp.
  - simpl. lia.
  - destruct b; simpl; lia.
  - inversion Hp.
  - simpl. lia.
  - inversion Hp as [| | |? Hitems|]; subst.
    cbn [json_size JSON_stringify]. cbn [length]. rewrite length_app. cbn [length].
    assert (Hall : Forall (fun x => (json_size x <= length (str x))%nat) items).
    { clear -Hitems IH. induction IH as [|y items Hy _ IHr]; [constructor|].
      inversion Hitems; subst. constructor; auto. }
    pose proof (json_size_elements items Hall). lia.
  - inversion Hp as [| | | |? Hcanon Hmembers]; subst.
    cbn [json_size JSON_stringify]. cbn [length]. rewrite length_app. cbn [length].
    assert (Hall : Forall (fun kv => (json_size (snd kv) <= length (str (snd kv)))%nat) members).
    { clear -Hmembers IH. induction IH as [|y items Hy _ IHr]; [constructor|].
      inversion Hmembers; subst. constructor; auto. }
    pose proof (json_size_members members Hall) as Hs.
    apply le_n_S. exact Hs.
Qed.

(** A plain value is read back from its text. *)
Lemma JSON_parse_stringify v :
  plain v -> JSON_parse (str v) = Some v.
Proof.
  intros Hp. unfold JSON_parse.
  pose proof (json_size_le v Hp) as Hs.
  pose proof (reads_back_plain v Hp (S (2 * length (str v))) []) as Hr.
  rewrite app_nil_r in Hr. rewrite Hr by lia. reflexivity.
Qed.
End Roundtrip.

(** ** The step count of [JSON_parse] is enough *)

Lemma skip_ws_length s : (length (skip_ws s) <= length s)%nat.
Proof.
  induction s as [|c r IH]; [reflexivity|]. simpl.
  destruct (is_ws c); simpl; lia.
Qed.

Lemma parse_chars_length_bounded n : forall s x rest,
  (length s <= n)%nat -> parse_chars s = Some (x, rest) ->
  (length rest < length s)%nat.
Proof.
  induction n as [|n IH]; intros s x rest Hn H.
  - destruct s; [discriminate|simpl in Hn; lia].
  - destruct s as [|c r]; [discriminate|]. simpl in Hn. cbn [parse_chars] in H.
    destruct (c =? 34); [injection H as _ <-; simpl; lia|].
    destruct (c =? 92).
    + destruct r as [|e r1]; [discriminate|]. simpl in Hn.
      destruct (e =? 117).
      * destruct r1 as [|h1 [|h2 [|h3 [|h4 r2]]]]; try discriminate.
        destruct (hex_value h1), (hex_value h2), (hex_value h3), (hex_value h4);
          try discriminate.
        destruct (parse_chars r2) as [[x2 rest2]|] eqn:H2; [|discriminate].
        injection H as _ <-. simpl in Hn.
        pose proof (IH r2 x2 rest2 ltac:(lia) H2). simpl. lia.
      * destruct (unescape e); [|discriminate].
        destruct (parse_chars r1) as [[x1 rest1]|] eqn:H1; [|discriminate].
        injection H as _ <-.
        pose proof (IH r1 x1 rest1 ltac:(lia) H1). simpl. lia.
    + destruct (c <? 32); [discriminate|].
      destruct (parse_chars r) as [[x1 rest1]|] eqn:H1; [|discriminate].
      injection H as _ <-.
      pose proof (IH r x1 rest1 ltac:(lia) H1). simpl. lia.
Qed.

Lemma parse_chars_length s x rest :
  parse_chars s = Some (x, rest) -> (length rest < length s)%nat.
Proof. apply (parse_chars_length_bounded (length s)). lia. Qed.

Lemma span_digits_length s : (length (snd (span_digits s)) <= length s)%nat.
Proof.
  induction s as [|c r IH]; [reflexivity|]. simpl.
  destruct (is_digit c); simpl; lia.
Qed.

Lemma parse_number_length s lit rest :
  parse_number s = Some (lit, rest) -> (length rest < length s)%nat.
Proof.
  unfold parse_number. intros H.
  set (sr := match s with
             | [] => ([], s)
             | c :: r => if c =? 45 then ([45], r) else ([], s)
             end) in *.
  assert (Hsr : (length (snd sr) <= length s)%nat).
  { subst sr. destruct s as [|c r]; [reflexivity|].
    destruct (c =? 45); simpl; lia. }
  destruct (parse_int_part (snd sr)) as [[i r1]|] eqn:Hi; [|discriminate].
  assert (H1 : (length r1 < length (snd sr))%nat).
  { unfold parse_int_part in Hi. destruct (snd sr) as [|c r]; [discriminate|].
    destruct (c =? 48); [injection Hi as _ <-; simpl; lia|].
    destruct (is_digit c); [|discriminate]. injection Hi as _ <-.
    pose proof (span_digits_length r). simpl. lia. }
  destruct (parse_frac r1) as [[fr r2]|] eqn:Hf; [|discriminate].
  assert (H2 : (length r2 <= length r1)%nat).
  { unfold parse_frac in Hf. destruct r1 as [|c r]; [injection Hf as _ <-; lia|].
    destruct (c =? 46).
    - destruct (fst (span_digits r)); [discriminate|]. injection Hf as _ <-.
      pose proof (span_digits_length r). simpl. lia.
    - injection Hf as _ <-. lia. }
  destruct (parse_exp r2) as [[e r3]|] eqn:He; [|discriminate].
  assert (H3 : (length r3 <= length r2)%nat).
  { unfold parse_exp in He. destruct r2 as [|c r]; [injection He as _ <-; lia|].
    destruct ((c =? 101) || (c =? 69)).
    - set (sr2 := match r with
                  | [] => ([], r)
                  | d :: r' => if (d =? 43) || (d =? 45) then ([d], r') else ([], r)
                  end) in *.
      assert (Hsr2 : (length (snd sr2) <= length r)%nat).
      { subst sr2. destruct r as [|d r']; [reflexivity|].
        destruct ((d =? 43) || (d =? 45)); simpl; lia. }
      destruct (fst (span_digits (snd sr2))); [discriminate|]. injection He as _ <-.
      pose proof (span_digits_length (snd sr2)). simpl. lia.
    - injection He as _ <-. lia. }
  injection H as _ <-. lia.
Qed.

Lemma strip_prefix_length p : forall s rest,
  strip_prefix p s = Some rest -> (length rest <= length s)%nat.
Proof.
  induction p as [|a p IH]; intros s rest H; simpl in H.
  - injection H as <-. lia.
  - destruct s as [|b s']; [discriminate|].
    destruct (a =? b); [|discriminate]. apply IH in H. simpl. lia.
Qed.

Lemma skip_ws_cons_length s c r :
  skip_ws s = c :: r -> (S (length r) <= length s)%nat.
Proof. intros H. pose proof (skip_ws_length s) as Hl. rewrite H in Hl. exact Hl. Qed.

Lemma presult_map_POk {A B} (f : A -> B) r b rest :
  presult_map f r = POk b rest -> exists a, r = POk a rest /\ b = f a.
Proof. destruct r; simpl; intros H; [injection H as <- <-; eauto|discriminate..]. Qed.

Lemma presult_map_PFuel {A B} (f : A -> B) r :
  presult_map f r = PFuel -> r = PFuel.
Proof. destruct r; simpl; intros H; [discriminate..|reflexivity]. Qed.

(** A successful parser has consumed input. *)
Lemma parse_consumes f :
  (forall s v rest, parse_value f s = POk v rest -> (length rest < length s)%nat)
  /\ (forall s vs rest, parse_elements f s = POk vs rest -> (length rest < length s)%nat)
  /\ (forall s kvs rest, parse_members f s = POk kvs rest -> (length rest < length s)%nat).
Proof.
  induction f as [|f (IHv & IHe & IHm)]; [repeat split; discriminate|].
  repeat split.
  - intros s v rest H. rewrite parse_value_S in H.
    destruct (skip_ws s) as [|c r] eqn:Hs; [discriminate|].
    apply skip_ws_cons_length in Hs.
    destruct (c =? 34).
    { destruct (parse_chars r) as [[x rest']|] eqn:Hc; [|discriminate].
      injection H as _ <-. apply parse_chars_length in Hc. lia. }
    destruct (c =? 91).
    { destruct (skip_ws r) as [|d r'] eqn:Hr; [discriminate|].
      apply skip_ws_cons_length in Hr.
      destruct (d =? 93); [injection H as _ <-; lia|].
      apply presult_map_POk in H. destruct H as (a & H & _).
      apply IHe in H. lia. }
    destruct (c =? 123).
    { destruct (skip_ws r) as [|d r'] eqn:Hr; [discriminate|].
      apply skip_ws_cons_length in Hr.
      destruct (d =? 125); [injection H as _ <-; lia|].
      apply presult_map_POk in H. destruct H as (a & H & _).
      apply IHm in H. lia. }
    destruct (c =? 116).
    { destruct (strip_prefix _ r) as [rest'|] eqn:Hp; [|discriminate].
      injection H as _ <-. apply strip_prefix_length in Hp. lia. }
    destruct (c =? 102).
    { destruct (strip_prefix _ r) as [rest'|] eqn:Hp; [|discriminate].
      injection H as _ <-. apply strip_prefix_length in Hp. lia. }
    destruct (c =? 110).
    { destruct (strip_prefix _ r) as [rest'|] eqn:Hp; [|discriminate].
      injection H as _ <-. apply strip_prefix_length in Hp. lia. }
    destruct (parse_number (c :: r)) as [[lit rest']|] eqn:Hn; [|discriminate].
    injection H as _ <-. apply parse_number_length in Hn. simpl in Hn. lia.
  - intros s vs rest H. rewrite parse_elements_S in H.
    destruct (parse_value f s) as [v r| |] eqn:Hv; try discriminate.
    apply IHv in Hv.
    destruct (skip_ws r) as [|d r'] eqn:Hr; [discriminate|].
    apply skip_ws_cons_length in Hr.
    destruct (d =? 44).
    { apply presult_map_POk in H. destruct H as (a & H & _). apply IHe in H. lia. }
    destruct (d =? 93); [|discriminate]. injection H as _ <-. lia.
  - intros s kvs rest H. rewrite parse_members_S in H.
    destruct (skip_ws s) as [|c r] eqn:Hs; [discriminate|].
    apply skip_ws_cons_length in Hs.
    destruct (c =? 34); [|discriminate].
    destruct (parse_chars r) as [[k r1]|] eqn:Hc; [|discriminate].
    apply parse_chars_length in Hc.
    destruct (skip_ws r1) as [|d r2] eqn:Hr1; [discriminate|].
    apply skip_ws_cons_length in Hr1.
    destruct (d =? 58); [|discriminate].
    destruct (parse_value f r2) as [v r3| |] eqn:Hv; try discriminate.
    apply IHv in Hv.
    destruct (skip_ws r3) as [|e r4] eqn:Hr3; [discriminate|].
    apply skip_ws_cons_length in Hr3.
    destruct (e =? 44).
    { apply presult_map_POk in H. destruct H as (a & H & _). apply IHm in H. lia. }
    destruct (e =? 125); [|discriminate]. injection H as _ <-. lia.
Qed.

(** With twice the length of the input, the parsers never run out of
    steps. *)
Lemma parse_enough_steps f :
  (forall s, (2 * length s + 1 <= f)%nat -> parse_value f s <> PFuel)
  /\ (forall s, (2 * length s + 2 <= f)%nat -> parse_elements f s <> PFuel)
  /\ (forall s, (2 * length s + 2 <= f)%nat -> parse_members f s <> PFuel).
Proof.
  induction f as [|f (IHv & IHe & IHm)]; [repeat split; intros; lia|].
  repeat split.
  - intros s Hf H. rewrite parse_value_S in H.
    destruct (skip_ws s) as [|c r] eqn:Hs; [discriminate|].
    apply skip_ws_cons_length in Hs.
    destruct (c =? 34); [destruct (parse_chars r) as [[? ?]|]; discriminate|].
    destruct (c =? 91).
    { destruct (skip_ws r) as [|d r'] eqn:Hr; [discriminate|].
      destruct (d =? 93); [discriminate|].
      apply presult_map_PFuel in H. revert H. apply IHe. lia. }
    destruct (c =? 123).
    { destruct (skip_ws r) as [|d r'] eqn:Hr; [discriminate|].
      destruct (d =? 125); [discriminate|].
      apply presult_map_PFuel in H. revert H. apply IHm. lia. }
    destruct (c =? 116); [destruct (strip_prefix _ r); discriminate|].
    destruct (c =? 102); [destruct (strip_prefix _ r); discriminate|].
    destruct (c =? 110); [destruct (strip_prefix _ r); discriminate|].
    destruct (parse_number (c :: r)) as [[? ?]|]; discriminate.
  - intros s Hf H. rewrite parse_elements_S in H.
    destruct (parse_value f s) as [v r| |] eqn:Hv; [|discriminate|].
    + apply (proj1 (parse_consumes f)) in Hv.
      destruct (skip_ws r) as [|d r'] eqn:Hr; [discriminate|].
      apply skip_ws_cons_length in Hr.
      destruct (d =? 44).
      { apply presult_map_PFuel in H. revert H. apply IHe. lia. }
      destruct (d =? 93); discriminate.
    + revert Hv. apply IHv. lia.
  - intros s Hf H. rewrite parse_members_S in H.
    destruct (skip_ws s) as [|c r] eqn:Hs; [discriminate|].
    apply skip_ws_cons_length in Hs.
    destruct (c =? 34); [|discriminate].
    destruct (parse_chars r) as [[k r1]|] eqn:Hc; [|discriminate].
    apply parse_chars_length in Hc.
    destruct (skip_ws r1) as [|d r2] eqn:Hr1; [discriminate|].
    apply skip_ws_cons_length in Hr1.
    destruct (d =? 58); [|discriminate].
    destruct (parse_value f r2) as [v r3| |] eqn:Hv; [|discriminate|].
    + apply (proj1 (parse_consumes f)) in Hv.
      destruct (skip_ws r3) as [|e r4] eqn:Hr3; [discriminate|].
      apply skip_ws_cons_length in Hr3.
      destruct (e =? 44).
      { apply presult_map_PFuel in H. revert H. apply IHm. lia. }
      destruct (e =? 125); discriminate.
    + revert Hv. apply IHv. lia.
Qed.

(** More steps do not change a result. *)
Lemma parse_more_steps f :
  (forall s, parse_value f s <> PFuel -> parse_value (S f) s = parse_value f s)
  /\ (forall s, parse_elements f s <> PFuel -> parse_elements (S f) s = parse_elements f s)
  /\ (forall s, parse_members f s <> PFuel -> parse_members (S f) s = parse_members f s).
Proof.
  induction f as [|f (IHv & IHe & IHm)]; [repeat split; intros s H; now elim H|].
  repeat split.
  - intros s H. rewrite (parse_value_S (S f)). rewrite parse_value_S in H |- *.
    destruct (skip_ws s) as [|c r]; [reflexivity|].
    destruct (c =? 34); [reflexivity|].
    destruct (c =? 91).
    { destruct (skip_ws r) as [|d r']; [reflexivity|].
      destruct (d =? 93); [reflexivity|].
      rewrite IHe; [reflexivity|]. intros E. rewrite E in H. now elim H. }
    destruct (c =? 123).
    { destruct (skip_ws r) as [|d r']; [reflexivity|].
      destruct (d =? 125); [reflexivity|].
      rewrite IHm; [reflexivity|]. intros E. rewrite E in H. now elim H. }
    reflexivity.
  - intros s H. rewrite (parse_elements_S (S f)). rewrite parse_elements_S in H |- *.
    rewrite IHv by (intros E; rewrite E in H; now elim H).
    destruct (parse_value f s) as [v r| |]; try reflexivity.
    destruct (skip_ws r) as [|d r']; [reflexivity|].
    destruct (d =? 44); [|reflexivity].
    rewrite IHe; [reflexivity|]. intros E. rewrite E in H. now elim H.
  - intros s H. rewrite (parse_members_S (S f)). rewrite parse_members_S in H |- *.
    destruct (skip_ws s) as [|c r]; [reflexivity|].
    destruct (c =? 34); [|reflexivity].
    destruct (parse_chars r) as [[k r1]|]; [|reflexivity].
    destruct (skip_ws r1) as [|d r2]; [reflexivity|].
    destruct (d =? 58); [|reflexivity].
    rewrite IHv by (intros E; rewrite E in H; now elim H).
    destruct (parse_value f r2) as [v r3| |]; try reflexivity.
    destruct (skip_ws r3) as [|e r4]; [reflexivity|].
    destruct (e =? 44); [|reflexivity].
    rewrite IHm; [reflexivity|]. intros E. rewrite E in H. now elim H.
Qed.

(** [JSON_parse] decides by syntax alone: its step count is enough for
    every text, and any larger count gives the same result. *)
Lemma parse_value_fuel text :
  parse_value (S (2 * length text)) text <> PFuel
  /\ forall n, parse_value (n + S (2 * length text)) text
               = parse_value (S (2 * length text)) text.
Proof.
  assert (H0 : parse_value (S (2 * length text)) text <> PFuel).
  { apply (proj1 (parse_enough_steps _)). lia. }
  split; [exact H0|].
  induction n as [|n IH]; [reflexivity|].
  change (S n + S (2 * length text))%nat with (S (n + S (2 * length text))).
  rewrite (proj1 (parse_more_steps _)); [exact IH|]. now rewrite IH.
Qed.

(** ** Input validation *)

Lemma ascii_upper_dot c : ascii_upper c = 46 <-> c = 46.
Proof.
  unfold ascii_upper.
  destruct (N.leb_spec 97 c); destruct (N.leb_spec c 122); simpl; lia.
Qed.

Lemma ci_equal_upper s : forall t,
  ci_equal s t = true <-> ascii_toUpperCase s = ascii_toUpperCase t.
Proof.
  induction s as [|a s IH]; intros [|b t]; simpl; try (split; [discriminate|discriminate]).
  - split; reflexivity.
  - unfold ci_eq. rewrite andb_true_iff, N.eqb_eq, IH.
    split; [intros [-> ->]; reflexivity|intros H; injection H; auto].
Qed.

Lemma ci_equal_length s : forall t, ci_equal s t = true -> length s = length t.
Proof.
  induction s as [|a s IH]; intros [|b t]; simpl; try discriminate; [reflexivity|].
  intros H. apply andb_true_iff in H. destruct H as [_ H]. f_equal. now apply IH.
Qed.

Lemma ci_equal_dot s : forall t, ci_equal s t = true -> In 46 s -> In 46 t.
Proof.
  induction s as [|a s IH]; intros [|b t]; simpl; try discriminate; [tauto|].
  intros H. apply andb_true_iff in H. destruct H as [Hab H].
  unfold ci_eq in Hab. apply N.eqb_eq in Hab.
  intros [Ha|Hin]; [|right; now apply (IH t)].
  subst a. left. apply ascii_upper_dot. rewrite <- Hab. reflexivity.
Qed.

Lemma ends_with_ci_spec suffix name :
  ends_with_ci suffix name = true
  <-> exists pre tail, name = pre ++ tail /\ ci_equal tail suffix = true.
Proof.
  unfold ends_with_ci. rewrite andb_true_iff, Nat.leb_le. split.
  - intros [_ H]. exists (take (length name - length suffix) name), (drop (length name - length suffix) name).
    split; [symmetry; apply take_drop|exact H].
  - intros (pre & tail & -> & H). pose proof (ci_equal_length _ _ H) as Hl.
    rewrite length_app. split; [lia|].
    replace (length pre + length tail - length suffix)%nat with (length pre) by lia.
    now rewrite drop_app_length.
Qed.

Lemma extension_None s : extension s = None <-> ~ In 46 s.
Proof.
  induction s as [|c r IH]; simpl; [tauto|].
  destruct (extension r) as [e|].
  - split; [discriminate|]. intros H. exfalso.
    assert (He : ~ In 46 r) by tauto. apply IH in He. discriminate.
  - destruct (N.eqb_spec c 46) as [->|Hc].
    + split; [discriminate|]. intros H. elim H. now left.
    + split; [|reflexivity]. intros _ [E|Hin]; [congruence|]. now apply (proj1 IH).
Qed.

Lemma extension_Some name e :
  extension name = Some e <-> exists pre, name = pre ++ 46 :: e /\ ~ In 46 e.
Proof.
  revert e. induction name as [|c r IH]; intros e; simpl.
  - split; [discriminate|]. intros ([|? ?] & H & _); discriminate.
  - destruct (extension r) as [e'|] eqn:Hr.
    + split.
      * intros H. injection H as ->. destruct (proj1 (IH e) eq_refl) as (pre & -> & Hn).
        exists (c :: pre). now split.
      * intros (pre & H & Hn). destruct pre as [|c' pre]; simpl in H;
          inversion H; subst.
        -- apply extension_None in Hn. congruence.
        -- f_equal. assert (E : Some e' = Some e) by (apply IH; eauto). now injection E.
    + apply extension_None in Hr.
      destruct (N.eqb_spec c 46) as [->|Hc].
      * split.
        -- intros H. injection H as ->. exists []. now split.
        -- intros (pre & H & Hn). destruct pre as [|c' pre]; simpl in H;
             inversion H; subst; [reflexivity|].
           elim Hr. apply in_or_app. right. now left.
      * split; [discriminate|].
        intros (pre & H & Hn). destruct pre as [|c' pre]; simpl in H;
          inversion H; subst; [congruence|].
        elim Hr. apply in_or_app. right. now left.
Qed.

Lemma extensions_no_dot ext : In ext extensions -> ~ In 46 ext.
Proof.
  unfold extensions. simpl.
  intros [<-|[<-|[<-|[<-|[<-|[]]]]]]; simpl; intros H; decompose [or] H; discriminate || tauto.
Qed.

(** The regular expression and the extension of the specification
    agree. *)
Lemma name_matches_extension name :
  name_matches name = true <-> extension_allowed name.
Proof.
  unfold name_matches, extension_allowed. rewrite existsb_exists. split.
  - intros (ext & Hext & H). apply ends_with_ci_spec in H.
    destruct H as (pre & tail & -> & H).
    destruct tail as [|c e]; [discriminate|]. simpl in H.
    apply andb_true_iff in H. destruct H as [Hc He].
    unfold ci_eq in Hc. apply N.eqb_eq in Hc.
    assert (c = 46) as -> by (now apply ascii_upper_dot).
    exists e, ext. split; [|split].
    + apply extension_Some. exists pre. split; [reflexivity|].
      intros Hin. apply (extensions_no_dot ext Hext). now apply (ci_equal_dot e ext).
    + exact Hext.
    + now apply ci_equal_upper.
  - intros (e & ext & He & Hext & Hup). exists ext. split; [exact Hext|].
    apply extension_Some in He. destruct He as (pre & -> & _).
    apply ends_with_ci_spec. exists pre, (46 :: e). split; [reflexivity|].
    simpl. now apply ci_equal_upper.
Qed.

Lemma includes_In l t : includes l t = true <-> In t l.
Proof.
  unfold includes. rewrite existsb_exists. split.
  - intros (x & Hx & H). apply bool_decide_eq_true in H. now subst.
  - intros H. exists t. split; [exact H|]. now apply bool_decide_eq_true.
Qed.

Lemma type_allowed_test file :
  includes validTypes (file_type file) || name_matches (file_name file) = true
  <-> type_allowed file.
Proof.
  unfold type_allowed. rewrite orb_true_iff, includes_In, name_matches_extension.
  reflexivity.
Qed.

Section Validation.
Variable Math_log : R -> R.
Variable fdiv : R -> R -> R.
Variable fmul : R -> R -> R.
Variable Number_toString : R -> jsstring.

Abbreviation handleFile' := (handleFile Math_log fdiv fmul Number_toString).

(** C4.  A file is accepted exactly when its declared media type is on the
    allow-list or its extension (what follows the last dot, letters in any
    case) is allowed, and its size is at most 10 MiB.  An accepted file
    becomes the staged file and enables the upload button.  A file of
    another type is answered by the type error toast alone, a file of an
    allowed type above 10 MiB by the size error toast alone: the staged
    file, the button and the upload area stay as they were.  In no case is a
    request sent. *)
Theorem handleFile_validates file p :
  (acceptable file ->
     currentFile (handleFile' file p) = Some file
     /\ uploadBtn_disabled (handleFile' file p) = false
     /\ toasts (handleFile' file p) = toasts p)
  /\ (~ type_allowed file ->
        handleFile' file p = showToast msg_invalid_type ToastError p)
  /\ (type_allowed file -> (10 * 1024 * 1024 < file_size file)%Z ->
        handleFile' file p = showToast msg_too_large ToastError p)
  /\ (~ acceptable file ->
        currentFile (handleFile' file p) = currentFile p
        /\ uploadBtn_disabled (handleFile' file p) = uploadBtn_disabled p
        /\ uploadArea (handleFile' file p) = uploadArea p)
  /\ requests (handleFile' file p) = requests p.
Proof.
  pose proof (type_allowed_test file) as Ht.
  unfold handleFile, acceptable.
  rewrite <- negb_orb.
  destruct (includes validTypes (file_type file) || name_matches (file_name file));
    destruct (Z.gtb_spec (file_size file) max_size) as [Hs|Hs];
    unfold max_size in Hs; cbn [negb];
    (split; [|split; [|split; [|split]]]).
  all: try reflexivity.
  all: try (intros [Hty Hle];
            first [exfalso; lia
                  | apply Ht in Hty; discriminate
                  | repeat split; reflexivity]).
  all: try (intros Hno;
            first [exfalso; apply Hno; apply Ht; reflexivity
                  | exfalso; apply Hno; split; [apply Ht; reflexivity|lia]
                  | repeat split; reflexivity]).
  all: intros Hty Hgt; first [exfalso; lia | apply Ht in Hty; discriminate].
Qed.
End Validation.

(** ** The result display *)

Lemma toasts_show_alerts l : forall p,
  toasts (show_alerts l p)
  = toasts p ++ List.map (fun a => {| toast_message := a; toast_type := ToastWarning |}) l.
Proof.
  induction l as [|a l IH]; intros p; simpl.
  - now rewrite app_nil_r.
  - unfold show_alerts in IH. rewrite IH. simpl. now rewrite <- app_assoc.
Qed.

Section Display.
Variable toUpperCase : jsstring -> jsstring.
Variable fmul : R -> R -> R.
Variable toFixed1 : R -> jsstring.

Abbreviation displayResults' := (displayResults toUpperCase fmul toFixed1).

(** X1.  The display of the main page script surfaces every alert, in array
    order, after the toasts already shown. *)
Lemma displayResults_alerts result p l :
  alerts result = Some l ->
  toasts (displayResults toUpperCase fmul toFixed1 result p)
  = toasts p ++ List.map (fun a => {| toast_message := a; toast_type := ToastWarning |}) l.
Proof.
  intros Hl. unfold displayResults. rewrite Hl. cbn [toasts set_results].
  destruct l as [|a l]; [simpl; now rewrite app_nil_r|].
  change (0 <? length (a :: l))%nat with true. cbv iota.
  apply toasts_show_alerts.
Qed.

(** X2.  The display of the main page script has one row for every key of
    [metadata], in order: the value for a non-empty string, the missing
    indicator for [null] and for the empty string. *)
Lemma displayResults_metadata result p ms :
  metadata result = Some ms ->
  exists view,
    results (displayResults' result p) = Some view
    /\ length (customerInfo view) = length ms
    /\ forall (i : nat) (k : jsstring) (v : option jsstring),
         ms !! i = Some (k, v) ->
         customerInfo view !! i
         = Some (match v with
                 | Some (c :: s) => ValueRow (formatLabel toUpperCase k) (c :: s)
                 | _ => MissingRow (formatLabel toUpperCase k)
                 end).
Proof.
  intros Hm. eexists. split; [reflexivity|]. cbn [customerInfo]. rewrite Hm.
  split; [apply length_map|].
  intros i k v Hi.
  pose proof (list_lookup_fmap (metadata_item toUpperCase) ms i) as E.
  rewrite Hi in E. etransitivity; [exact E|].
  destruct v as [[|c s]|]; reflexivity.
Qed.

(** The display of [src/app/static/app.js] shows no alert. *)
Lemma AppStatic_displayResults_toasts result p :
  toasts (AppStatic.displayResults toUpperCase fmul toFixed1 result p) = toasts p.
Proof. reflexivity. Qed.

(** X3.  The display of [src/app/static/app.js] has a row for the keys with
    a non-empty string only, and never the missing indicator. *)
Lemma AppStatic_displayResults_metadata result p ms :
  metadata result = Some ms ->
  exists view,
    results (AppStatic.displayResults toUpperCase fmul toFixed1 result p) = Some view
    /\ customerInfo view
       = flat_map (fun kv : jsstring * option jsstring =>
                     match snd kv with
                     | Some (c :: s) => [ValueRow (formatLabel toUpperCase (fst kv)) (c :: s)]
                     | _ => []
                     end) ms
    /\ forall label, ~ In (MissingRow label) (customerInfo view).
Proof.
  intros Hm. eexists. split; [reflexivity|]. cbn [customerInfo]. rewrite Hm.
  split.
  - apply flat_map_ext. intros [k [[|c s]|]]; reflexivity.
  - intros label Hin. apply in_flat_map in Hin. destruct Hin as ([k v] & _ & Hin).
    unfold AppStatic.metadata_item in Hin. cbn [fst snd] in Hin.
    destruct v as [[|c s]|]; simpl in Hin; try tauto.
    destruct Hin as [Hin|[]]. discriminate.
Qed.
End Display.

(** ** The recent documents *)

Lemma plain_recent_entry result now : plain (recent_entry result now).
Proof.
  unfold recent_entry. apply plain_obj; [reflexivity|].
  repeat constructor.
Qed.

Section Recent.
Variable toUpperCase : jsstring -> jsstring.
Variable number_text : jsstring -> jsstring.
Variable number_is_zero : jsstring -> bool.

Abbreviation displayRecentDocuments' := (displayRecentDocuments toUpperCase number_is_zero).
Abbreviation saveToRecent' := (saveToRecent toUpperCase number_text number_is_zero).
Abbreviation loadRecentDocuments' := (loadRecentDocuments toUpperCase number_is_zero).
Abbreviation record_all' := (record_all toUpperCase number_text number_is_zero).
Abbreviation persisted := (persisted number_text).

(** Drawing the list changes neither the sequence nor the storage. *)
Lemma displayRecentDocuments_frame p :
  recentDocuments (final (displayRecentDocuments' p)) = recentDocuments p
  /\ localStorage (final (displayRecentDocuments' p)) = localStorage p.
Proof.
  unfold displayRecentDocuments.
  destruct (recentDocs p); [|split; reflexivity].
  destruct (length_is_zero number_is_zero (recentDocuments p)) as [[|]|];
    try (split; reflexivity).
  destruct (recentDocuments p) as [| | | |docs|] eqn:E;
    try (split; [exact E|reflexivity]).
  destruct (recent_items toUpperCase docs); (split; [exact E|reflexivity]).
Qed.

(** One call of [saveToRecent] on a sequence: the entry is put in front,
    the sequence cut to ten, and its text written to storage. *)
Lemma saveToRecent_final now result p docs :
  recentDocuments p = JArr docs ->
  recentDocuments (final (saveToRecent' now result p))
  = JArr (take 10 (recent_entry result now :: docs))
  /\ localStorage (final (saveToRecent' now result p))
     = <[key_recentDocuments :=
           JSON_stringify number_text (JArr (take 10 (recent_entry result now :: docs)))]>
         (localStorage p).
Proof.
  intros Hd. unfold saveToRecent. rewrite Hd.
  assert (Hcut : (if (10 <? length (recent_entry result now :: docs))%nat
                  then take 10 (recent_entry result now :: docs)
                  else recent_entry result now :: docs)
                 = take 10 (recent_entry result now :: docs)).
  { destruct (Nat.ltb_spec 10 (length (recent_entry result now :: docs))); [reflexivity|].
    symmetry. apply take_ge. lia. }
  rewrite Hcut.
  destruct (displayRecentDocuments_frame
              (set_localStorage
                 (<[key_recentDocuments :=
                      JSON_stringify number_text
                        (JArr (take 10 (recent_entry result now :: docs)))]>
                    (localStorage p))
                 (set_recentDocuments (JArr (take 10 (recent_entry result now :: docs))) p)))
    as [-> ->].
  split; reflexivity.
Qed.

Lemma take_app_take {A} (l m : list A) : forall n k,
  (n <= k)%nat -> take n (l ++ take k m) = take n (l ++ m).
Proof.
  induction l as [|x l IH]; intros n k Hnk; cbn [app].
  - rewrite take_take. f_equal. lia.
  - destruct n as [|n]; [reflexivity|]. cbn [take]. f_equal. apply IH. lia.
Qed.

(** After any number of calls the sequence is the ten newest of the
    entries recorded and the ones there before, newest first; after at
    least one call the storage holds its text. *)
Lemma record_all_final rs : forall p docs,
  recentDocuments p = JArr docs ->
  recentDocuments (record_all' rs p) = JArr (take 10 (rev (entries_of rs) ++ docs))
  \/ (rs = [] /\ recentDocuments (record_all' rs p) = JArr docs).
Proof.
  induction rs as [|[now result] rs IH]; intros p docs Hd.
  - right. split; [reflexivity|exact Hd].
  - left. cbn [record_all fold_left fst snd].
    destruct (saveToRecent_final now result p docs Hd) as [Hs _].
    fold (record_all toUpperCase number_text number_is_zero rs
            (final (saveToRecent' now result p))).
    destruct (IH _ _ Hs) as [H|[-> H]].
    + rewrite H. f_equal. cbn [entries_of List.map rev fst snd].
      rewrite <- app_assoc. cbn [app].
      fold (entries_of rs).
      apply take_app_take. lia.
    + rewrite H. reflexivity.
Qed.

Lemma saveToRecent_persisted now result p docs :
  recentDocuments p = JArr docs -> persisted (final (saveToRecent' now result p)).
Proof.
  intros Hd. unfold persisted.
  destruct (saveToRecent_final now result p docs Hd) as [-> ->].
  apply lookup_insert_eq.
Qed.

Lemma record_all_persisted rs : forall p docs,
  recentDocuments p = JArr docs -> persisted p \/ rs <> [] ->
  persisted (record_all' rs p).
Proof.
  induction rs as [|[now result] rs IH]; intros p docs Hd Hp.
  - destruct Hp as [Hp|Hp]; [exact Hp|now elim Hp].
  - cbn [record_all fold_left fst snd].
    destruct (saveToRecent_final now result p docs Hd) as [Hs _].
    apply (IH _ _ Hs). left. apply (saveToRecent_persisted now result p docs Hd).
Qed.

Lemma plain_entries rs : Forall plain (entries_of rs).
Proof.
  induction rs as [|[now result] rs IH]; constructor; [apply plain_recent_entry|exact IH].
Qed.

(** The list is drawn without exception from entries written by
    [saveToRecent]. *)
Lemma recent_items_entries docs :
  Forall (fun doc => exists result now, doc = recent_entry result now) docs ->
  exists rows, recent_items toUpperCase docs = Some rows.
Proof.
  induction 1 as [|doc docs (result & now & ->) _ (rows & IH)]; [now exists []|].
  cbn [recent_items]. rewrite IH.
  change (recent_item toUpperCase (recent_entry result now))
    with (Some {| row_id := Some (JStr (document_id result));
                  row_category := category result;
                  row_label := formatCategory toUpperCase (category result);
                  row_urgency := Some (JStr (urgency result));
                  row_timestamp := Some (JStr now) |}).
  eauto.
Qed.

Lemma entries_of_entries rs :
  Forall (fun doc => exists result now, doc = recent_entry result now) (entries_of rs).
Proof.
  induction rs as [|[now result] rs IH]; constructor; [|exact IH].
  cbn [fst snd]. eauto.
Qed.

Lemma saveToRecent_returns now result p rs :
  recentDocuments p = JArr (entries_of rs) ->
  exists p', saveToRecent' now result p = Normal p'.
Proof.
  intros Hd. unfold saveToRecent. rewrite Hd.
  set (docs2 := if (10 <? length (recent_entry result now :: entries_of rs))%nat
                then take 10 (recent_entry result now :: entries_of rs)
                else recent_entry result now :: entries_of rs).
  assert (Hent : Forall (fun doc => exists result now, doc = recent_entry result now) docs2).
  { assert (Hall : Forall (fun doc => exists result now, doc = recent_entry result now)
                     (recent_entry result now :: entries_of rs)).
    { constructor; [eauto|apply entries_of_entries]. }
    subst docs2. destruct (10 <? _)%nat; [now apply Forall_take|exact Hall]. }
  assert (Hne : docs2 <> []).
  { subst docs2. destruct (10 <? _)%nat; discriminate. }
  destruct (recent_items_entries docs2 Hent) as (rows & Hrows).
  unfold displayRecentDocuments.
  cbn [recentDocs recentDocuments set_localStorage set_recentDocuments length_is_zero].
  destruct (recentDocs p); [|eauto].
  rewrite bool_decide_eq_false_2 by exact Hne. rewrite Hrows. eauto.
Qed.

(** C5.  Each call of [saveToRecent] on a sequence puts the new entry in
    front, cuts the sequence to ten entries and writes the text of the
    whole sequence to storage; on a sequence of recorded entries it returns
    without exception.  After more than ten calls the sequence is exactly
    the ten entries recorded last, the newest first, and the storage holds a
    text that [JSON.parse] reads as that sequence. *)
Theorem saveToRecent_keeps_ten_newest p docs :
  recentDocuments p = JArr docs ->
  (forall now result,
      recentDocuments (final (saveToRecent' now result p))
      = JArr (take 10 (recent_entry result now :: docs))
      /\ localStorage (final (saveToRecent' now result p)) !! key_recentDocuments
         = Some (JSON_stringify number_text
                   (recentDocuments (final (saveToRecent' now result p))))
      /\ forall rs, docs = entries_of rs ->
                    exists p', saveToRecent' now result p = Normal p')
  /\ (forall rs : list (jsstring * ProcessResult),
        (10 < length rs)%nat ->
        recentDocuments (record_all' rs p) = JArr (take 10 (rev (entries_of rs)))
        /\ length (take 10 (rev (entries_of rs))) = 10%nat
        /\ exists text,
             localStorage (record_all' rs p) !! key_recentDocuments = Some text
             /\ JSON_parse text = Some (JArr (take 10 (rev (entries_of rs))))).
Proof.
  intros Hd. split.
  - intros now result. split; [|split].
    + apply (saveToRecent_final now result p docs Hd).
    + apply (saveToRecent_persisted now result p docs Hd).
    + intros rs ->. now apply (saveToRecent_returns now result p rs).
  - intros rs Hlen.
    assert (Hrev : (10 <= length (rev (entries_of rs)))%nat).
    { rewrite length_rev. unfold entries_of. rewrite length_map. lia. }
    assert (Hseq : recentDocuments (record_all' rs p)
                   = JArr (take 10 (rev (entries_of rs)))).
    { destruct (record_all_final rs p docs Hd) as [H|[-> _]]; [|simpl in Hlen; lia].
      rewrite H. f_equal. rewrite take_app_le by exact Hrev. reflexivity. }
    split; [exact Hseq|]. split; [rewrite length_take; lia|].
    eexists. split.
    + apply (record_all_persisted rs p docs Hd). right. intros ->. simpl in Hlen. lia.
    + rewrite Hseq. apply JSON_parse_stringify. apply plain_arr.
      apply Forall_take. apply Forall_rev. apply plain_entries.
Qed.

Lemma loadRecentDocuments_parsed p stored v :
  localStorage p !! key_recentDocuments = Some stored ->
  stored <> [] -> JSON_parse stored = Some v ->
  loadRecentDocuments' p = displayRecentDocuments' (set_recentDocuments v p).
Proof.
  intros Hs Hne Hparse. unfold loadRecentDocuments. rewrite Hs.
  destruct stored as [|c s]; [now elim Hne|]. now rewrite Hparse.
Qed.

(** C7.  The text [saveToRecent] persists is read back by
    [loadRecentDocuments], on a page started over the same storage, as the
    very sequence that was persisted: same entries, same order.  The
    entries kept from before must be free of numbers and have their keys in
    enumeration order, as the entries written by [saveToRecent] are. *)
Theorem persist_then_reload p docs now result has_recentDocs :
  recentDocuments p = JArr docs ->
  Forall plain docs ->
  recentDocuments
    (final (loadRecentDocuments'
              (initial_page (localStorage (final (saveToRecent' now result p)))
                 has_recentDocs)))
  = recentDocuments (final (saveToRecent' now result p)).
Proof.
  intros Hd Hp.
  pose proof (saveToRecent_persisted now result p docs Hd) as Hs.
  destruct (saveToRecent_final now result p docs Hd) as [Hr _].
  unfold persisted in Hs. rewrite Hr in Hs |- *.
  assert (Hplain : plain (JArr (take 10 (recent_entry result now :: docs)))).
  { apply plain_arr. apply Forall_take. constructor; [apply plain_recent_entry|exact Hp]. }
  rewrite (loadRecentDocuments_parsed
             (initial_page (localStorage (final (saveToRecent' now result p)))
                has_recentDocs)
             (JSON_stringify number_text (JArr (take 10 (recent_entry result now :: docs))))
             (JArr (take 10 (recent_entry result now :: docs))));
    [apply displayRecentDocuments_frame | exact Hs | discriminate
    | now apply JSON_parse_stringify].
Qed.

(** C1, as the script has it.  With nothing stored, or the empty string,
    [loadRecentDocuments] returns and the page is as it was.  With a stored
    text that is not JSON, the [SyntaxError] of [JSON.parse] leaves the
    function (nothing catches it) and the page is as it was.  With a stored
    text that is JSON, the sequence becomes the parsed value, array or
    not, and the list is drawn from it. *)
Theorem loadRecentDocuments_cases p :
  (localStorage p !! key_recentDocuments = None
     \/ localStorage p !! key_recentDocuments = Some [] ->
   loadRecentDocuments' p = Normal p)
  /\ (forall stored,
        localStorage p !! key_recentDocuments = Some stored ->
        stored <> [] -> JSON_parse stored = None ->
        loadRecentDocuments' p = Throw SyntaxError p)
  /\ (forall stored v,
        localStorage p !! key_recentDocuments = Some stored ->
        stored <> [] -> JSON_parse stored = Some v ->
        loadRecentDocuments' p = displayRecentDocuments' (set_recentDocuments v p)
        /\ recentDocuments (final (loadRecentDocuments' p)) = v).
Proof.
  split; [|split].
  - unfold loadRecentDocuments. intros [H|H]; rewrite H; reflexivity.
  - intros stored Hs Hne Hparse. unfold loadRecentDocuments. rewrite Hs.
    destruct stored as [|c s]; [now elim Hne|]. now rewrite Hparse.
  - intros stored v Hs Hne Hparse.
    rewrite (loadRecentDocuments_parsed p stored v Hs Hne Hparse).
    split; [reflexivity|]. apply displayRecentDocuments_frame.
Qed.
End Recent.

(** ** [formatFileSize] *)

Local Open Scope R_scope.

Lemma Rabs_le_inv a b : Rabs a <= b -> - b <= a <= b.
Proof. unfold Rabs. destruct (Rcase_abs a); lra. Qed.

Lemma ln_le_mono x y : 0 < x -> x <= y -> ln x <= ln y.
Proof.
  intros Hx [Hlt| ->]; [|lra]. left. now apply ln_increasing.
Qed.

Lemma ln_2_le_1 : ln 2 <= 1.
Proof.
  rewrite <- (ln_exp 1). apply ln_le_mono; [lra|].
  pose proof (exp_ineq1_le 1). lra.
Qed.

Lemma ln_16777216 : ln 16777216 = 24 * ln 2.
Proof.
  replace 16777216 with (2 ^ 24) by (simpl; lra).
  rewrite ln_pow by lra. simpl INR. f_equal. lra.
Qed.

Lemma ln_1024 : ln 1024 = 10 * ln 2.
Proof.
  replace 1024 with (2 ^ 10) by (simpl; lra).
  rewrite ln_pow by lra. simpl INR. f_equal. lra.
Qed.

Section FileSize.
Variable Math_log : R -> R.
Variable fdiv : R -> R -> R.
Variable fmul : R -> R -> R.
Variable Number_toString : R -> jsstring.
Hypothesis accurate : doubles_accurate Math_log fdiv.

Lemma Math_log_1024 : 4 <= Math_log 1024 <= 11.
Proof.
  pose proof (log_close _ _ accurate 1024 ltac:(lra)) as H.
  apply Rabs_le_inv in H. rewrite ln_1024 in H.
  pose proof ln_lt_2. pose proof ln_2_le_1. lra.
Qed.

Lemma unit_index_range bytes :
  (1 <= bytes <= 10 * 1024 * 1024)%Z ->
  (0 <= unit_index Math_log fdiv bytes <= 2)%Z.
Proof.
  intros [Hlo Hhi]. unfold unit_index.
  pose proof Math_log_1024 as Hb.
  set (b := Math_log 1024) in *.
  destruct (Z.eq_dec bytes 1%Z) as [->|Hne].
  - rewrite (log_one _ _ accurate).
    pose proof (div_nonneg _ _ accurate 0 b ltac:(lra) ltac:(lra)) as H0.
    pose proof (div_close _ _ accurate 0 b ltac:(lra) ltac:(lra)) as H1.
    apply Rabs_le_inv in H1. unfold Rdiv in H1. rewrite Rmult_0_l in H1.
    rewrite (Zfloor_eq 0%Z); [lia|]. simpl. lra.
  - assert (Hx : 2 <= IZR bytes <= 16777216).
    { split; apply IZR_le; lia. }
    pose proof (log_close _ _ accurate (IZR bytes) Hx) as Ha.
    apply Rabs_le_inv in Ha.
    set (a := Math_log (IZR bytes)) in *.
    assert (Hln : ln 2 <= ln (IZR bytes) <= 24 * ln 2).
    { split; [apply ln_le_mono; lra|].
      rewrite <- ln_16777216. apply ln_le_mono; lra. }
    pose proof ln_lt_2 as HL. pose proof ln_2_le_1 as HU.
    pose proof (log_close _ _ accurate 1024 ltac:(lra)) as Hb'.
    apply Rabs_le_inv in Hb'. fold b in Hb'. rewrite ln_1024 in Hb'.
    assert (Ha0 : 0 <= a <= 32) by lra.
    pose proof (div_nonneg _ _ accurate a b ltac:(lra) ltac:(lra)) as H0.
    pose proof (div_close _ _ accurate a b Ha0 ltac:(lra)) as H1.
    apply Rabs_le_inv in H1.
    assert (Hq : a / b < 299 / 100).
    { apply (Rmult_lt_reg_r b); [lra|].
      unfold Rdiv at 1. rewrite Rmult_assoc, Rinv_l by lra. lra. }
    split.
    + apply Zfloor_lub. simpl. exact H0.
    + assert (Hlt : (Zfloor (fdiv a b) < 3)%Z).
      { apply lt_IZR. pose proof (Zfloor_bound (fdiv a b)). lra. }
      lia.
Qed.

(** C10.  For every size from 1 to 10 MiB the unit index is 0, 1 or 2, so
    [sizes[i]] is one of the three units and the result is a number text,
    a space and that unit; for size 0 the result is [0 Bytes]. *)
Theorem formatFileSize_unit bytes :
  (1 <= bytes <= 10 * 1024 * 1024)%Z ->
  (0 <= unit_index Math_log fdiv bytes <= 2)%Z
  /\ (exists number unit,
        sizes !! Z.to_nat (unit_index Math_log fdiv bytes) = Some unit
        /\ formatFileSize Math_log fdiv fmul Number_toString bytes
           = number ++ [32%N] ++ unit)
  /\ formatFileSize Math_log fdiv fmul Number_toString 0 = text_zero_bytes.
Proof.
  intros Hb. pose proof (unit_index_range bytes Hb) as Hi.
  split; [exact Hi|]. split; [|reflexivity].
  unfold formatFileSize.
  destruct (Z.eqb_spec bytes 0%Z) as [->|_]; [lia|].
  set (i := unit_index Math_log fdiv bytes) in *.
  eexists _, (sizes_at i). split; [|reflexivity].
  unfold sizes_at. destruct (Z.ltb_spec i 0%Z) as [|_]; [lia|].
  assert (Hcases : (i = 0 \/ i = 1 \/ i = 2)%Z) by lia.
  destruct Hcases as [E | [E | E]]; rewrite E; reflexivity.
Qed.
End FileSize.

Local Close Scope R_scope.
(** ** The chat *)

(** One turn of the global chat.  A turn whose answer holds a [response]
    string appends the user message and then the assistant message to the
    transcript; every other turn leaves the transcript as it was, whatever
    went wrong.  The request of the turn carries the transcript as it was
    before the turn. *)
Lemma handleChat_transcript reply p :
  (forall response,
      response_text reply = Some response -> trim (chatInputMain_value p) <> [] ->
      mainChatHistory (handleChat reply p)
      = mainChatHistory p
          ++ [{| role := RoleUser; content := Some (JStr (trim (chatInputMain_value p))) |};
              {| role := RoleAssistant; content := Some (JStr response) |}])
  /\ (response_text reply = None ->
      mainChatHistory (handleChat reply p) = mainChatHistory p)
  /\ (trim (chatInputMain_value p) <> [] ->
      requests (handleChat reply p)
      = requests p ++ [{| req_query := trim (chatInputMain_value p);
                          req_document_id := None;
                          req_chat_history := mainChatHistory p |}]).
Proof.
  unfold handleChat, handleChat_settle.
  destruct (trim (chatInputMain_value p)) as [|c q].
  - repeat split; [intros response _ Hne | intros Hne]; now elim Hne.
  - split; [|split].
    + intros response -> _. reflexivity.
    + intros ->. reflexivity.
    + intros _. now destruct (response_text reply).
Qed.

(** One turn of the document chat.  An answer with a [response] string
    appends the two messages.  A request that fails, or whose body is no
    JSON, leaves the transcript as it was.  The two other answers end in the
    apology like these, but with the transcript grown: by the user message
    for the body [null], and by the user message and the value of
    [response] for a body whose [response] is no string. *)
Lemma sendMessage_transcript reply d :
  (forall response,
      response_text reply = Some response -> trim (Detail.chatInput_value d) <> [] ->
      Detail.chatHistory (Detail.sendMessage reply d)
      = Detail.chatHistory d
          ++ [{| role := RoleUser; content := Some (JStr (trim (Detail.chatInput_value d))) |};
              {| role := RoleAssistant; content := Some (JStr response) |}])
  /\ ((forall m, reply <> ChatNullBody m) -> (forall v m, reply <> ChatOther v m) ->
      (forall response, reply <> ChatOk response) ->
      Detail.chatHistory (Detail.sendMessage reply d) = Detail.chatHistory d)
  /\ (forall m,
        reply = ChatNullBody m -> trim (Detail.chatInput_value d) <> [] ->
        Detail.chatHistory (Detail.sendMessage reply d)
        = Detail.chatHistory d
            ++ [{| role := RoleUser;
                   content := Some (JStr (trim (Detail.chatInput_value d))) |}])
  /\ (forall v m,
        reply = ChatOther v m -> trim (Detail.chatInput_value d) <> [] ->
        Detail.chatHistory (Detail.sendMessage reply d)
        = Detail.chatHistory d
            ++ [{| role := RoleUser;
                   content := Some (JStr (trim (Detail.chatInput_value d))) |};
                {| role := RoleAssistant; content := v |}])
  /\ (trim (Detail.chatInput_value d) <> [] ->
      Detail.requests (Detail.sendMessage reply d)
      = Detail.requests d ++ [{| req_query := trim (Detail.chatInput_value d);
                                 req_document_id := Some (Detail.documentId d);
                                 req_chat_history := Detail.chatHistory d |}]).
Proof.
  unfold Detail.sendMessage.
  destruct (trim (Detail.chatInput_value d)) as [|c q].
  - split; [|split; [|split; [|split]]].
    + intros response _ Hne. now elim Hne.
    + reflexivity.
    + intros m _ Hne. now elim Hne.
    + intros v m _ Hne. now elim Hne.
    + intros Hne. now elim Hne.
  - split; [|split; [|split; [|split]]].
    + intros response Hr _.
      destruct reply as [m| |m|r|m|[[| | |s| |]|] m]; try discriminate;
        injection Hr as ->; reflexivity.
    + intros Hnull Hother Hok.
      destruct reply as [m| |m|r|m|v m].
      * cbn. now rewrite app_nil_r.
      * cbn. now rewrite app_nil_r.
      * cbn. now rewrite app_nil_r.
      * now elim (Hok r).
      * now elim (Hnull m).
      * now elim (Hother v m).
    + intros m -> _. reflexivity.
    + intros v m -> _. now destruct v as [[| | |s| |]|].
    + intros _. now destruct reply as [m| |m|r|m|[[| | |s| |]|] m].
Qed.

(** What a turn adds to the transcript of the global chat. *)
Lemma handleChat_turn typed reply p :
  mainChatHistory (handleChat reply (set_chatInputMain_value typed p))
  = mainChatHistory p ++ turn_messages (typed, reply).
Proof.
  unfold handleChat, handleChat_settle, turn_messages.
  cbn [chatInputMain_value set_chatInputMain_value fst snd].
  destruct (trim typed) as [|c q]; [now rewrite app_nil_r|].
  destruct (response_text reply); cbn; now rewrite ?app_nil_r.
Qed.

(** X4.  Over any number of turns the transcript grows by the messages of
    the turns that ended with a reply, and by nothing else. *)
Lemma chat_turns_transcript turns : forall p,
  mainChatHistory (chat_turns turns p)
  = mainChatHistory p ++ flat_map turn_messages turns.
Proof.
  induction turns as [|[typed reply] turns IH]; intros p.
  - simpl. now rewrite app_nil_r.
  - cbn [chat_turns fold_left fst snd flat_map].
    fold (chat_turns turns (handleChat reply (set_chatInputMain_value typed p))).
    now rewrite IH, handleChat_turn, app_assoc.
Qed.

(** What a turn adds to the transcript of the document chat. *)
Lemma sendMessage_turn typed reply d :
  Detail.chatHistory
    (Detail.sendMessage reply
       {| Detail.documentId := Detail.documentId d;
          Detail.chatHistory := Detail.chatHistory d;
          Detail.chatMessages := Detail.chatMessages d;
          Detail.chatInput_value := typed;
          Detail.chat_disabled := Detail.chat_disabled d;
          Detail.toasts := Detail.toasts d;
          Detail.requests := Detail.requests d |})
  = Detail.chatHistory d ++ detail_turn_messages (typed, reply).
Proof.
  unfold Detail.sendMessage, detail_turn_messages.
  cbn [Detail.chatInput_value fst snd].
  destruct (trim typed) as [|c q]; [now rewrite app_nil_r|].
  destruct reply as [m| |m|r|m|[[| | |s| |]|] m]; cbn; now rewrite ?app_nil_r.
Qed.

(** With an answer that conforms, a turn adds the same to both
    transcripts. *)
Lemma detail_turn_messages_conforms (t : jsstring * chat_reply) :
  conforms (snd t) = true -> detail_turn_messages t = turn_messages t.
Proof.
  destruct t as [typed reply]. unfold detail_turn_messages, turn_messages, conforms.
  cbn [fst snd]. intros H.
  destruct (trim typed) as [|c q]; [reflexivity|].
  now destruct reply as [m| |m|r|m|[[| | |s| |]|] m].
Qed.

(** X5.  Over any number of turns of the chat of the document page, its
    transcript grows by what each turn pushes, in order: for a text that is
    not blank, the user message and the value of [response] when the body of
    the answer is not [null], whether that value is a string and was shown
    or is none and the turn ended in the apology; the user message alone for
    the body [null]; nothing after a request that failed or a body that
    is no JSON.  When every answer conforms to the contract, these are the
    complete exchanges of the turns that ended with a reply, as in the
    global chat.  A turn with the body [null] makes the transcript longer
    by one message, so it does not stay a sequence of exchanges. *)
Theorem detail_chat_turns_transcript turns : forall d,
  Detail.chatHistory (detail_chat_turns turns d)
  = Detail.chatHistory d ++ flat_map detail_turn_messages turns
  /\ (Forall (fun t => conforms (snd t) = true) turns ->
      Detail.chatHistory (detail_chat_turns turns d)
      = Detail.chatHistory d ++ flat_map turn_messages turns)
  /\ (forall typed m,
        trim typed <> [] ->
        length (Detail.chatHistory (detail_chat_turns (turns ++ [(typed, ChatNullBody m)]) d))
        = S (length (Detail.chatHistory (detail_chat_turns turns d)))).
Proof.
  assert (Hall : forall ts d,
             Detail.chatHistory (detail_chat_turns ts d)
             = Detail.chatHistory d ++ flat_map detail_turn_messages ts).
  { induction ts as [|[typed reply] ts IH]; intros d.
    - simpl. now rewrite app_nil_r.
    - cbn [detail_chat_turns fold_left fst snd flat_map].
      match goal with
      | |- Detail.chatHistory (fold_left ?f ts ?d0) = _ =>
          change (fold_left f ts d0) with (detail_chat_turns ts d0)
      end.
      now rewrite IH, sendMessage_turn, app_assoc. }
  intros d. split; [apply Hall|]. split.
  - intros Hok. rewrite Hall. f_equal.
    induction Hok as [|t ts Ht _ IH]; [reflexivity|].
    cbn [flat_map]. now rewrite IH, detail_turn_messages_conforms.
  - intros typed m Hb. rewrite !Hall, flat_map_app, app_assoc, length_app.
    cbn [flat_map]. unfold detail_turn_messages at 2. cbn [fst snd].
    destruct (trim typed) as [|c q]; [now elim Hb|].
    cbn. lia.
Qed.

(** ** The labels of the result display *)

Section LabelsOfDisplay.
Variable toUpperCase : jsstring -> jsstring.
Variable fmul : R -> R -> R.
Variable toFixed1 : R -> jsstring.
Hypothesis conforms : upper_conforms toUpperCase.

(** C8, as the script has it.  The category label is the category with
    every underscore and space turned into a space and the first code unit
    of every word upper-cased, the rest of the word unchanged
    ([loan_applications] gives [Loan Applications]); the urgency is shown
    upper-cased as a whole ([high] gives [HIGH]). *)
Theorem display_labels :
  (forall s, formatCategory toUpperCase s = title_words toUpperCase true s)
  /\ formatCategory toUpperCase (u "loan_applications") = u "Loan Applications"
  /\ (forall result p,
        exists view,
          results (displayResults toUpperCase fmul toFixed1 result p) = Some view
          /\ category_text view = title_words toUpperCase true (category result)
          /\ urgency_text view = toUpperCase (urgency result))
  /\ toUpperCase (u "high") = u "HIGH".
Proof.
  split; [|split; [|split]].
  - intros s. now apply formatCategory_title.
  - rewrite formatCategory_title by exact conforms.
    cbn [title_words u List.map list_ascii_of_string]. 
    rewrite !conforms by (repeat constructor). reflexivity.
  - intros result p. eexists. split; [reflexivity|]. split; [|reflexivity].
    cbn [category_text]. now apply formatCategory_title.
  - rewrite conforms; [reflexivity|]. repeat constructor.
Qed.
End LabelsOfDisplay.

Lemma ascii_toUpperCase_conforms : upper_conforms ascii_toUpperCase.
Proof. intros s _. reflexivity. Qed.

Lemma display_labels_witness :
  formatCategory ascii_toUpperCase (u "loan_applications") = u "Loan Applications"
  /\ ascii_toUpperCase (u "high") = u "HIGH".
Proof.
  destruct (display_labels ascii_toUpperCase Rmult no_text ascii_toUpperCase_conforms)
    as (_ & H1 & _ & H2).
  split; [exact H1|exact H2].
Defined.

(** C8 as stated fails: the result display shows the urgency [high] as
    [HIGH], not as [High]. *)
Lemma urgency_not_title_cased :
  option_map urgency_text
    (results (displayResults ascii_toUpperCase Rmult no_text sample_result sample_page))
  = Some (u "HIGH")
  /\ u "HIGH" <> u "High".
Proof. split; [reflexivity|discriminate]. Qed.

(** ** Sample inputs *)

(** [JSON.parse] on a text with white space, escapes, a repeated key and
    index keys. *)
Example JSON_parse_object :
  JSON_parse (u "[ {" ++ [34] ++ u "b" ++ [34] ++ u ": " ++ [34] ++ u "x\nA\u00e9" ++ [34]
              ++ u ", " ++ [34] ++ u "10" ++ [34] ++ u ":null," ++ [34] ++ u "2" ++ [34]
              ++ u ":[true,-1.5e3], " ++ [34] ++ u "b" ++ [34] ++ u ":{} } ]")
  = Some (JArr [JObj [(u "2", JArr [JBool true; JNum (u "-1.5e3")]);
                      (u "10", JNull);
                      (u "b", JObj [])]]).
Proof. vm_compute. reflexivity. Qed.

Example JSON_parse_rejects :
  JSON_parse (u "[1,]") = None /\ JSON_parse (u "01") = None
  /\ JSON_parse (u "{") = None /\ JSON_parse [] = None
  /\ JSON_parse (u "nul") = None /\ JSON_parse (u " null ") = Some JNull.
Proof. vm_compute. repeat split. Qed.

(** The text written for one recorded result. *)
Example JSON_stringify_entry :
  JSON_stringify same_text (JArr [recent_entry sample_result (u "2024-05-01T10:00:00.000Z")])
  = u "[{" ++ [34] ++ u "id" ++ [34] ++ u ":" ++ [34] ++ u "doc-1" ++ [34]
    ++ u "," ++ [34] ++ u "category" ++ [34] ++ u ":" ++ [34] ++ u "loan_applications" ++ [34]
    ++ u "," ++ [34] ++ u "urgency" ++ [34] ++ u ":" ++ [34] ++ u "high" ++ [34]
    ++ u "," ++ [34] ++ u "timestamp" ++ [34] ++ u ":" ++ [34]
    ++ u "2024-05-01T10:00:00.000Z" ++ [34] ++ u "}]".
Proof. vm_compute. reflexivity. Qed.

(** A stored text that is JSON but no array: the sequence becomes the
    value, and drawing the list raises a [TypeError]. *)
Example loadRecentDocuments_not_an_array :
  loadRecentDocuments ascii_toUpperCase never_zero
    (initial_page {[ key_recentDocuments := u "null" ]} true)
  = Throw TypeError
      (set_recentDocuments JNull (initial_page {[ key_recentDocuments := u "null" ]} true)).
Proof.
  unfold loadRecentDocuments. cbn [localStorage initial_page].
  rewrite lookup_singleton_eq. reflexivity.
Qed.

Example formatCategory_loan :
  formatCategory ascii_toUpperCase (u "loan_applications") = u "Loan Applications"
  /\ formatCategory ascii_toUpperCase (u "kyc_updates") = u "Kyc Updates"
  /\ formatCategory ascii_toUpperCase (u "a__b c") = u "A  B C".
Proof. repeat split; reflexivity. Qed.

Example formatMessageContent_sample :
  formatMessageContent (u "a **b** <i>&" ++ [10] ++ u "c***d** **e" ++ [10] ++ u "f**")
  = u "a <strong>b</strong> <i>&<br>c<strong>*d</strong> **e<br>f**".
Proof. reflexivity. Qed.

(** ** The claims on sample inputs *)

Lemma exact_doubles_accurate : doubles_accurate ln Rdiv.
Proof.
  split.
  - apply ln_1.
  - intros x _. rewrite Rminus_diag, Rabs_R0. lra.
  - intros a b Ha Hb. apply Rmult_le_pos; [exact Ha|]. left. now apply Rinv_0_lt_compat.
  - intros a b _ _. rewrite Rminus_diag, Rabs_R0. lra.
Qed.

(** C1 as stated fails: on a stored text that is not JSON,
    [loadRecentDocuments] ends with the [SyntaxError] of [JSON.parse]. *)
Lemma loadRecentDocuments_raises :
  localStorage sample_broken_page !! key_recentDocuments = Some (u "{oops")
  /\ JSON_parse (u "{oops") = None
  /\ loadRecentDocuments ascii_toUpperCase never_zero sample_broken_page
     = Throw SyntaxError sample_broken_page.
Proof.
  assert (Hs : localStorage sample_broken_page !! key_recentDocuments = Some (u "{oops"))
    by apply lookup_singleton_eq.
  split; [exact Hs|]. split; [reflexivity|].
  unfold loadRecentDocuments. rewrite Hs. reflexivity.
Qed.

Lemma loadRecentDocuments_cases_witness :
  loadRecentDocuments ascii_toUpperCase never_zero sample_page = Normal sample_page
  /\ loadRecentDocuments ascii_toUpperCase never_zero sample_broken_page
     = Throw SyntaxError sample_broken_page.
Proof.
  split.
  - apply (proj1 (loadRecentDocuments_cases ascii_toUpperCase never_zero sample_page)).
    left. apply lookup_empty.
  - apply (proj1 (proj2 (loadRecentDocuments_cases ascii_toUpperCase never_zero
                           sample_broken_page)) (u "{oops")).
    + apply lookup_singleton_eq.
    + discriminate.
    + reflexivity.
Defined.

(** C2 on [src/app/static/app.js]: of the two keys of the metadata only the
    one with a value gets a row; the main page script of the other copy
    gives both. *)
Lemma AppStatic_displayResults_skips_missing :
  option_map customerInfo
    (results (AppStatic.displayResults ascii_toUpperCase Rmult no_text
                sample_result sample_page))
  = Some [ValueRow (u "Account Number") (u "DE89")]
  /\ option_map customerInfo
       (results (displayResults ascii_toUpperCase Rmult no_text sample_result sample_page))
     = Some [MissingRow (u "Customer Id"); ValueRow (u "Account Number") (u "DE89")].
Proof. split; reflexivity. Qed.

(** C6 on [src/app/static/app.js]: the two alerts of the result are not
    shown; the main page script of the other copy shows both, in order. *)
Lemma AppStatic_displayResults_drops_alerts :
  alerts sample_result = Some [u "Customer ID missing"; u "Signature missing"]
  /\ toasts (AppStatic.displayResults ascii_toUpperCase Rmult no_text
               sample_result sample_page) = []
  /\ toasts (displayResults ascii_toUpperCase Rmult no_text sample_result sample_page)
     = [{| toast_message := u "Customer ID missing"; toast_type := ToastWarning |};
        {| toast_message := u "Signature missing"; toast_type := ToastWarning |}].
Proof. repeat split; reflexivity. Qed.

(** C3 on the document page: a turn answered with status 200 and the body
    [null] ends in the error toast and the apology, and yet the transcript
    has grown by the user message, which the request of the next turn
    carries; answered with the body [{}], by the user message and an
    assistant message without content.  The global chat, which renders the
    reply before it pushes, ends the same turns with its transcript as it
    was. *)
Lemma sendMessage_failure_grows_transcript :
  Detail.chatHistory (Detail.sendMessage sample_null_reply sample_detail_page)
  = [{| role := RoleUser; content := Some (JStr (u "Wie?")) |}]
  /\ Detail.chatMessages (Detail.sendMessage sample_null_reply sample_detail_page)
     = [(RoleUser, u "Wie?"); (RoleAssistant, msg_apology)]
  /\ Detail.toasts (Detail.sendMessage sample_null_reply sample_detail_page)
     = [{| toast_message := u "Error: Cannot read properties of null (reading 'response')";
           toast_type := ToastError |}]
  /\ List.map req_chat_history
       (Detail.requests
          (detail_chat_turns [(u "Wie?", sample_null_reply); (u "Und?", ChatHttpError)]
             sample_detail_page))
     = [[]; [{| role := RoleUser; content := Some (JStr (u "Wie?")) |}]]
  /\ Detail.chatHistory (Detail.sendMessage sample_empty_reply sample_detail_page)
     = [{| role := RoleUser; content := Some (JStr (u "Wie?")) |};
        {| role := RoleAssistant; content := None |}]
  /\ Detail.chatMessages (Detail.sendMessage sample_empty_reply sample_detail_page)
     = [(RoleUser, u "Wie?"); (RoleAssistant, msg_apology)]
  /\ mainChatHistory (handleChat sample_null_reply sample_chat_page) = []
  /\ mainChatHistory (handleChat sample_empty_reply sample_chat_page) = []
  /\ chatMessagesMain (handleChat sample_null_reply sample_chat_page)
     = [(RoleUser, u "Wie?"); (RoleAssistant, msg_apology)].
Proof. repeat split; reflexivity. Qed.

Lemma handleFile_validates_witness :
  currentFile (handleFile ln Rdiv Rmult no_text sample_file sample_page) = Some sample_file
  /\ handleFile ln Rdiv Rmult no_text sample_large_file sample_page
     = showToast msg_too_large ToastError sample_page
  /\ currentFile (handleFile ln Rdiv Rmult no_text sample_large_file sample_page) = None.
Proof.
  destruct (handleFile_validates ln Rdiv Rmult no_text sample_file sample_page)
    as (Hacc & _).
  destruct (handleFile_validates ln Rdiv Rmult no_text sample_large_file sample_page)
    as (_ & _ & Hlarge & Hrej & _).
  split; [|split].
  - apply Hacc. split.
    + right. exists (u "TXT"), (u "txt"). repeat split. simpl. tauto.
    + simpl. lia.
  - apply Hlarge.
    + left. simpl. tauto.
    + simpl. lia.
  - apply Hrej. intros [_ Hsize]. simpl in Hsize. lia.
Defined.

Lemma saveToRecent_keeps_ten_newest_witness :
  recentDocuments (record_all ascii_toUpperCase same_text never_zero sample_records sample_page)
  = JArr (take 10 (rev (entries_of sample_records))).
Proof.
  apply (proj2 (saveToRecent_keeps_ten_newest ascii_toUpperCase same_text never_zero
                  sample_page [] eq_refl) sample_records).
  simpl. lia.
Defined.

Lemma persist_then_reload_witness :
  recentDocuments
    (final (loadRecentDocuments ascii_toUpperCase never_zero
              (initial_page
                 (localStorage
                    (final (saveToRecent ascii_toUpperCase same_text never_zero
                              (u "2024-05-01T10:00:00.000Z") sample_result sample_page)))
                 true)))
  = recentDocuments
      (final (saveToRecent ascii_toUpperCase same_text never_zero
                (u "2024-05-01T10:00:00.000Z") sample_result sample_page)).
Proof.
  apply (persist_then_reload ascii_toUpperCase same_text never_zero sample_page []).
  - reflexivity.
  - constructor.
Defined.

Lemma formatFileSize_unit_witness :
  (0 <= unit_index ln Rdiv 1536 <= 2)%Z.
Proof.
  apply (formatFileSize_unit ln Rdiv Rmult no_text exact_doubles_accurate 1536).
  lia.
Defined.
(** ** Relative time stamps *)

(** The floor of an exact quotient of integers is the integer quotient. *)
Lemma Zfloor_quotient (a b : Z) : (0 < b)%Z -> Zfloor (IZR a / IZR b) = (a / b)%Z.
Proof.
  intros Hb.
  assert (HbR : (0 < IZR b)%R) by now apply IZR_lt.
  pose proof (Z.div_mod a b ltac:(lia)) as Hdm.
  pose proof (Z.mod_pos_bound a b Hb) as Hm.
  apply Zfloor_eq. split.
  - apply (Rmult_le_reg_r (IZR b)); [exact HbR|].
    unfold Rdiv. rewrite Rmult_assoc, Rinv_l, Rmult_1_r by lra.
    rewrite <- mult_IZR. apply IZR_le. nia.
  - apply (Rmult_lt_reg_r (IZR b)); [exact HbR|].
    unfold Rdiv. rewrite Rmult_assoc, Rinv_l, Rmult_1_r by lra.
    rewrite <- (plus_IZR _ 1), <- mult_IZR. apply IZR_lt. nia.
Qed.

Lemma exact_floor_division : floor_division_exact Rdiv.
Proof.
  intros a b _ Hb. apply Zfloor_quotient. lia.
Qed.

Section Time.
Variable fdiv : R -> R -> R.
Variable Date_of : option json -> option Z.
Variable toLocaleDateString : option Z -> jsstring.
Hypothesis exact : floor_division_exact fdiv.

(** X6.  The label of a time stamp depends on the milliseconds elapsed since
    it: [Just now] below a minute, also for a time stamp in the future; the
    whole minutes below an hour; the whole hours below a day; the whole days
    below a week; the local date from a week on. *)
Theorem formatTimestamp_thresholds (now : Z) (timestamp : option json) (date : Z) :
  Date_of timestamp = Some date ->
  (Z.abs (now - date) <= 2 ^ 52)%Z ->
  formatTimestamp fdiv Date_of toLocaleDateString now timestamp
  = if (now - date <? 60000)%Z then text_just_now
    else if (now - date <? 3600000)%Z
         then integer_text ((now - date) / 60000) ++ text_m_ago
    else if (now - date <? 86400000)%Z
         then integer_text ((now - date) / 3600000) ++ text_h_ago
    else if (now - date <? 604800000)%Z
         then integer_text ((now - date) / 86400000) ++ text_d_ago
    else toLocaleDateString (Some date).
Proof.
  intros Hdate Hrange. unfold formatTimestamp. rewrite Hdate.
  cbv zeta.
  rewrite (exact (now - date)%Z 60000%Z Hrange) by tauto.
  rewrite (exact (now - date)%Z 3600000%Z Hrange) by tauto.
  rewrite (exact (now - date)%Z 86400000%Z Hrange) by tauto.
  set (diff := (now - date)%Z) in *.
  destruct (Z.ltb_spec (diff / 60000) 1) as [H1|H1];
    destruct (Z.ltb_spec diff 60000) as [D1|D1];
    [reflexivity
    |exfalso; Z.to_euclidean_division_equations; lia
    |exfalso; Z.to_euclidean_division_equations; lia
    |].
  destruct (Z.ltb_spec (diff / 60000) 60) as [H2|H2];
    destruct (Z.ltb_spec diff 3600000) as [D2|D2];
    [reflexivity
    |exfalso; Z.to_euclidean_division_equations; lia
    |exfalso; Z.to_euclidean_division_equations; lia
    |].
  destruct (Z.ltb_spec (diff / 3600000) 24) as [H3|H3];
    destruct (Z.ltb_spec diff 86400000) as [D3|D3];
    [reflexivity
    |exfalso; Z.to_euclidean_division_equations; lia
    |exfalso; Z.to_euclidean_division_equations; lia
    |].
  destruct (Z.ltb_spec (diff / 86400000) 7) as [H4|H4];
    destruct (Z.ltb_spec diff 604800000) as [D4|D4];
    [reflexivity
    |exfalso; Z.to_euclidean_division_equations; lia
    |exfalso; Z.to_euclidean_division_equations; lia
    |reflexivity].
Qed.
End Time.

(** ** Texts written into the page *)

Lemma lazy_until_stars_newline (a b : jsstring) :
  lazy_until_stars (a ++ c_newline :: b)
  = match lazy_until_stars a with
    | Some (x, rest) => Some (x, rest ++ c_newline :: b)
    | None => None
    end.
Proof.
  induction a as [|c r IH]; [reflexivity|].
  cbn [app lazy_until_stars]. rewrite IH.
  destruct (c =? c_star).
  - destruct r as [|d r']; cbn [app].
    + destruct (is_line_terminator c); reflexivity.
    + destruct (d =? c_star); [reflexivity|].
      destruct (is_line_terminator c); [reflexivity|].
      now destruct (lazy_until_stars (d :: r')) as [[x rest]|].
  - destruct (is_line_terminator c); [reflexivity|].
    now destruct (lazy_until_stars r) as [[x rest]|].
Qed.

Lemma match_bold_newline (a b : jsstring) :
  match_bold (a ++ c_newline :: b)
  = match match_bold a with
    | Some (x, rest) => Some (x, rest ++ c_newline :: b)
    | None => None
    end.
Proof.
  destruct a as [|c [|d r]]; cbn [app match_bold].
  - now destruct b.
  - destruct (c =? c_star); reflexivity.
  - destruct ((c =? c_star) && (d =? c_star)); [|reflexivity].
    apply lazy_until_stars_newline.
Qed.

(** No bold text spans a newline: the text before a newline and the text
    after it are replaced as if each stood alone. *)
Lemma replace_bold_newline (n : nat) : forall a b : jsstring,
  (length a < n)%nat ->
  replace_bold (a ++ c_newline :: b) = replace_bold a ++ c_newline :: replace_bold b.
Proof.
  induction n as [|n IH]; intros a b Hlen; [lia|].
  rewrite (replace_bold_eq (a ++ c_newline :: b)), (replace_bold_eq a), match_bold_newline.
  destruct (match_bold a) as [[x rest]|] eqn:Hm.
  - apply match_bold_length in Hm.
    rewrite (IH rest b) by lia. now rewrite <- !app_assoc.
  - destruct a as [|c r]; cbn [app].
    + reflexivity.
    + cbn [length] in Hlen. now rewrite (IH r b) by lia.
Qed.

Lemma join_split (sep : N) (s : jsstring) : join [sep] (split sep s) = s.
Proof.
  induction s as [|c r IH]; [reflexivity|].
  cbn [split]. destruct (N.eqb_spec c sep) as [->|Hc].
  - destruct (split_nonempty sep r) as (w & ws & E). rewrite E in *.
    change (join [sep] ([] :: w :: ws)) with (sep :: join [sep] (w :: ws)).
    now rewrite IH.
  - destruct (split_nonempty sep r) as (w & ws & E). rewrite E in *.
    rewrite <- IH. now destruct ws.
Qed.

Lemma split_words (sep : N) (s : jsstring) :
  Forall (Forall (fun c => c <> sep)) (split sep s).
Proof.
  induction s as [|c r IH]; [repeat constructor|].
  cbn [split]. destruct (N.eqb_spec c sep) as [->|Hc].
  - constructor; [constructor|exact IH].
  - destruct (split sep r) as [|w ws]; [repeat constructor; exact Hc|].
    apply Forall_cons in IH as [Hw Hws]. repeat constructor; assumption.
Qed.

Lemma formatMessageContent_join (line : jsstring) (lines : list jsstring) :
  formatMessageContent (join [c_newline] (line :: lines))
  = join br_tag (List.map formatMessageContent (line :: lines)).
Proof.
  revert line. induction lines as [|l lines IH]; intros line; [reflexivity|].
  change (join [c_newline] (line :: l :: lines))
    with (line ++ c_newline :: join [c_newline] (l :: lines)).
  unfold formatMessageContent at 1.
  rewrite (replace_bold_newline (S (length line))) by lia.
  rewrite replace_newlines_app.
  change (replace_newlines (c_newline :: replace_bold (join [c_newline] (l :: lines))))
    with (br_tag ++ formatMessageContent (join [c_newline] (l :: lines))).
  rewrite IH. reflexivity.
Qed.

(** X7.  [formatMessageContent] formats the lines of the content one by one
    and puts a [<br>] between two of them, where the newline was: the
    result is that of [content.split('\n').map(formatMessageContent)
    .join('<br>')].  The lines are the texts between the newlines, so none
    of them holds a newline, and the result holds none either.  With one
    line, there is no [<br>] but what the content itself spells out. *)
Theorem formatMessageContent_lines (content : jsstring) :
  formatMessageContent content
  = join br_tag (List.map formatMessageContent (split c_newline content))
  /\ join [c_newline] (split c_newline content) = content
  /\ Forall (Forall (fun c => c <> c_newline)) (split c_newline content)
  /\ Forall (fun c => c <> c_newline) (formatMessageContent content)
  /\ length (split c_newline content)
     = S (length (List.filter (fun c => c =? c_newline) content))
  /\ formatMessageContent (u "a" ++ [c_newline] ++ u "**b**" ++ [c_newline])
     = u "a<br><strong>b</strong><br>".
Proof.
  split; [|split; [|split; [|split; [|split]]]].
  - rewrite <- (join_split c_newline content) at 1.
    destruct (split_nonempty c_newline content) as (w & ws & ->).
    apply formatMessageContent_join.
  - apply join_split.
  - apply split_words.
  - unfold formatMessageContent, replace_newlines.
    induction (replace_bold content) as [|c r IH]; [constructor|].
    cbn [flat_map]. apply Forall_app. split; [|exact IH].
    destruct (N.eqb_spec c c_newline) as [E|Hne].
    + unfold br_tag, c_newline. repeat constructor; discriminate.
    + constructor; [exact Hne|constructor].
  - induction content as [|c r IH]; [reflexivity|].
    cbn [split List.filter]. destruct (c =? c_newline).
    + cbn [length]. now rewrite IH.
    + destruct (split_nonempty c_newline r) as (w & ws & E). rewrite E in *.
      exact IH.
  - reflexivity.
Qed.

(** On ASCII text the platform's upper-casing of one code unit is
    [ascii_upper]. *)
Lemma upper_conforms_unit up c :
  upper_conforms up -> is_ascii c -> up [c] = [ascii_upper c].
Proof. intros Hup Hc. rewrite Hup; [reflexivity|]. now constructor. Qed.

Lemma ascii_upper_ascii c : is_ascii c -> is_ascii (ascii_upper c).
Proof.
  unfold is_ascii, ascii_upper. intros Hc.
  destruct ((97 <=? c) && (c <=? 122)); lia.
Qed.

Lemma ascii_upper_idem c : ascii_upper (ascii_upper c) = ascii_upper c.
Proof.
  unfold ascii_upper.
  destruct (N.leb_spec 97 c), (N.leb_spec c 122); cbn [andb];
    destruct (N.leb_spec 97 c), (N.leb_spec c 122); cbn [andb]; try reflexivity; try lia.
  destruct (N.leb_spec 97 (c - 32)), (N.leb_spec (c - 32) 122); cbn [andb];
    try reflexivity; lia.
Qed.

Lemma ascii_upper_separator c :
  is_ascii c -> ascii_upper c = c_underscore \/ ascii_upper c = c_space ->
  c = c_underscore \/ c = c_space.
Proof.
  unfold ascii_upper, c_underscore, c_space.
  intros _.
  destruct (N.leb_spec 97 c), (N.leb_spec c 122); cbn [andb]; intros [E|E]; lia.
Qed.

Section AsciiLabels.
Variable toUpperCase : jsstring -> jsstring.
Hypothesis conforms : upper_conforms toUpperCase.

(** On an ASCII text [title_words] works code unit by code unit. *)
Lemma title_words_ascii (s : jsstring) : forall start : bool,
  Forall is_ascii s ->
  length (title_words toUpperCase start s) = length s
  /\ Forall is_ascii (title_words toUpperCase start s)
  /\ ~ In c_underscore (title_words toUpperCase start s)
  /\ title_words toUpperCase start (title_words toUpperCase start s)
     = title_words toUpperCase start s.
Proof.
  induction s as [|c r IH]; intros start Hs.
  - repeat split; [constructor|intros []].
  - apply Forall_cons in Hs as [Hc Hr].
    cbn [title_words].
    destruct (N.eqb c c_underscore || N.eqb c c_space) eqn:Hsep.
    + destruct (IH true Hr) as (Hlen & Hasc & Hno & Hidem).
      split; [simpl; now rewrite Hlen|].
      split; [constructor; [unfold is_ascii, c_space; lia|exact Hasc]|].
      split; [intros [H|H]; [discriminate|now apply Hno]|].
      cbn [title_words].
      change (N.eqb c_space c_underscore || N.eqb c_space c_space) with true.
      cbv iota. now rewrite Hidem.
    + destruct (IH false Hr) as (Hlen & Hasc & Hno & Hidem).
      assert (Hhead : (if start then toUpperCase [c] else [c])
                      = [if start then ascii_upper c else c]).
      { destruct start; [now apply upper_conforms_unit|reflexivity]. }
      rewrite Hhead. cbn [app].
      set (d := if start then ascii_upper c else c).
      assert (Hd : is_ascii d).
      { subst d. destruct start; [now apply ascii_upper_ascii|exact Hc]. }
      assert (Hdsep : N.eqb d c_underscore || N.eqb d c_space = false).
      { apply orb_false_iff in Hsep as [Hu Hsp].
        apply N.eqb_neq in Hu, Hsp.
        apply orb_false_iff. subst d. destruct start.
        - split; apply N.eqb_neq; intros E;
            destruct (ascii_upper_separator c Hc) as [E'|E']; auto.
        - split; now apply N.eqb_neq. }
      split; [simpl; now rewrite Hlen|].
      split; [now constructor|].
      split.
      { intros [H|H]; [|now apply Hno].
        apply orb_false_iff in Hdsep as [Hu _]. apply N.eqb_neq in Hu. exact (Hu H). }
      cbn [title_words]. rewrite Hdsep.
      assert (Hagain : (if start then toUpperCase [d] else [d]) = [d]).
      { destruct start; [|reflexivity].
        rewrite (upper_conforms_unit toUpperCase d conforms Hd).
        subst d. now rewrite ascii_upper_idem. }
      rewrite Hagain. cbn [app]. now rewrite Hidem.
Qed.

(** X8.  The label of an ASCII category or key is as long as the key, holds
    no underscore, and is its own label: formatting twice changes nothing.
    [formatLabel] gives the same label. *)
Theorem formatCategory_ascii (category : jsstring) :
  Forall is_ascii category ->
  length (formatCategory toUpperCase category) = length category
  /\ ~ In c_underscore (formatCategory toUpperCase category)
  /\ formatCategory toUpperCase (formatCategory toUpperCase category)
     = formatCategory toUpperCase category
  /\ formatLabel toUpperCase category = formatCategory toUpperCase category.
Proof.
  intros Hs.
  rewrite !(formatCategory_title toUpperCase) by exact conforms.
  destruct (title_words_ascii category true Hs) as (Hlen & _ & Hno & Hidem).
  repeat split; assumption || reflexivity.
Qed.
End AsciiLabels.

(** ** One turn of a chat *)

Lemma trim_start_nil (s : jsstring) : trim_start s = [] <-> blank s = true.
Proof.
  unfold blank. induction s as [|c r IH]; cbn [trim_start forallb]; [tauto|].
  destruct (is_js_space c); cbn [andb]; [exact IH|].
  split; discriminate.
Qed.

Lemma trim_start_head (s : jsstring) c r : trim_start s = c :: r -> is_js_space c = false.
Proof.
  induction s as [|d s IH]; cbn [trim_start]; [discriminate|].
  destruct (is_js_space d) eqn:E; [exact IH|].
  intros H. injection H as -> _. exact E.
Qed.

Lemma blank_rev (s : jsstring) : blank (rev s) = blank s.
Proof.
  unfold blank. induction s as [|c r IH]; [reflexivity|].
  cbn [rev forallb]. rewrite forallb_app, IH. cbn [forallb].
  rewrite andb_true_r. apply andb_comm.
Qed.

(** [trim] empties exactly the texts of white space. *)
Lemma trim_nil (s : jsstring) : trim s = [] <-> blank s = true.
Proof.
  unfold trim. rewrite <- trim_start_nil.
  destruct (trim_start s) as [|c r] eqn:E; [tauto|].
  split; [|discriminate].
  intros H. exfalso.
  assert (Hb : blank (rev (c :: r)) = true).
  { apply trim_start_nil.
    destruct (trim_start (rev (c :: r))) as [|x l]; [reflexivity|].
    cbn [rev] in H. now destruct (rev l). }
  rewrite blank_rev in Hb. unfold blank in Hb. cbn [forallb] in Hb.
  rewrite (trim_start_head s c r E) in Hb. discriminate.
Qed.

(** X9.  A turn of either chat on an input of white space does nothing at
    all: no message is shown, no request leaves, the input keeps its text.
    On any other input, however the request ends, one request leaves, two
    messages are appended to the display (the user's, then the reply or the
    apology), and the input ends empty and enabled. *)
Theorem chat_turn_blank_or_sent (reply : chat_reply) (p : page) (d : Detail.page) :
  (blank (chatInputMain_value p) = true -> handleChat reply p = p)
  /\ (blank (chatInputMain_value p) = false ->
      length (requests (handleChat reply p)) = S (length (requests p))
      /\ length (chatMessagesMain (handleChat reply p)) = S (S (length (chatMessagesMain p)))
      /\ chatInputMain_value (handleChat reply p) = []
      /\ chat_disabled (handleChat reply p) = false)
  /\ (blank (Detail.chatInput_value d) = true -> Detail.sendMessage reply d = d)
  /\ (blank (Detail.chatInput_value d) = false ->
      length (Detail.requests (Detail.sendMessage reply d)) = S (length (Detail.requests d))
      /\ length (Detail.chatMessages (Detail.sendMessage reply d))
         = S (S (length (Detail.chatMessages d)))
      /\ Detail.chatInput_value (Detail.sendMessage reply d) = []
      /\ Detail.chat_disabled (Detail.sendMessage reply d) = false).
Proof.
  unfold handleChat, Detail.sendMessage.
  pose proof (trim_nil (chatInputMain_value p)) as Hp.
  pose proof (trim_nil (Detail.chatInput_value d)) as Hd.
  destruct (trim (chatInputMain_value p)) as [|c q];
    destruct (trim (Detail.chatInput_value d)) as [|c' q'];
    (split; [|split; [|split]]); intros Hb.
  all: try reflexivity.
  all: try (apply Hp in Hb; discriminate).
  all: try (apply Hd in Hb; discriminate).
  all: try (rewrite (proj1 Hp eq_refl) in Hb; discriminate).
  all: try (rewrite (proj1 Hd eq_refl) in Hb; discriminate).
  all: destruct reply as [m| |m|r|m|[[| | |s| |]|] m];
    cbn; rewrite ?length_app; cbn; repeat split; lia.
Qed.

(** ** The extracted information *)

Section Extracted.
Variable toUpperCase : jsstring -> jsstring.
Variable fmul : R -> R -> R.
Variable toFixed1 : R -> jsstring.

(** The row of an entry that gets one. *)
Lemma extracted_item_row (kv : jsstring * extracted_value) :
  extracted_item toUpperCase kv
  = if has_row kv
    then [match snd kv with
          | EList items => ListRow (formatLabel toUpperCase (fst kv)) items
          | EScalar v => ScalarRow (formatLabel toUpperCase (fst kv)) (default [] v)
          end]
    else [].
Proof.
  unfold extracted_item, has_row. destruct (snd kv) as [[[|c v]|]|items]; reflexivity.
Qed.

(** X10.  Both copies of the result display list the extracted information
    in the order of the object, one row for each entry whose value is a
    non-empty string or an array (an empty array too), and no row for a
    [null] or an empty string. *)
Theorem displayResults_extracted (result : ProcessResult) (p : page)
  (es : list (jsstring * extracted_value)) :
  extracted_info result = Some es ->
  exists view view',
    results (displayResults toUpperCase fmul toFixed1 result p) = Some view
    /\ results (AppStatic.displayResults toUpperCase fmul toFixed1 result p) = Some view'
    /\ extractedInfo view' = extractedInfo view
    /\ extractedInfo view
       = List.map
           (fun kv => match snd kv with
                      | EList items => ListRow (formatLabel toUpperCase (fst kv)) items
                      | EScalar v => ScalarRow (formatLabel toUpperCase (fst kv)) (default [] v)
                      end)
           (List.filter has_row es)
    /\ (length (extractedInfo view) <= length es)%nat.
Proof.
  intros Hes. eexists. eexists.
  split; [reflexivity|]. split; [reflexivity|].
  cbn [extractedInfo]. rewrite Hes.
  split; [reflexivity|].
  assert (Hrows : forall l : list (jsstring * extracted_value),
            flat_map (extracted_item toUpperCase) l
            = List.map
                (fun kv => match snd kv with
                           | EList items => ListRow (formatLabel toUpperCase (fst kv)) items
                           | EScalar v =>
                               ScalarRow (formatLabel toUpperCase (fst kv)) (default [] v)
                           end)
                (List.filter has_row l)).
  { induction l as [|kv l IH]; [reflexivity|].
    cbn [flat_map List.filter]. rewrite IH, extracted_item_row.
    destruct (has_row kv); reflexivity. }
  split; [apply Hrows|].
  rewrite Hrows, length_map. apply List.filter_length_le.
Qed.
End Extracted.

(** ** The upload *)

Lemma same_globals_refl p : same_globals p p.
Proof. repeat split. Qed.

Lemma same_globals_trans p q r : same_globals p q -> same_globals q r -> same_globals p r.
Proof.
  intros (A1 & A2 & A3 & A4 & A5) (B1 & B2 & B3 & B4 & B5).
  repeat split; congruence.
Qed.

Lemma showToast_globals message type p : same_globals p (showToast message type p).
Proof. repeat split. Qed.

Lemma show_alerts_globals l : forall p, same_globals p (show_alerts l p).
Proof.
  induction l as [|a l IH]; intros p; [apply same_globals_refl|].
  apply (same_globals_trans _ (showToast a ToastWarning p)); [apply showToast_globals|].
  apply IH.
Qed.

Lemma same_but_recent_refl p : same_but_recent p p.
Proof. repeat split. Qed.

Lemma paired_app_bounded (n : nat) : forall h h' : list chat_message,
  (length h <= n)%nat -> paired h = true -> paired h' = true -> paired (h ++ h') = true.
Proof.
  induction n as [|n IH]; intros h h' Hlen Hh Hh'.
  - destruct h; [exact Hh'|cbn in Hlen; lia].
  - destruct h as [|a [|b h]]; [exact Hh'|discriminate|].
    cbn [paired app] in *.
    destruct (role a); [|discriminate]. destruct (role b); [discriminate|].
    apply IH; [cbn in Hlen; lia|exact Hh|exact Hh'].
Qed.

Lemma paired_app (h h' : list chat_message) :
  paired h = true -> paired h' = true -> paired (h ++ h') = true.
Proof. apply (paired_app_bounded (length h)). lia. Qed.

Section Upload.
Variable toUpperCase : jsstring -> jsstring.
Variable number_text : jsstring -> jsstring.
Variable number_is_zero : jsstring -> bool.
Variable Math_log : R -> R.
Variable fdiv : R -> R -> R.
Variable fmul : R -> R -> R.
Variable Number_toString : R -> jsstring.
Variable toFixed1 : R -> jsstring.
Variable error_message : js_error -> page -> jsstring.

Abbreviation handleFile' := (handleFile Math_log fdiv fmul Number_toString).
Abbreviation displayResults' := (displayResults toUpperCase fmul toFixed1).
Abbreviation saveToRecent' := (saveToRecent toUpperCase number_text number_is_zero).
Abbreviation displayRecentDocuments' := (displayRecentDocuments toUpperCase number_is_zero).
Abbreviation handleUpload_settle' :=
  (handleUpload_settle toUpperCase number_text number_is_zero fmul toFixed1 error_message).

Lemma displayResults_globals result p : same_globals p (displayResults' result p).
Proof.
  unfold displayResults.
  destruct (alerts result) as [l|]; [|repeat split].
  destruct (0 <? length l)%nat; [|repeat split].
  destruct (show_alerts_globals l p) as (A1 & A2 & A3 & A4 & A5).
  repeat split; assumption.
Qed.

(** The toasts of the result display: the alerts, in order. *)
Lemma displayResults_toasts result p :
  toasts (displayResults' result p) = toasts p ++ alert_toasts result.
Proof.
  unfold alert_toasts, displayResults. cbn [toasts set_results].
  destruct (alerts result) as [[|a l]|]; cbn [default List.map];
    try (now rewrite app_nil_r).
  change (0 <? length (a :: l))%nat with true. cbv iota.
  apply toasts_show_alerts.
Qed.

Lemma displayRecentDocuments_but_recent p :
  same_but_recent p (final (displayRecentDocuments' p)).
Proof.
  unfold displayRecentDocuments.
  destruct (recentDocs p); [|apply same_but_recent_refl].
  destruct (length_is_zero number_is_zero (recentDocuments p)) as [[|]|];
    try (repeat split; fail).
  destruct (recentDocuments p) as [| | | |docs|]; try (repeat split; fail).
  destruct (recent_items toUpperCase docs); repeat split.
Qed.

Lemma saveToRecent_but_recent now result p :
  same_but_recent p (final (saveToRecent' now result p)).
Proof.
  unfold saveToRecent.
  destruct (recentDocuments p) as [| | | |docs|]; try apply same_but_recent_refl.
  match goal with
  | |- same_but_recent p (final (displayRecentDocuments _ _ ?q)) =>
      destruct (displayRecentDocuments_but_recent q)
        as (A1 & A2 & A3 & A4 & A5 & A6 & A7 & A8 & A9 & A10)
  end.
  repeat split; assumption.
Qed.

(** On a sequence that is no array [saveToRecent] raises at once. *)
Lemma saveToRecent_not_array now result p :
  (forall docs, recentDocuments p <> JArr docs) ->
  saveToRecent' now result p = Throw TypeError p.
Proof.
  intros Hno. unfold saveToRecent.
  destruct (recentDocuments p) as [| | | |docs|]; try reflexivity.
  now elim (Hno docs).
Qed.

(** What [handleFile] stages passed the validation. *)
Lemma handleFile_currentFile file p :
  currentFile (handleFile' file p) = currentFile p
  \/ (currentFile (handleFile' file p) = Some file /\ acceptable file).
Proof.
  unfold handleFile. rewrite <- negb_orb.
  destruct (includes validTypes (file_type file) || name_matches (file_name file)) eqn:Ht;
    cbn [negb]; [|now left].
  destruct (Z.gtb_spec (file_size file) max_size) as [Hs|Hs]; [now left|].
  right. split; [reflexivity|]. split; [now apply type_allowed_test|].
  unfold max_size in Hs. lia.
Qed.

Lemma handleFile_globals file p :
  recentDocuments (handleFile' file p) = recentDocuments p
  /\ localStorage (handleFile' file p) = localStorage p
  /\ mainChatHistory (handleFile' file p) = mainChatHistory p
  /\ requests (handleFile' file p) = requests p.
Proof.
  unfold handleFile.
  destruct (negb _ && negb _); [repeat split|].
  destruct (file_size file >? max_size)%Z; repeat split.
Qed.

(** X11.  An upload that does not end with a result: the request carried the
    staged file; one error toast tells the reason, with the [detail] of the
    body if it has one; the file stays staged and the button is enabled
    again, so the upload can be repeated; the results, the recent list, the
    storage and the timers are as before. *)
Theorem handleUpload_failure (now : jsstring) (reply : upload_reply) (w : main_page)
  (file : File) :
  currentFile (core w) = Some file ->
  (forall result, reply <> UploadOk result) ->
  let w' := handleUpload_settle' now reply (handleUpload_send w) in
  upload_requests w' = upload_requests w ++ [file]
  /\ toasts (core w')
     = toasts (core w)
         ++ [{| toast_message := error_prefix ++ upload_failure_message reply;
                toast_type := ToastError |}]
  /\ currentFile (core w') = Some file
  /\ uploadBtn_disabled (core w') = false
  /\ uploadBtn_text w' = text_process_document
  /\ uploadSpinner_hidden w' = true
  /\ results (core w') = results (core w)
  /\ recentDocuments (core w') = recentDocuments (core w)
  /\ localStorage (core w') = localStorage (core w)
  /\ reset_timers w' = reset_timers w
  /\ category_requests w' = category_requests w.
Proof.
  intros Hfile Hfail. unfold handleUpload_send. rewrite Hfile.
  destruct reply as [message|detail|message|result]; [| | |now elim (Hfail result)];
    cbn; rewrite ?Hfile; repeat split.
Qed.

(** How [handleUpload] ends on a result, by what [saveToRecent] does. *)
Lemma handleUpload_settle_ok now result w :
  exists p,
    same_but_recent (displayResults' result (core w)) p
    /\ ((saveToRecent' now result (displayResults' result (core w)) = Normal p
         /\ handleUpload_settle' now (UploadOk result) w
            = handleUpload_finally
                (set_reset_timers (S (reset_timers w))
                   (loadDocumentsByCategory_send
                      (set_core (showToast msg_processed ToastSuccess p) w))))
        \/ (exists e,
              saveToRecent' now result (displayResults' result (core w)) = Throw e p
              /\ handleUpload_settle' now (UploadOk result) w
                 = handleUpload_finally (handleUpload_catch (error_message e p) p w))).
Proof.
  pose proof (saveToRecent_but_recent now result (displayResults' result (core w))) as Hf.
  unfold handleUpload_settle.
  destruct (saveToRecent' now result (displayResults' result (core w))) as [p|e p].
  - exists p. split; [exact Hf|]. left. split; reflexivity.
  - exists p. split; [exact Hf|]. right. exists e. split; reflexivity.
Qed.


Variable toFixed0 : R -> jsstring.
Variable uri_error_message : jsstring.
Variable Date_of : option json -> option Z.
Variable toLocaleDateString : option Z -> jsstring.
Variable toLocaleTimeString : option Z -> jsstring.
Variable inherited_text : jsstring -> jsstring.

Abbreviation step' :=
  (step toUpperCase number_text number_is_zero Math_log fdiv fmul Number_toString toFixed1
     toFixed0 error_message uri_error_message Date_of toLocaleDateString toLocaleTimeString
     inherited_text).
Abbreviation run' :=
  (run toUpperCase number_text number_is_zero Math_log fdiv fmul Number_toString toFixed1
     toFixed0 error_message uri_error_message Date_of toLocaleDateString toLocaleTimeString
     inherited_text).

(** What every step keeps, every sequence of events keeps. *)
Lemma run_invariant (Inv : main_page -> Prop) :
  (forall e w w', Inv w -> step' e w = Some w' -> Inv w') ->
  forall events w, Inv w -> Inv (run' events w).
Proof.
  intros Hstep events. unfold run.
  induction events as [|e events IH]; intros w Hw; [exact Hw|].
  cbn [fold_left]. apply IH.
  destruct (step' e w) as [w'|] eqn:E; [|exact Hw].
  exact (Hstep e w w' Hw E).
Qed.


Abbreviation handleSearch_send' := (handleSearch_send uri_error_message).
Abbreviation displayDocumentsByCategory' :=
  (displayDocumentsByCategory toUpperCase Date_of toLocaleDateString toLocaleTimeString
     inherited_text).


Lemma handleUpload_settle_frames now reply w :
  currentFile (core (handleUpload_settle' now reply w)) = currentFile (core w)
  /\ mainChatHistory (core (handleUpload_settle' now reply w)) = mainChatHistory (core w)
  /\ requests (core (handleUpload_settle' now reply w)) = requests (core w)
  /\ upload_requests (handleUpload_settle' now reply w) = upload_requests w
  /\ chats_pending (handleUpload_settle' now reply w) = chats_pending w.
Proof.
  destruct reply as [message|detail|message|result]; try (repeat split; fail).
  destruct (displayResults_globals result (core w)) as (G1 & _ & _ & G4 & G5).
  destruct (handleUpload_settle_ok now result w)
    as (p & (F1 & F2 & _ & _ & _ & _ & _ & _ & _ & F10) & [[_ ->]|(e & _ & ->)]);
    cbn; repeat split; congruence.
Qed.

Lemma step_frames e w w' :
  step' e w = Some w' ->
  match e with
  | Drop _ | FileChange _ | UploadClick | ResetTimer => True
  | _ => currentFile (core w') = currentFile (core w)
         /\ upload_requests w' = upload_requests w
  end
  /\ match e with
     | UploadAnswer _ _ => True
     | _ => recentDocuments (core w') = recentDocuments (core w)
            /\ localStorage (core w') = localStorage (core w)
     end
  /\ match e with
     | ChatClick | ChatKeyPress _ | ChatAnswer _ _ => True
     | _ => mainChatHistory (core w') = mainChatHistory (core w)
            /\ requests (core w') = requests (core w)
            /\ chats_pending w' = chats_pending w
     end.
Proof.
  intros Hstep.
  destruct e; cbn [step] in Hstep.
  - injection Hstep as <-. repeat split.
  - injection Hstep as <-. repeat split.
  - injection Hstep as <-. unfold on_drop.
    destruct files as [|file files]; [repeat split|].
    destruct (handleFile_globals file (core (set_dragover false w))) as (A & B & C & D).
    repeat split; assumption.
  - injection Hstep as <-. unfold handleFileSelect.
    destruct files as [|file files]; [repeat split|].
    destruct (handleFile_globals file (core w)) as (A & B & C & D).
    repeat split; assumption.
  - injection Hstep as <-. unfold handleUpload_send.
    destruct (currentFile (core w)); repeat split.
  - destruct (uploads_pending w) as [|n]; [discriminate|]. injection Hstep as <-.
    destruct (handleUpload_settle_frames now reply (set_uploads_pending n w))
      as (A & B & C & D & E).
    repeat split; assumption.
  - destruct (reset_timers w) as [|n]; [discriminate|]. injection Hstep as <-.
    repeat split.
  - destruct (categories_pending w) as [|n]; [discriminate|]. injection Hstep as <-.
    unfold loadDocumentsByCategory_settle, displayDocumentsByCategory.
    destruct reply as [|[[|entry entries]|]]; cbn [categoriesView set_categories_pending];
      destruct (categoriesView w); repeat split.
  - injection Hstep as <-. repeat split.
  - injection Hstep as <-. unfold handleChat_start.
    destruct (trim (chatInputMain_value (core w))); repeat split.
  - injection Hstep as <-. unfold handleChat_start.
    destruct (bool_decide (key = text_Enter)); [|repeat split].
    destruct (trim (chatInputMain_value (core w))); repeat split.
  - destruct (chats_pending w !! i) as [query|]; [|discriminate]. injection Hstep as <-.
    destruct reply as [m| |m|r|m|[[| | |s| |]|] m]; repeat split.
  - destruct (searchInput_value w); [|discriminate]. injection Hstep as <-. repeat split.
  - injection Hstep as <-. unfold handleSearch_send, handleSearch_catch.
    destruct (searchInput_value w) as [typed|]; [|repeat split].
    destruct (trim typed) as [|c query]; [repeat split|].
    destruct (searchResults w) eqn:E; [|repeat split].
    destruct (encodeURIComponent (c :: query)); repeat split.
  - destruct (searches_pending w) as [|n]; [discriminate|]. injection Hstep as <-.
    unfold handleSearch_settle, handleSearch_catch, displaySearchResults.
    destruct reply as [message| |message|[[|r rs]|]];
      cbn [searchResults set_searches_pending on_core set_core];
      destruct (searchResults w); repeat split.
Qed.


Lemma files_validated_step e w w' :
  files_validated w -> step' e w = Some w' -> files_validated w'.
Proof.
  intros [Hsent Hstaged] Hstep.
  pose proof (step_frames e w w' Hstep) as (Hfiles & _ & _).
  destruct e; cbn [step] in Hstep;
    try (split; [rewrite (proj2 Hfiles)|rewrite (proj1 Hfiles)]; assumption).
  - injection Hstep as <-. unfold on_drop.
    destruct files as [|file files]; [split; assumption|].
    split; [exact Hsent|]. cbn [core on_core set_core].
    destruct (handleFile_currentFile file (core (set_dragover false w))) as [E|[E Hacc]];
      rewrite E; [exact Hstaged|].
    intros f Hf. injection Hf as <-. exact Hacc.
  - injection Hstep as <-. unfold handleFileSelect.
    destruct files as [|file files]; [split; assumption|].
    split; [exact Hsent|]. cbn [core on_core set_core].
    destruct (handleFile_currentFile file (core w)) as [E|[E Hacc]];
      rewrite E; [exact Hstaged|].
    intros f Hf. injection Hf as <-. exact Hacc.
  - injection Hstep as <-. unfold handleUpload_send.
    destruct (currentFile (core w)) as [file|] eqn:E; [|split; [exact Hsent|now rewrite E]].
    split.
    + cbn. apply Forall_app. split; [exact Hsent|]. constructor; [|constructor].
      now apply Hstaged.
    + cbn. rewrite E. exact Hstaged.
  - destruct (reset_timers w) as [|n]; [discriminate|]. injection Hstep as <-.
    split; [exact Hsent|]. cbn. discriminate.
Qed.

(** X12.  No file reaches the server, and none is staged, that did not pass
    the validation of [handleFile]: whatever the user drops, selects and
    clicks and however the requests end, every file sent for processing has
    an allowed type or extension and at most 10 MiB. *)
Theorem uploads_are_validated (w0 : main_page) (events : list event) :
  fresh w0 ->
  Forall acceptable (upload_requests (run' events (DOMContentLoaded w0)))
  /\ forall file,
       currentFile (core (run' events (DOMContentLoaded w0))) = Some file ->
       acceptable file.
Proof.
  intros Hfresh.
  apply (run_invariant files_validated files_validated_step).
  split; cbn.
  - rewrite (fresh_upload_requests w0 Hfresh). constructor.
  - rewrite (fresh_currentFile w0 Hfresh). discriminate.
Qed.

Lemma recent_in_order_saved now result p :
  recent_in_order p ->
  recent_in_order (final (saveToRecent' now result p))
  /\ persisted number_text (final (saveToRecent' now result p))
  /\ exists p', saveToRecent' now result p = Normal p'.
Proof.
  intros (rs & Hrs & Hlen).
  destruct (saveToRecent_final toUpperCase number_text number_is_zero now result p _ Hrs)
    as [Hseq _].
  split; [|split].
  - exists (take 10 ((now, result) :: rs)). split.
    + rewrite Hseq. f_equal. unfold entries_of.
      apply (firstn_map (fun nr : jsstring * ProcessResult => recent_entry (snd nr) (fst nr))
               10 ((now, result) :: rs)).
    + rewrite length_take. lia.
  - now apply (saveToRecent_persisted toUpperCase number_text number_is_zero now result p
                 (entries_of rs)).
  - now apply (saveToRecent_returns toUpperCase number_text number_is_zero now result p rs).
Qed.

Lemma recent_in_order_step e w w' :
  recent_in_order (core w) -> step' e w = Some w' -> recent_in_order (core w').
Proof.
  intros Hinv Hstep.
  pose proof (step_frames e w w' Hstep) as (_ & Hrecent & _).
  destruct e; cbn [step] in Hstep;
    try (destruct Hinv as (rs & Hrs & Hlen);
         exists rs; split; [now rewrite (proj1 Hrecent)|exact Hlen]).
  destruct (uploads_pending w) as [|n]; [discriminate|]. injection Hstep as <-.
  destruct reply as [message|detail|message|result]; try exact Hinv.
  assert (Hshown : recent_in_order (displayResults' result (core w))).
  { destruct Hinv as (rs & Hrs & Hlen). exists rs. split; [|exact Hlen].
    destruct (displayResults_globals result (core w)) as (_ & -> & _). exact Hrs. }
  destruct (recent_in_order_saved now result _ Hshown) as (Hsaved & _ & p' & Hp').
  unfold handleUpload_settle. cbn [core set_uploads_pending].
  rewrite Hp' in *. exact Hsaved.
Qed.

(** X13.  On the main page, whose script never loads the stored list, the
    recent list is at all times a sequence of at most ten entries recorded
    by [saveToRecent].  So an upload answered with a result never fails on
    the client side: after the toasts of its alerts comes the success
    toast, the list is stored, the documents by category are requested
    again and the reset of the upload area is scheduled. *)
Theorem upload_with_result_succeeds (w0 : main_page) (events : list event)
  (now : jsstring) (result : ProcessResult) :
  fresh w0 ->
  let w := run' events (DOMContentLoaded w0) in
  let w' := handleUpload_settle' now (UploadOk result) w in
  recent_in_order (core w)
  /\ recent_in_order (core w')
  /\ toasts (core w')
     = toasts (core w) ++ alert_toasts result
         ++ [{| toast_message := msg_processed; toast_type := ToastSuccess |}]
  /\ persisted number_text (core w')
  /\ category_requests w' = S (category_requests w)
  /\ reset_timers w' = S (reset_timers w).
Proof.
  intros Hfresh w w'.
  assert (Hinv : recent_in_order (core w)).
  { apply (run_invariant (fun w => recent_in_order (core w)) recent_in_order_step).
    exists []. cbn. split; [apply (fresh_recentDocuments w0 Hfresh)|lia]. }
  split; [exact Hinv|].
  assert (Hshown : recent_in_order (displayResults' result (core w))).
  { destruct Hinv as (rs & Hrs & Hlen). exists rs. split; [|exact Hlen].
    destruct (displayResults_globals result (core w)) as (_ & -> & _). exact Hrs. }
  destruct (recent_in_order_saved now result _ Hshown) as (Hsaved & Hstored & p' & Hp').
  pose proof (saveToRecent_but_recent now result (displayResults' result (core w))) as Hf.
  subst w'. unfold handleUpload_settle. rewrite Hp' in *. cbn [final] in *.
  destruct Hf as (_ & _ & _ & _ & Ht & _).
  cbn. repeat split; try assumption.
  rewrite Ht, displayResults_toasts, <- app_assoc. reflexivity.
Qed.

Lemma request_in_order_app history extra r :
  request_in_order history r -> request_in_order (history ++ extra) r.
Proof.
  intros (Hq & Hp & Hpre). repeat split; try assumption.
  now apply prefix_app_r.
Qed.

Lemma chat_in_order_start w :
  chat_in_order w -> chat_in_order (handleChat_start w).
Proof.
  intros (Hh & Hr & Hid & Hq). unfold handleChat_start.
  destruct (trim (chatInputMain_value (core w))) as [|c query]; [repeat split; assumption|].
  repeat split; cbn.
  - exact Hh.
  - apply Forall_app. split; [exact Hr|]. constructor; [|constructor].
    repeat split; [discriminate|exact Hh|reflexivity].
  - apply Forall_app. split; [exact Hid|]. repeat constructor.
  - apply Forall_app. split; [exact Hq|]. constructor; [discriminate|constructor].
Qed.

Lemma chat_in_order_step e w w' :
  chat_in_order w -> step' e w = Some w' -> chat_in_order w'.
Proof.
  intros Hinv Hstep.
  pose proof (step_frames e w w' Hstep) as (_ & _ & Hchat).
  destruct e; cbn [step] in Hstep;
    try (destruct Hinv as (I1 & I2 & I3 & I4);
         unfold chat_in_order;
         rewrite (proj1 Hchat), (proj1 (proj2 Hchat)), (proj2 (proj2 Hchat));
         repeat split; assumption).
  - injection Hstep as <-. now apply chat_in_order_start.
  - injection Hstep as <-.
    destruct (bool_decide (key = text_Enter)); [now apply chat_in_order_start|exact Hinv].
  - destruct (chats_pending w !! i) as [query|] eqn:E; [|discriminate].
    injection Hstep as <-.
    destruct Hinv as (Hh & Hr & Hid & Hq).
    assert (Hq' : Forall (fun q => q <> []) (delete i (chats_pending w))).
    { now apply Forall_delete. }
    destruct reply as [m| |m|response|m|[[| | |response| |]|] m];
      try (repeat split; assumption).
    all: repeat split; cbn; try assumption;
      [ apply paired_app; [exact Hh|reflexivity]
      | eapply Forall_impl; [exact Hr|]; intros r Hr0;
        now apply request_in_order_app ].
Qed.

(** X14.  The history of the global chat is at all times a sequence of
    complete exchanges, user message then assistant message, also when
    several requests are under way and their answers come in any order.
    Every request sent carried a query that is not empty, no document
    identifier, and a history of complete exchanges that the current history
    still begins with: nothing once sent as context is changed or dropped
    later. *)
Theorem chat_history_in_order (w0 : main_page) (events : list event) :
  fresh w0 ->
  let w := run' events (DOMContentLoaded w0) in
  paired (mainChatHistory (core w)) = true
  /\ Forall (fun r =>
               req_query r <> []
               /\ req_document_id r = None
               /\ paired (req_chat_history r) = true
               /\ req_chat_history r `prefix_of` mainChatHistory (core w))
       (requests (core w)).
Proof.
  intros Hfresh w.
  assert (Hinv : chat_in_order w).
  { apply (run_invariant chat_in_order chat_in_order_step).
    unfold chat_in_order. cbn.
    rewrite (fresh_mainChatHistory w0 Hfresh), (fresh_requests w0 Hfresh),
      (fresh_chats_pending w0 Hfresh).
    repeat split; constructor. }
  destruct Hinv as (Hh & Hr & Hid & _).
  split; [exact Hh|].
  apply Forall_forall. intros r Hin.
  rewrite Forall_forall in Hr, Hid.
  destruct (Hr r Hin) as (A & B & C). repeat split; auto.
Qed.


(** X15.  After an upload that ended with a result the file stays staged and
    the button enabled until the reset timer fires, a second later: a click
    in between sends the same file again. The reset then empties the upload
    area, also of a file chosen in between, and a click after it sends
    nothing. *)
Theorem upload_then_reset (now : jsstring) (result : ProcessResult) (w : main_page)
  (file : File) (files : list File) :
  currentFile (core w) = Some file ->
  recent_in_order (core w) ->
  let w1 := handleUpload_settle' now (UploadOk result) (handleUpload_send w) in
  currentFile (core w1) = Some file
  /\ uploadBtn_disabled (core w1) = false
  /\ reset_timers w1 = S (reset_timers w)
  /\ upload_requests (handleUpload_send w1) = upload_requests w ++ [file; file]
  /\ currentFile (core (resetUploadArea w1)) = None
  /\ uploadBtn_disabled (core (resetUploadArea w1)) = true
  /\ uploadArea (core (resetUploadArea w1)) = AreaPrompt
  /\ currentFile
       (core (resetUploadArea
                (handleFileSelect Math_log fdiv fmul Number_toString files w1))) = None
  /\ handleUpload_send (resetUploadArea w1) = resetUploadArea w1.
Proof.
  intros Hfile Hinv w1.
  assert (Hshown : recent_in_order
                     (displayResults' result (core (handleUpload_send w)))).
  { destruct Hinv as (rs & Hrs & Hlen). exists rs. split; [|exact Hlen].
    destruct (displayResults_globals result (core (handleUpload_send w))) as (_ & -> & _).
    unfold handleUpload_send. rewrite Hfile. exact Hrs. }
  destruct (recent_in_order_saved now result _ Hshown) as (_ & _ & p' & Hp').
  pose proof (saveToRecent_but_recent now result
                (displayResults' result (core (handleUpload_send w)))) as Hf.
  rewrite Hp' in Hf. cbn [final] in Hf. destruct Hf as (Hc & _).
  destruct (displayResults_globals result (core (handleUpload_send w))) as (Hc' & _).
  assert (Hstaged : currentFile p' = Some file).
  { rewrite Hc, Hc'. unfold handleUpload_send. rewrite Hfile. exact Hfile. }
  assert (Hw1 : w1 = handleUpload_finally
                       (set_reset_timers (S (reset_timers (handleUpload_send w)))
                          (loadDocumentsByCategory_send
                             (set_core (showToast msg_processed ToastSuccess p')
                                (handleUpload_send w))))).
  { subst w1. unfold handleUpload_settle. now rewrite Hp'. }
  assert (Hsent : upload_requests (handleUpload_send w) = upload_requests w ++ [file]
                  /\ reset_timers (handleUpload_send w) = reset_timers w).
  { unfold handleUpload_send. rewrite Hfile. split; reflexivity. }
  destruct Hsent as [Hsent Htimers].
  rewrite Hw1. cbn. rewrite Htimers.
  repeat split; [exact Hstaged|].
  match goal with
  | |- upload_requests (handleUpload_send ?x) = _ =>
      assert (Hx : currentFile (core x) = Some file) by exact Hstaged;
      unfold handleUpload_send at 1; rewrite Hx
  end.
  cbn. rewrite Hsent, <- app_assoc. reflexivity.
Qed.

End Upload.
(** ** The second copy with a stored text that is no array *)

Section StoredNoArray.
Variable toUpperCase : jsstring -> jsstring.
Variable number_text : jsstring -> jsstring.
Variable number_is_zero : jsstring -> bool.
Variable fmul : R -> R -> R.
Variable toFixed1 : R -> jsstring.
Variable error_message : js_error -> page -> jsstring.

Abbreviation AppJs_settle :=
  (AppJs.handleUpload_settle toUpperCase number_text number_is_zero fmul toFixed1
     error_message).
Abbreviation AppJs_uploads :=
  (AppJs.uploads_answered toUpperCase number_text number_is_zero fmul toFixed1
     error_message).

Lemma AppJs_displayRecentDocuments_frame p :
  recentDocuments (final (AppJs.displayRecentDocuments toUpperCase number_is_zero p))
  = recentDocuments p
  /\ localStorage (final (AppJs.displayRecentDocuments toUpperCase number_is_zero p))
     = localStorage p
  /\ toasts (final (AppJs.displayRecentDocuments toUpperCase number_is_zero p)) = toasts p.
Proof.
  unfold AppJs.displayRecentDocuments.
  destruct (length_is_zero number_is_zero (recentDocuments p)) as [[|]|];
    try (repeat split; fail).
  - destruct (recentDocs p); repeat split.
  - destruct (recentDocuments p) as [| | | |docs|] eqn:E;
      try (repeat split; [exact E]).
    destruct (recent_items toUpperCase docs); [destruct (recentDocs p)|];
      (repeat split; [exact E]).
Qed.

(** One upload answered with a result on a sequence that is no array: the
    result is displayed, [saveToRecent] raises, and the toast is an error
    toast. *)
Lemma AppJs_settle_no_array now result w :
  (forall docs, recentDocuments (core w) <> JArr docs) ->
  recentDocuments (core (AppJs_settle now (UploadOk result) w)) = recentDocuments (core w)
  /\ localStorage (core (AppJs_settle now (UploadOk result) w)) = localStorage (core w)
  /\ reset_timers (AppJs_settle now (UploadOk result) w) = reset_timers w
  /\ exists message,
       toasts (core (AppJs_settle now (UploadOk result) w))
       = toasts (core w) ++ [{| toast_message := error_prefix ++ message;
                                toast_type := ToastError |}].
Proof.
  intros Hno. unfold AppJs.handleUpload_settle, AppJs.saveToRecent.
  cbn [recentDocuments AppStatic.displayResults set_results].
  destruct (recentDocuments (core w)) as [| | | |docs|] eqn:E;
    try (cbn; rewrite E; repeat split; eexists; reflexivity).
  now elim (Hno docs).
Qed.

(** X16.  On the page of [src/app/static/app.js], when the storage holds a
    text that [JSON.parse] accepts but that is no array (such as [null] or
    [{}]), the listener of [DOMContentLoaded] makes the parsed value the
    sequence, and from then on every upload answered with a result ends in
    an error toast instead of the success toast: the result is displayed,
    but the sequence and the storage stay as they are and the upload area is
    never reset. *)
Theorem AppJs_stored_no_array (w : main_page) (text : jsstring) (v : json)
  (rs : list (jsstring * ProcessResult)) :
  localStorage (core w) !! key_recentDocuments = Some text ->
  JSON_parse text = Some v ->
  (forall docs, v <> JArr docs) ->
  let w1 := AppJs.DOMContentLoaded toUpperCase number_is_zero w in
  let w2 := AppJs_uploads rs w1 in
  recentDocuments (core w1) = v
  /\ recentDocuments (core w2) = v
  /\ localStorage (core w2) = localStorage (core w)
  /\ reset_timers w2 = reset_timers w
  /\ exists messages,
       length messages = length rs
       /\ toasts (core w2)
          = toasts (core w)
              ++ List.map (fun m => {| toast_message := error_prefix ++ m;
                                       toast_type := ToastError |}) messages.
Proof.
  intros Hstored Hparse Hno w1 w2.
  assert (Htext : text <> []).
  { intros ->. vm_compute in Hparse. discriminate. }
  assert (Hw1 : recentDocuments (core w1) = v
                /\ localStorage (core w1) = localStorage (core w)
                /\ toasts (core w1) = toasts (core w)
                /\ reset_timers w1 = reset_timers w).
  { subst w1. unfold AppJs.DOMContentLoaded, AppJs.loadRecentDocuments.
    cbn [core on_core set_core reset_timers]. rewrite Hstored.
    destruct text as [|c text]; [now elim Htext|]. rewrite Hparse.
    destruct (AppJs_displayRecentDocuments_frame (set_recentDocuments v (core w)))
      as (-> & -> & ->).
    repeat split. }
  destruct Hw1 as (Hv & Hs & Ht & Hr).
  split; [exact Hv|].
  subst w2. rewrite <- Hs, <- Ht, <- Hr.
  clearbody w1. clear Hs Ht Hr Hstored w.
  revert w1 Hv.
  induction rs as [|[now result] rs IH]; intros w1 Hv.
  - cbn. repeat split; [exact Hv|]. exists []. split; [reflexivity|].
    cbn. now rewrite app_nil_r.
  - unfold AppJs.uploads_answered. cbn [fold_left fst snd].
    fold (AppJs_uploads rs (AppJs_settle now (UploadOk result) w1)).
    assert (Hno1 : forall docs, recentDocuments (core w1) <> JArr docs).
    { intros docs. rewrite Hv. apply Hno. }
    destruct (AppJs_settle_no_array now result w1 Hno1) as (Hr1 & Hs1 & Ht1 & m & Hm).
    destruct (IH (AppJs_settle now (UploadOk result) w1)) as (A & B & C & ms & Hlen & D).
    { now rewrite Hr1. }
    split; [exact A|]. split; [now rewrite B|]. split; [now rewrite C|].
    exists (m :: ms). split; [cbn; now rewrite Hlen|].
    rewrite D, Hm, <- app_assoc. reflexivity.
Qed.
End StoredNoArray.
(** ** The search *)

Lemma upper_hex_digit_safe n : n < 16 -> uri_safe (upper_hex_digit n) = true.
Proof.
  intros Hn. unfold upper_hex_digit, uri_safe, is_uri_unreserved.
  destruct (N.ltb_spec n 10) as [Hdigit|Hletter].
  - assert (H : (48 <=? 48 + n) && (48 + n <=? 57) = true).
    { apply andb_true_iff. split; apply N.leb_le; lia. }
    rewrite H, orb_true_r. reflexivity.
  - assert (H : (65 <=? 55 + n) && (55 + n <=? 90) = true).
    { apply andb_true_iff. split; apply N.leb_le; lia. }
    rewrite H. reflexivity.
Qed.

Lemma percent_octet_safe b : b < 256 -> Forall (fun c => uri_safe c = true) (percent_octet b).
Proof.
  intros Hb. unfold percent_octet.
  constructor; [reflexivity|].
  constructor; [apply upper_hex_digit_safe; apply N.Div0.div_lt_upper_bound; lia|].
  constructor; [apply upper_hex_digit_safe; apply N.mod_lt; lia|constructor].
Qed.

Lemma utf8_octets v : v < 2097152 -> Forall (fun b => b < 256) (utf8 v).
Proof.
  intros Hv. unfold utf8.
  destruct (N.ltb_spec v 128); [repeat constructor; lia|].
  destruct (N.ltb_spec v 2048).
  { repeat constructor.
    - assert (v / 64 < 32) by (apply N.Div0.div_lt_upper_bound; lia). lia.
    - assert (v mod 64 < 64) by (apply N.mod_lt; lia). lia. }
  destruct (N.ltb_spec v 65536).
  { repeat constructor.
    - assert (v / 4096 < 16) by (apply N.Div0.div_lt_upper_bound; lia). lia.
    - assert (v / 64 mod 64 < 64) by (apply N.mod_lt; lia). lia.
    - assert (v mod 64 < 64) by (apply N.mod_lt; lia). lia. }
  repeat constructor.
  - assert (v / 262144 < 8) by (apply N.Div0.div_lt_upper_bound; lia). lia.
  - assert (v / 4096 mod 64 < 64) by (apply N.mod_lt; lia). lia.
  - assert (v / 64 mod 64 < 64) by (apply N.mod_lt; lia). lia.
  - assert (v mod 64 < 64) by (apply N.mod_lt; lia). lia.
Qed.

Lemma percent_encode_safe v :
  v < 2097152 -> Forall (fun c => uri_safe c = true) (percent_encode v).
Proof.
  intros Hv. unfold percent_encode.
  pose proof (utf8_octets v Hv) as Hoct.
  induction Hoct as [|b bs Hb _ IH]; [constructor|].
  cbn [flat_map]. apply Forall_app. split; [now apply percent_octet_safe|exact IH].
Qed.

Lemma code_point_bound c d :
  is_high_surrogate c = true -> is_low_surrogate d = true -> code_point c d < 2097152.
Proof.
  unfold is_high_surrogate, is_low_surrogate, code_point.
  intros Hc Hd. apply andb_true_iff in Hc as [Hc1 Hc2], Hd as [Hd1 Hd2].
  apply N.leb_le in Hc1, Hc2, Hd1, Hd2. lia.
Qed.

Lemma encodeURIComponent_bounded (n : nat) : forall s enc,
  (length s <= n)%nat ->
  Forall is_code_unit s ->
  encodeURIComponent s = Some enc ->
  Forall (fun c => uri_safe c = true) enc.
Proof.
  induction n as [|n IH]; intros s enc Hlen Hs Henc.
  - destruct s; [|cbn in Hlen; lia]. injection Henc as <-. constructor.
  - destruct s as [|c r]; [injection Henc as <-; constructor|].
    apply Forall_cons in Hs as [Hc Hr].
    cbn [encodeURIComponent] in Henc. cbn [length] in Hlen.
    destruct (is_uri_unreserved c) eqn:Hun.
    { destruct (encodeURIComponent r) as [enc'|] eqn:E; [|discriminate].
      injection Henc as <-. constructor.
      - unfold uri_safe. now rewrite Hun.
      - apply (IH r); [lia|exact Hr|exact E]. }
    destruct (is_low_surrogate c); [discriminate|].
    destruct (is_high_surrogate c) eqn:Hhigh.
    { destruct r as [|d r']; [discriminate|].
      destruct (is_low_surrogate d) eqn:Hlow; [|discriminate].
      destruct (encodeURIComponent r') as [enc'|] eqn:E; [|discriminate].
      injection Henc as <-. apply Forall_app. split.
      - apply percent_encode_safe. now apply code_point_bound.
      - apply Forall_cons in Hr as [_ Hr']. cbn [length] in Hlen.
        apply (IH r'); [lia|exact Hr'|exact E]. }
    destruct (encodeURIComponent r) as [enc'|] eqn:E; [|discriminate].
    injection Henc as <-. apply Forall_app. split.
    + apply percent_encode_safe. unfold is_code_unit in Hc. lia.
    + apply (IH r); [lia|exact Hr|exact E].
Qed.

Lemma trim_start_sublist (P : N -> Prop) s : Forall P s -> Forall P (trim_start s).
Proof.
  induction 1 as [|c r Hc Hr IH]; [constructor|].
  cbn [trim_start]. destruct (is_js_space c); [exact IH|now constructor].
Qed.

Lemma trim_sublist (P : N -> Prop) s : Forall P s -> Forall P (trim s).
Proof.
  intros Hs. unfold trim.
  apply Forall_rev, trim_start_sublist, Forall_rev, trim_start_sublist, Hs.
Qed.

(** A text without surrogates can be encoded. *)
Lemma encodeURIComponent_plain (s : jsstring) :
  Forall (fun c => is_low_surrogate c = false /\ is_high_surrogate c = false) s ->
  exists encoded, encodeURIComponent s = Some encoded.
Proof.
  induction 1 as [|c r [Hlow Hhigh] _ [encoded IH]]; [now exists []|].
  cbn [encodeURIComponent]. rewrite Hlow, Hhigh, IH.
  destruct (is_uri_unreserved c); eexists; reflexivity.
Qed.

Section Search.
Variable toUpperCase : jsstring -> jsstring.
Variable fmul : R -> R -> R.
Variable toFixed0 : R -> jsstring.
Variable uri_error_message : jsstring.

Abbreviation handleSearch_send' := (handleSearch_send uri_error_message).
Abbreviation handleSearch_settle' := (handleSearch_settle toUpperCase fmul toFixed0).

(** X17.  The query typed cannot change the request: what [handleSearch]
    puts behind [query=] is made of letters, digits, [- _ . ! ~ * ' ( )] and
    [%] only, so it holds no [&], [=], [#], [?], [+] or space, and the
    parameter [n_results=5] that follows is the only other one. *)
Theorem search_query_is_encoded (w : main_page) (typed : jsstring) (url : jsstring) :
  searchInput_value w = Some typed ->
  Forall is_code_unit typed ->
  In url (search_requests (handleSearch_send' w)) ->
  In url (search_requests w)
  \/ exists encoded,
       url = search_url_prefix ++ encoded ++ search_url_suffix
       /\ encodeURIComponent (trim typed) = Some encoded
       /\ Forall (fun c => uri_safe c = true) encoded
       /\ ~ In 38 encoded /\ ~ In 61 encoded /\ ~ In 35 encoded
       /\ ~ In 63 encoded /\ ~ In 43 encoded /\ ~ In 32 encoded.
Proof.
  intros Htyped Hunits Hin. unfold handleSearch_send in Hin. rewrite Htyped in Hin.
  pose proof (trim_sublist is_code_unit typed Hunits) as Htrim.
  destruct (trim typed) as [|c query]; [now left|].
  destruct (searchResults w) eqn:Hview; [|now left].
  destruct (encodeURIComponent (c :: query)) as [encoded|] eqn:Henc.
  - cbn in Hin. apply in_app_or in Hin as [Hin|[<-|[]]]; [now left|].
    right. exists encoded.
    pose proof (encodeURIComponent_bounded (length (c :: query)) (c :: query) encoded
                  (le_n _) Htrim Henc) as Hsafe.
    split; [reflexivity|]. split; [reflexivity|]. split; [exact Hsafe|].
    rewrite List.Forall_forall in Hsafe.
    repeat split; intros Hbad; apply Hsafe in Hbad; discriminate.
  - left. unfold handleSearch_catch in Hin. cbn in Hin. exact Hin.
Qed.

(** X18.  A search on a page that has the input and the result area. On a
    text of white space it shows the warning toast and nothing else. On a
    text that [encodeURIComponent] refuses, one with a surrogate that has no
    partner, it sends no request: the area shows the text for a failed
    search at once, after one error toast with the message of the
    [URIError]. On any other text it sends one request, and when the
    request has ended the area never shows the placeholder any more: it
    shows one item for each result, in order, or the text for no results,
    or, after exactly one error toast, the text for a failed search. A text
    without any surrogate is never refused. *)
Theorem handleSearch_outcome (w : main_page) (typed : jsstring) (view : search_view)
  (reply : search_reply) :
  searchInput_value w = Some typed ->
  searchResults w = Some view ->
  (blank typed = true ->
     handleSearch_send' w = on_core (showToast msg_enter_query ToastWarning) w)
  /\ (forall encoded,
        blank typed = false ->
        encodeURIComponent (trim typed) = Some encoded ->
        let w1 := handleSearch_send' w in
        let w2 := handleSearch_settle' reply w1 in
        search_requests w1
        = search_requests w ++ [search_url_prefix ++ encoded ++ search_url_suffix]
        /\ searchResults w1 = Some SearchSearching
        /\ toasts (core w1) = toasts (core w)
        /\ match reply with
           | SearchOk (Some (r :: rs)) =>
               searchResults w2
               = Some (SearchItems (List.map (search_item_of toUpperCase fmul toFixed0)
                                      (r :: rs)))
               /\ toasts (core w2) = toasts (core w)
           | SearchOk _ =>
               searchResults w2 = Some SearchNoResults
               /\ toasts (core w2) = toasts (core w)
           | _ =>
               searchResults w2 = Some SearchFailed
               /\ exists message,
                    toasts (core w2)
                    = toasts (core w)
                        ++ [{| toast_message := search_error_prefix ++ message;
                               toast_type := ToastError |}]
           end)
  /\ (blank typed = false ->
      encodeURIComponent (trim typed) = None ->
      let w1 := handleSearch_send' w in
      search_requests w1 = search_requests w
      /\ searches_pending w1 = searches_pending w
      /\ searchResults w1 = Some SearchFailed
      /\ toasts (core w1)
         = toasts (core w)
             ++ [{| toast_message := search_error_prefix ++ uri_error_message;
                    toast_type := ToastError |}])
  /\ (Forall (fun c => is_low_surrogate c = false /\ is_high_surrogate c = false) typed ->
      exists encoded, encodeURIComponent (trim typed) = Some encoded).
Proof.
  intros Htyped Hview. unfold handleSearch_send. rewrite Htyped, Hview.
  pose proof (trim_nil typed) as Hblank.
  split; [|split; [|split]].
  - intros Hb. apply Hblank in Hb. now rewrite Hb.
  - intros encoded Hb Henc. destruct (trim typed) as [|c query].
    { rewrite (proj1 Hblank eq_refl) in Hb. discriminate. }
    rewrite Henc. cbv zeta.
    split; [reflexivity|]. split; [reflexivity|]. split; [reflexivity|].
    destruct reply as [message| |message|[[|r rs]|]]; cbn;
      (split; [reflexivity|]); try reflexivity; eexists; reflexivity.
  - intros Hb Henc. destruct (trim typed) as [|c query].
    { rewrite (proj1 Hblank eq_refl) in Hb. discriminate. }
    rewrite Henc. cbv zeta. repeat split.
  - intros Hplain. apply encodeURIComponent_plain.
    now apply trim_sublist.
Qed.
End Search.
(** ** The documents by category *)

Lemma digits_value_snoc (ds : jsstring) (d : N) :
  digits_value (ds ++ [d]) = 10 * digits_value ds + (d - 48).
Proof. unfold digits_value. now rewrite fold_left_app. Qed.

(** The decimal digits read back as the number, given enough fuel. *)
Lemma decimal_digits_value (fuel : nat) : forall n,
  n < 2 ^ N.of_nat fuel -> digits_value (decimal_digits fuel n) = n.
Proof.
  induction fuel as [|fuel IH]; intros n Hn.
  - cbn in Hn. cbn. lia.
  - cbn [decimal_digits].
    destruct (N.ltb_spec n 10) as [Hsmall|Hbig].
    + cbn. lia.
    + rewrite digits_value_snoc, IH.
      * pose proof (N.Div0.div_mod n 10) as Hdiv.
        assert (Hmod : n mod 10 < 10) by (apply N.mod_lt; lia).
        clear Hn IH. revert Hdiv Hmod.
        generalize (n / 10). generalize (n mod 10). intros. lia.
      * rewrite Nat2N.inj_succ, N.pow_succ_r' in Hn.
        apply N.Div0.div_lt_upper_bound. lia.
Qed.

(** The text of a length reads back as the length. *)
Lemma integer_text_value (k : nat) :
  digits_value (integer_text (Z.of_nat k)) = N.of_nat k.
Proof.
  destruct k as [|k]; [reflexivity|].
  change (Z.of_nat (S k)) with (Zpos (Pos.of_succ_nat k)). cbn [integer_text].
  rewrite decimal_digits_value.
  - reflexivity.
  - rewrite Nat2N.inj_succ, N2Nat.id.
    apply N.log2_spec. reflexivity.
Qed.

Section Categories.
Variable toUpperCase : jsstring -> jsstring.
Variable Date_of : option json -> option Z.
Variable toLocaleDateString : option Z -> jsstring.
Variable toLocaleTimeString : option Z -> jsstring.
Variable inherited_text : jsstring -> jsstring.

Abbreviation displayDocumentsByCategory' :=
  (displayDocumentsByCategory toUpperCase Date_of toLocaleDateString toLocaleTimeString
     inherited_text).
Abbreviation loadDocumentsByCategory_settle' :=
  (loadDocumentsByCategory_settle toUpperCase Date_of toLocaleDateString toLocaleTimeString
     inherited_text).

(** X19.  On a page that has the element, an answer with categories is drawn
    as one group for each category, in the order of the object; the group
    has one card for each document, in order, each card opening its own
    document; the count in its header is the number of its cards; its icon
    is the one of the table, or the page sign for a category the table does
    not have. An answer without categories gives the empty-state text, a
    failed request the failure text. *)
Theorem categories_are_listed (w : main_page) (view : categories_view)
  (categories : list (jsstring * list category_doc)) :
  categoriesView w = Some view ->
  (categories <> [] ->
   exists groups,
     categoriesView (loadDocumentsByCategory_settle' (CategoriesOk (Some categories)) w)
     = Some (CategoryGroups groups)
     /\ length groups = length categories
     /\ forall (i : nat) (category : jsstring) (documents : list category_doc),
          categories !! i = Some (category, documents) ->
          exists group,
            groups !! i = Some group
            /\ group_title group = formatCategory toUpperCase category
            /\ List.map card_target (group_cards group)
               = List.map cd_document_id documents
            /\ digits_value (group_count group) = N.of_nat (length (group_cards group))
            /\ (includes Object_prototype_names category = false ->
                group_icon group = default page_sign (own_icon category categoryIcons)))
  /\ categoriesView (loadDocumentsByCategory_settle' (CategoriesOk (Some [])) w)
     = Some CategoriesEmpty
  /\ categoriesView (loadDocumentsByCategory_settle' (CategoriesOk None) w)
     = Some CategoriesEmpty
  /\ categoriesView (loadDocumentsByCategory_settle' CategoriesError w)
     = Some CategoriesFailed.
Proof.
  intros Hview.
  unfold loadDocumentsByCategory_settle, displayDocumentsByCategory. rewrite Hview.
  split; [|repeat split].
  intros Hne. destruct categories as [|entry entries]; [now elim Hne|].
  eexists. split; [reflexivity|]. split; [apply length_map|].
  intros i category documents Hi.
  pose proof (list_lookup_fmap
                (group_of toUpperCase Date_of toLocaleDateString toLocaleTimeString
                   inherited_text)
                (entry :: entries) i) as E.
  rewrite Hi in E. eexists. split; [exact E|].
  cbn [group_of group_title group_cards group_count group_icon fst snd].
  split; [reflexivity|]. split; [|split].
  - rewrite List.map_map. reflexivity.
  - rewrite length_map. apply integer_text_value.
  - intros Hown. unfold icon_of. rewrite Hown.
    destruct (own_icon category categoryIcons); reflexivity.
Qed.
End Categories.
(** ** The document detail page *)

Section DetailPage.
Variable toUpperCase : jsstring -> jsstring.
Variable Date_of : option json -> option Z.
Variable toLocaleString : option Z -> jsstring.

Abbreviation displayDocumentInfo' :=
  (DetailView.displayDocumentInfo toUpperCase Date_of toLocaleString).
Abbreviation detail_step := (DetailView.step toUpperCase Date_of toLocaleString).
Abbreviation detail_run := (DetailView.run toUpperCase Date_of toLocaleString).

(** X20.  The preview of a document is its first 500 code units followed by
    three dots, so at most 503 code units; the dots are there also when
    nothing was cut. A document without text gives the text for no content. *)
Theorem document_preview (body : DetailView.document_body) :
  (forall content,
      DetailView.body_document body = FText content -> content <> [] ->
      DetailView.info_preview (displayDocumentInfo' body)
      = take 500 content ++ DetailView.text_ellipsis
      /\ (length (DetailView.info_preview (displayDocumentInfo' body)) <= 503)%nat
      /\ ((length content <= 500)%nat ->
          DetailView.info_preview (displayDocumentInfo' body)
          = content ++ DetailView.text_ellipsis))
  /\ (truthy (DetailView.body_document body) = false ->
      DetailView.info_preview (displayDocumentInfo' body) = DetailView.text_no_content).
Proof.
  cbn [DetailView.displayDocumentInfo DetailView.info_preview]. unfold DetailView.preview_of.
  split.
  - intros content -> Hne. destruct content as [|c s]; [now elim Hne|].
    cbn [truthy field_text]. split; [reflexivity|]. split.
    + rewrite length_app, length_take.
      change (length DetailView.text_ellipsis) with 3%nat. lia.
    + intros Hlen. now rewrite take_ge.
  - intros ->. reflexivity.
Qed.

Lemma detail_run_invariant (Inv : DetailView.window -> Prop) :
  (forall e w w', Inv w -> detail_step e w = Some w' -> Inv w') ->
  forall events w, Inv w -> Inv (detail_run events w).
Proof.
  intros Hstep events. unfold DetailView.run.
  induction events as [|e events IH]; intros w Hw; [exact Hw|].
  cbn [fold_left]. apply IH.
  destruct (detail_step e w) as [w'|] eqn:E; [|exact Hw].
  exact (Hstep e w w' Hw E).
Qed.

Lemma answers_follow_app (h extra : list chat_message) (m : chat_message) :
  forall after_user,
  role m = RoleUser ->
  answers_follow after_user h = true -> answers_follow true extra = true ->
  answers_follow after_user (h ++ m :: extra) = true.
Proof.
  intros after_user Hm. revert after_user.
  induction h as [|a h IH]; intros after_user Hh He.
  - cbn [app answers_follow]. now rewrite Hm.
  - cbn [app answers_follow] in *. destruct (role a).
    + now apply IH.
    + apply andb_true_iff in Hh as [-> Hh]. cbn [andb]. now apply IH.
Qed.

(** What an answer pushes keeps the history one of turns. *)
Lemma in_turns_pushed (h : list chat_message) (message : jsstring) (reply : chat_reply) :
  message <> [] -> in_turns h -> in_turns (h ++ Detail.pushed message reply).
Proof.
  intros Hne [Hf Hu].
  assert (Huser : user_text {| role := RoleUser; content := Some (JStr message) |}).
  { intros _. destruct message as [|c q]; [now elim Hne|]. now exists c, q. }
  assert (Hanswer : forall v, user_text {| role := RoleAssistant; content := v |}).
  { intros v Hrole. discriminate Hrole. }
  destruct reply as [m| |m|response|m|v m]; cbn [Detail.pushed app].
  1-3: now rewrite app_nil_r.
  all: split;
    [ now apply answers_follow_app
    | apply Forall_app; split; [exact Hu|]; repeat constructor; auto ].
Qed.

Lemma detail_request_in_order_app history extra r :
  detail_request_in_order history r -> detail_request_in_order (history ++ extra) r.
Proof.
  intros (Hq & Hp & Hpre). repeat split; try apply Hp; try assumption.
  now apply prefix_app_r.
Qed.

Lemma detail_in_order_start id w :
  DetailView.listening w = true ->
  detail_in_order id w -> detail_in_order id (DetailView.sendMessage_start w).
Proof.
  intros Hon Hinv.
  unfold DetailView.sendMessage_start.
  destruct (trim (Detail.chatInput_value (DetailView.chat w))) as [|c message];
    [exact Hinv|].
  destruct Hinv as (Hid & Hh & Hr & Hd & Hq & Hl & Hoff & Hdoc).
  unfold detail_in_order. cbn.
  split; [exact Hid|]. split; [exact Hh|].
  split.
  { apply Forall_app. split; [exact Hr|]. constructor; [|constructor].
    split; [discriminate|]. split; [exact Hh|reflexivity]. }
  split.
  { apply Forall_app. split; [exact Hd|]. constructor; [|constructor].
    cbn. now rewrite Hid. }
  split.
  { apply Forall_app. split; [exact Hq|]. constructor; [discriminate|constructor]. }
  split; [exact Hl|]. split; [|exact Hdoc].
  intros Hoff'. rewrite Hon in Hoff'. discriminate.
Qed.

(** The globals of the chat after an answer: the history has grown by what
    the answer pushed, the requests and the identifier are as before. *)
Lemma sendMessage_settle_globals message reply d :
  Detail.documentId (Detail.sendMessage_settle message reply d) = Detail.documentId d
  /\ Detail.chatHistory (Detail.sendMessage_settle message reply d)
     = Detail.chatHistory d ++ Detail.pushed message reply
  /\ Detail.requests (Detail.sendMessage_settle message reply d) = Detail.requests d.
Proof.
  unfold Detail.sendMessage_settle. now destruct (response_text reply).
Qed.

Lemma detail_in_order_step id e w w' :
  detail_in_order id w -> detail_step e w = Some w' -> detail_in_order id w'.
Proof.
  intros Hinv Hstep.
  destruct e; cbn [DetailView.step] in Hstep.
  - destruct (DetailView.loads_pending w) as [|n]; [discriminate|]. injection Hstep as <-.
    destruct reply; exact Hinv.
  - injection Hstep as <-. exact Hinv.
  - injection Hstep as <-.
    destruct (DetailView.listening w) eqn:Hon; [|exact Hinv].
    now apply detail_in_order_start.
  - injection Hstep as <-.
    destruct (DetailView.listening w) eqn:Hon; cbn [andb]; [|exact Hinv].
    destruct (bool_decide (key = text_Enter) && negb shiftKey); [|exact Hinv].
    now apply detail_in_order_start.
  - destruct (DetailView.chats_pending w !! i) as [message|] eqn:E; [|discriminate].
    injection Hstep as <-.
    destruct Hinv as (Hid & Hh & Hr & Hd & Hq & Hl & Hoff & Hdoc).
    assert (Hon : DetailView.listening w = true).
    { destruct (DetailView.listening w); [reflexivity|].
      destruct (Hoff eq_refl) as (_ & Hnone & _). rewrite Hnone in E. discriminate. }
    assert (Hq' : Forall (fun m => m <> []) (delete i (DetailView.chats_pending w))).
    { now apply Forall_delete. }
    assert (Hmessage : message <> []).
    { exact (Forall_lookup_1 _ _ i message Hq E). }
    destruct (sendMessage_settle_globals message reply (DetailView.chat w))
      as (G1 & G2 & G3).
    unfold detail_in_order.
    cbn [DetailView.chat DetailView.on_chat DetailView.set_chat
         DetailView.set_chats_pending DetailView.listening DetailView.chats_pending
         DetailView.document_requests].
    rewrite G1, G2, G3.
    split; [exact Hid|].
    split; [now apply in_turns_pushed|].
    split; [eapply Forall_impl; [exact Hr|]; intros r Hr0;
            now apply detail_request_in_order_app|].
    split; [exact Hd|]. split; [exact Hq'|]. split; [exact Hl|].
    split; [|exact Hdoc].
    intros Hx. rewrite Hon in Hx. discriminate.
Qed.

(** X21.  On the detail page every chat request carries the identifier of
    the address, which is not empty, and a history that the current history
    still begins with: the history only grows at its end.  The history, and
    with it the one of every request, is one of turns: each user message
    holds a text that is not empty, and each assistant message comes
    directly after a user message; a user message can stay without an
    answer.  The document is requested once, under the identifier as it is.
    When the address has no identifier, or an empty one, nothing is ever
    requested: neither the document nor a chat answer, whatever is typed
    and clicked. *)
Theorem detail_requests_in_order (w0 : DetailView.window) (id : option jsstring)
  (events : list DetailView.event) :
  fresh_detail w0 ->
  let w := detail_run events (DetailView.DOMContentLoaded id w0) in
  in_turns (Detail.chatHistory (DetailView.chat w))
  /\ Forall (fun r =>
              req_query r <> []
              /\ req_document_id r = Some id
              /\ (exists c s, id = Some (c :: s))
              /\ in_turns (req_chat_history r)
              /\ req_chat_history r `prefix_of` Detail.chatHistory (DetailView.chat w))
       (Detail.requests (DetailView.chat w))
  /\ (forall c s, id = Some (c :: s) ->
      DetailView.document_requests w = [DetailView.document_url_prefix ++ c :: s])
  /\ (id = None \/ id = Some [] ->
      DetailView.document_requests w = []
      /\ Detail.requests (DetailView.chat w) = []
      /\ Detail.chatHistory (DetailView.chat w) = []).
Proof.
  intros Hfresh w.
  assert (Hinv : detail_in_order id w).
  { apply (detail_run_invariant (detail_in_order id) (detail_in_order_step id)).
    destruct Hfresh as [F1 F2 F3 F4 F5].
    unfold detail_in_order, in_turns, DetailView.DOMContentLoaded.
    destruct id as [[|c s]|]; cbn; rewrite ?F1, ?F2, ?F3, ?F4, ?F5;
      repeat split; try constructor; try discriminate; eauto. }
  destruct Hinv as (Hid & Hh & Hr & Hd & Hq & Hl & Hoff & Hdoc).
  split; [exact Hh|]. split; [|split].
  - apply Forall_forall. intros r Hin.
    rewrite Forall_forall in Hr, Hd.
    destruct (Hr r Hin) as (A & B & C).
    split; [exact A|]. split; [now apply Hd|]. split; [|split; assumption].
    destruct (DetailView.listening w) eqn:Hon; [now apply Hl|].
    destruct (Hoff eq_refl) as (Hnone & _). rewrite Hnone in Hin.
    now apply elem_of_nil in Hin.
  - intros c s ->. exact Hdoc.
  - intros Hno.
    assert (Hoff' : DetailView.listening w = false).
    { destruct (DetailView.listening w); [|reflexivity].
      destruct (Hl eq_refl) as (c & s & ->). destruct Hno; discriminate. }
    destruct (Hoff Hoff') as (A & _ & B).
    split; [|split; assumption].
    rewrite Hdoc. destruct Hno as [-> | ->]; reflexivity.
Qed.
End DetailPage.
(** ** The further properties on sample inputs *)

Lemma formatTimestamp_thresholds_witness :
  formatTimestamp Rdiv epoch no_date 5400000 None = u "1h ago"
  /\ formatTimestamp Rdiv epoch no_date (-1) None = u "Just now".
Proof.
  split.
  - apply (formatTimestamp_thresholds Rdiv epoch no_date exact_floor_division
             5400000 None 0 eq_refl).
    vm_compute. discriminate.
  - apply (formatTimestamp_thresholds Rdiv epoch no_date exact_floor_division
             (-1) None 0 eq_refl).
    vm_compute. discriminate.
Defined.

Lemma formatCategory_ascii_witness :
  length (formatCategory ascii_toUpperCase (u "kyc_updates")) = 11%nat
  /\ formatCategory ascii_toUpperCase (formatCategory ascii_toUpperCase (u "kyc_updates"))
     = formatCategory ascii_toUpperCase (u "kyc_updates").
Proof.
  destruct (formatCategory_ascii ascii_toUpperCase ascii_toUpperCase_conforms
              (u "kyc_updates")) as (Hlen & _ & Hidem & _).
  - repeat constructor.
  - split; [exact Hlen|exact Hidem].
Defined.

Lemma chat_turn_blank_or_sent_witness :
  handleChat ChatHttpError sample_page = sample_page
  /\ length (requests (handleChat ChatHttpError sample_chat_page)) = 1%nat
  /\ length (Detail.requests (Detail.sendMessage ChatHttpError sample_detail_page)) = 1%nat.
Proof.
  destruct (chat_turn_blank_or_sent ChatHttpError sample_page sample_detail_page)
    as (Hblank & _ & _ & Hdetail).
  destruct (chat_turn_blank_or_sent ChatHttpError sample_chat_page sample_detail_page)
    as (_ & Hsent & _).
  split; [apply Hblank; reflexivity|]. split.
  - apply Hsent. reflexivity.
  - apply Hdetail. reflexivity.
Defined.

Lemma displayResults_alerts_witness :
  toasts (displayResults ascii_toUpperCase Rmult no_text sample_result sample_page)
  = [{| toast_message := u "Customer ID missing"; toast_type := ToastWarning |};
     {| toast_message := u "Signature missing"; toast_type := ToastWarning |}].
Proof.
  apply (displayResults_alerts ascii_toUpperCase Rmult no_text sample_result sample_page
           [u "Customer ID missing"; u "Signature missing"]).
  reflexivity.
Defined.

Lemma displayResults_metadata_witness :
  exists view,
    results (displayResults ascii_toUpperCase Rmult no_text sample_result sample_page)
    = Some view
    /\ length (customerInfo view) = 2%nat.
Proof.
  destruct (displayResults_metadata ascii_toUpperCase Rmult no_text sample_result sample_page
              [(u "customer_id", None); (u "account_number", Some (u "DE89"))] eq_refl)
    as (view & Hview & Hlen & _).
  exists view. split; [exact Hview|exact Hlen].
Defined.

Lemma AppStatic_displayResults_metadata_witness :
  exists view,
    results (AppStatic.displayResults ascii_toUpperCase Rmult no_text sample_result sample_page)
    = Some view.
Proof.
  destruct (AppStatic_displayResults_metadata ascii_toUpperCase Rmult no_text sample_result
              sample_page
              [(u "customer_id", None); (u "account_number", Some (u "DE89"))] eq_refl)
    as (view & Hview & _).
  exists view. exact Hview.
Defined.

Lemma displayResults_extracted_witness :
  exists view,
    results (displayResults ascii_toUpperCase Rmult no_text sample_extracted_result
               sample_page) = Some view
    /\ extractedInfo view
       = [ScalarRow (formatLabel ascii_toUpperCase (u "customer_name")) (u "Ada");
          ListRow (formatLabel ascii_toUpperCase (u "dates"))
            [u "2024-05-01"; u "2024-05-02"]].
Proof.
  destruct (displayResults_extracted ascii_toUpperCase Rmult no_text sample_extracted_result
              sample_page _ eq_refl)
    as (view & _ & Hview & _ & _ & Hrows & _).
  exists view. split; [exact Hview|exact Hrows].
Defined.

Lemma handleUpload_failure_witness :
  toasts (core (sample_settle [] (UploadRejected FMissing)
                  (handleUpload_send sample_staged_page)))
  = [{| toast_message := u "Error: Processing failed"; toast_type := ToastError |}]
  /\ currentFile (core (sample_settle [] (UploadRejected FMissing)
                          (handleUpload_send sample_staged_page)))
     = Some sample_file.
Proof.
  destruct (handleUpload_failure ascii_toUpperCase same_text never_zero Rmult no_text
              no_message [] (UploadRejected FMissing) sample_staged_page sample_file
              eq_refl)
    as (_ & Htoasts & Hfile & _).
  - discriminate.
  - split; [exact Htoasts|exact Hfile].
Defined.

Lemma sample_main_page_fresh : fresh sample_main_page.
Proof. split; reflexivity. Defined.

Lemma uploads_are_validated_witness :
  Forall acceptable (upload_requests (sample_run sample_events (DOMContentLoaded sample_main_page))).
Proof.
  apply (uploads_are_validated ascii_toUpperCase same_text never_zero ln Rdiv Rmult no_text
           no_text no_message no_text [] epoch no_date no_date no_inherited
           sample_main_page sample_events sample_main_page_fresh).
Defined.

Lemma upload_with_result_succeeds_witness :
  recent_in_order
    (core (sample_settle [] (UploadOk sample_result)
             (sample_run sample_events (DOMContentLoaded sample_main_page)))).
Proof.
  apply (upload_with_result_succeeds ascii_toUpperCase same_text never_zero ln Rdiv Rmult
           no_text no_text no_message no_text [] epoch no_date no_date no_inherited
           sample_main_page sample_events [] sample_result sample_main_page_fresh).
Defined.

Lemma chat_history_in_order_witness :
  paired (mainChatHistory
            (core (sample_run sample_events (DOMContentLoaded sample_main_page)))) = true.
Proof.
  apply (chat_history_in_order ascii_toUpperCase same_text never_zero ln Rdiv Rmult
           no_text no_text no_message no_text [] epoch no_date no_date no_inherited
           sample_main_page sample_events sample_main_page_fresh).
Defined.

Lemma upload_then_reset_witness :
  upload_requests
    (handleUpload_send
       (sample_settle [] (UploadOk sample_result) (handleUpload_send sample_staged_page)))
  = [sample_file; sample_file].
Proof.
  apply (upload_then_reset ascii_toUpperCase same_text never_zero ln Rdiv Rmult no_text
           no_text no_message [] sample_result sample_staged_page sample_file [] eq_refl).
  exists []. split; [reflexivity|]. simpl. lia.
Defined.

Lemma AppJs_stored_no_array_witness :
  recentDocuments
    (core (AppJs.uploads_answered ascii_toUpperCase same_text never_zero Rmult no_text
             no_message [([], sample_result)]
             (AppJs.DOMContentLoaded ascii_toUpperCase never_zero sample_null_page)))
  = JNull.
Proof.
  apply (AppJs_stored_no_array ascii_toUpperCase same_text never_zero Rmult no_text
           no_message sample_null_page (u "null") JNull [([], sample_result)]).
  - reflexivity.
  - reflexivity.
  - discriminate.
Defined.

Lemma search_query_is_encoded_witness :
  In (u "/search-documents?query=a%26b%3Dc&n_results=5") []
  \/ exists encoded,
       u "/search-documents?query=a%26b%3Dc&n_results=5"
       = search_url_prefix ++ encoded ++ search_url_suffix
       /\ encodeURIComponent (trim (u " a&b=c ")) = Some encoded
       /\ Forall (fun c => uri_safe c = true) encoded
       /\ ~ In 38 encoded /\ ~ In 61 encoded /\ ~ In 35 encoded
       /\ ~ In 63 encoded /\ ~ In 43 encoded /\ ~ In 32 encoded.
Proof.
  apply (search_query_is_encoded [] sample_main_page (u " a&b=c ")
           (u "/search-documents?query=a%26b%3Dc&n_results=5") eq_refl).
  - repeat constructor.
  - left. reflexivity.
Defined.

Lemma handleSearch_outcome_witness :
  search_requests (handleSearch_send [] sample_main_page)
  = [u "/search-documents?query=a%26b%3Dc&n_results=5"]
  /\ searchResults
       (handleSearch_settle ascii_toUpperCase Rmult no_text SearchHttpError
          (handleSearch_send [] sample_main_page))
     = Some SearchFailed
  /\ search_requests
       (handleSearch_send (u "URI malformed")
          (set_searchInput_value (Some [55357]) sample_main_page))
     = []
  /\ toasts
       (core (handleSearch_send (u "URI malformed")
                (set_searchInput_value (Some [55357]) sample_main_page)))
     = [{| toast_message := u "Search error: URI malformed"; toast_type := ToastError |}].
Proof.
  destruct (handleSearch_outcome ascii_toUpperCase Rmult no_text [] sample_main_page
              (u " a&b=c ") SearchUntouched SearchHttpError eq_refl eq_refl)
    as (_ & Hsent & _).
  destruct (Hsent (u "a%26b%3Dc") eq_refl eq_refl) as (Hreq & _ & _ & Hview & _).
  destruct (handleSearch_outcome ascii_toUpperCase Rmult no_text (u "URI malformed")
              (set_searchInput_value (Some [55357]) sample_main_page)
              [55357] SearchUntouched SearchHttpError eq_refl eq_refl)
    as (_ & _ & Hrefused & _).
  destruct (Hrefused eq_refl eq_refl) as (Hnone & _ & _ & Htoast).
  split; [exact Hreq|]. split; [exact Hview|]. split; [exact Hnone|exact Htoast].
Defined.

Lemma categories_are_listed_witness :
  exists groups,
    categoriesView
      (loadDocumentsByCategory_settle ascii_toUpperCase epoch no_date no_date no_inherited
         (CategoriesOk (Some sample_categories)) sample_main_page)
    = Some (CategoryGroups groups)
    /\ length groups = 2%nat.
Proof.
  destruct (categories_are_listed ascii_toUpperCase epoch no_date no_date no_inherited
              sample_main_page CategoriesUntouched sample_categories eq_refl)
    as (Hgroups & _).
  destruct Hgroups as (groups & Hview & Hlen & _); [discriminate|].
  exists groups. split; [exact Hview|exact Hlen].
Defined.

Lemma document_preview_witness :
  DetailView.info_preview
    (DetailView.displayDocumentInfo ascii_toUpperCase epoch no_date sample_document)
  = u "Sehr geehrte Damen und Herren...".
Proof.
  destruct (document_preview ascii_toUpperCase epoch no_date sample_document)
    as (Htext & _).
  destruct (Htext (u "Sehr geehrte Damen und Herren") eq_refl) as (_ & _ & Hshort).
  - discriminate.
  - apply Hshort. simpl. lia.
Defined.

Lemma sample_detail_window_fresh : fresh_detail sample_detail_window.
Proof. split; reflexivity. Defined.

Lemma detail_requests_in_order_witness :
  DetailView.document_requests
    (sample_detail_run sample_detail_events
       (DetailView.DOMContentLoaded (Some (u "doc-1")) sample_detail_window))
  = [u "/document/doc-1"]
  /\ DetailView.document_requests
       (sample_detail_run sample_detail_events
          (DetailView.DOMContentLoaded None sample_detail_window))
     = []
  /\ in_turns
       (Detail.chatHistory
          (DetailView.chat
             (sample_detail_run sample_detail_null_events
                (DetailView.DOMContentLoaded (Some (u "doc-1")) sample_detail_window)))).
Proof.
  destruct (detail_requests_in_order ascii_toUpperCase epoch no_date sample_detail_window
              (Some (u "doc-1")) sample_detail_events sample_detail_window_fresh)
    as (_ & _ & Hdoc & _).
  destruct (detail_requests_in_order ascii_toUpperCase epoch no_date sample_detail_window
              None sample_detail_events sample_detail_window_fresh)
    as (_ & _ & _ & Hnone).
  destruct (detail_requests_in_order ascii_toUpperCase epoch no_date sample_detail_window
              (Some (u "doc-1")) sample_detail_null_events sample_detail_window_fresh)
    as (Hturns & _).
  split; [|split].
  - exact (Hdoc _ _ eq_refl).
  - apply Hnone. left. reflexivity.
  - exact Hturns.
Defined.

Lemma detail_chat_turns_transcript_witness :
  Detail.chatHistory
    (detail_chat_turns
       [(u "Wie?", sample_null_reply); (u " ", ChatOk (u "Ja.")); (u "Und?", ChatOk (u "So."))]
       sample_detail_page)
  = [{| role := RoleUser; content := Some (JStr (u "Wie?")) |};
     {| role := RoleUser; content := Some (JStr (u "Und?")) |};
     {| role := RoleAssistant; content := Some (JStr (u "So.")) |}]
  /\ Detail.chatHistory
       (detail_chat_turns [(u "Wie?", ChatHttpError); (u "Und?", ChatOk (u "So."))]
          sample_detail_page)
     = [{| role := RoleUser; content := Some (JStr (u "Und?")) |};
        {| role := RoleAssistant; content := Some (JStr (u "So.")) |}].
Proof.
  split.
  - exact (proj1 (detail_chat_turns_transcript
                    [(u "Wie?", sample_null_reply); (u " ", ChatOk (u "Ja."));
                     (u "Und?", ChatOk (u "So."))] sample_detail_page)).
  - apply (proj1 (proj2 (detail_chat_turns_transcript
                           [(u "Wie?", ChatHttpError); (u "Und?", ChatOk (u "So."))]
                           sample_detail_page))).
    repeat constructor.
Defined.

(** The detail page after a message answered with the body [null] and a
    second one answered with a text: the first message stays in the history
    without an answer, and the second request carried it. *)
Example sample_detail_null_run_outcome :
  Detail.chatHistory
    (DetailView.chat
       (sample_detail_run sample_detail_null_events
          (DetailView.DOMContentLoaded (Some (u "doc-1")) sample_detail_window)))
  = [{| role := RoleUser; content := Some (JStr (u "Wer?")) |};
     {| role := RoleUser; content := Some (JStr (u "Und?")) |};
     {| role := RoleAssistant; content := Some (JStr (u "Die Bank.")) |}]
  /\ List.map req_chat_history
       (Detail.requests
          (DetailView.chat
             (sample_detail_run sample_detail_null_events
                (DetailView.DOMContentLoaded (Some (u "doc-1")) sample_detail_window))))
     = [[]; [{| role := RoleUser; content := Some (JStr (u "Wer?")) |}]]
  /\ List.map fst
       (Detail.chatMessages
          (DetailView.chat
             (sample_detail_run sample_detail_null_events
                (DetailView.DOMContentLoaded (Some (u "doc-1")) sample_detail_window))))
     = [RoleUser; RoleAssistant; RoleUser; RoleAssistant].
Proof. repeat split; reflexivity. Qed.

(** The sample events on the main page: the large file is refused, the
    text file is sent once, the chat has one exchange. *)
Example sample_run_outcome :
  upload_requests (sample_run sample_events (DOMContentLoaded sample_main_page))
  = [sample_file]
  /\ mainChatHistory (core (sample_run sample_events (DOMContentLoaded sample_main_page)))
     = [{| role := RoleUser; content := Some (JStr (u "Wie?")) |};
        {| role := RoleAssistant; content := Some (JStr (u "So.")) |}]
  /\ currentFile (core (sample_run sample_events (DOMContentLoaded sample_main_page))) = None
  /\ List.map toast_type
       (toasts (core (sample_run sample_events (DOMContentLoaded sample_main_page))))
     = [ToastError; ToastWarning; ToastWarning; ToastSuccess].
Proof. repeat split; reflexivity. Qed.
(** ** Edge cases *)

(** X22.  An opening [**] whose line ends before any other star stays as it
    is: bold text never spans a line. The formatting goes on after the
    newline. *)
Theorem bold_stays_on_one_line (a rest : jsstring) :
  Forall (fun c => c <> c_star) a ->
  formatMessageContent (stars ++ a ++ c_newline :: rest)
  = stars ++ replace_newlines a ++ br_tag ++ formatMessageContent rest.
Proof.
  intros Ha.
  assert (Hlazy : lazy_until_stars (a ++ c_newline :: rest) = None).
  { induction Ha as [|c a Hc _ IH]; cbn [app lazy_until_stars].
    - reflexivity.
    - destruct (N.eqb_spec c c_star) as [E|_]; [contradiction|].
      rewrite IH. now destruct (is_line_terminator c). }
  assert (Hcopy : formatMessageContent (a ++ c_newline :: rest)
                  = replace_newlines a ++ br_tag ++ formatMessageContent rest).
  { clear Hlazy. induction Ha as [|c a Hc _ IH]; cbn [app].
    - rewrite formatMessageContent_unit by (apply match_bold_not_star; discriminate).
      reflexivity.
    - rewrite formatMessageContent_unit by (now apply match_bold_not_star).
      rewrite IH. unfold replace_newlines at 2. cbn [flat_map].
      now rewrite <- app_assoc. }
  unfold stars. cbn [app].
  rewrite formatMessageContent_unit.
  2: { cbn [match_bold]. change (c_star =? c_star) with true. cbn [andb]. exact Hlazy. }
  rewrite formatMessageContent_unit.
  2: { destruct a as [|c a]; cbn [app match_bold].
       - reflexivity.
       - apply Forall_cons in Ha as [Hc _].
         destruct (N.eqb_spec c c_star) as [E|_]; [contradiction|].
         now rewrite andb_false_r. }
  rewrite Hcopy. reflexivity.
Qed.

Section RecentRows.
Variable toUpperCase : jsstring -> jsstring.
Variable number_text : jsstring -> jsstring.
Variable number_is_zero : jsstring -> bool.

Lemma recent_items_rows (rs : list (jsstring * ProcessResult)) :
  recent_items toUpperCase (entries_of rs)
  = Some (List.map (recent_row_of toUpperCase) rs).
Proof.
  induction rs as [|[now result] rs IH]; [reflexivity|].
  cbn [entries_of List.map recent_items fst snd].
  fold (entries_of rs). rewrite IH. reflexivity.
Qed.

(** X23.  The recent list drawn from recorded results has one row for each,
    in the order of the sequence, with the identifier, the category and its
    label, the urgency and the time stamp of the result; an empty sequence
    gives the empty-state text. After [saveToRecent] the rows are those of
    the new result followed by the former ones, ten at most. *)
Theorem displayRecentDocuments_rows (rs : list (jsstring * ProcessResult)) (p : page)
  (view : recent_view) (now : jsstring) (result : ProcessResult) :
  recentDocuments p = JArr (entries_of rs) ->
  recentDocs p = Some view ->
  displayRecentDocuments toUpperCase number_is_zero p
  = Normal (set_recentDocs
              (Some (match rs with
                     | [] => RecentEmpty
                     | _ :: _ => RecentRows (List.map (recent_row_of toUpperCase) rs)
                     end))
              p)
  /\ exists p',
       saveToRecent toUpperCase number_text number_is_zero now result p = Normal p'
       /\ recentDocs p'
          = Some (RecentRows
                    (List.map (recent_row_of toUpperCase) (take 10 ((now, result) :: rs)))).
Proof.
  intros Hrs Hview. split.
  - unfold displayRecentDocuments. rewrite Hview, Hrs.
    cbn [length_is_zero].
    destruct rs as [|r rs]; [reflexivity|].
    rewrite bool_decide_eq_false_2 by discriminate.
    now rewrite recent_items_rows.
  - unfold saveToRecent. rewrite Hrs.
    assert (Hcut : (if (10 <? length (recent_entry result now :: entries_of rs))%nat
                    then take 10 (recent_entry result now :: entries_of rs)
                    else recent_entry result now :: entries_of rs)
                   = entries_of (take 10 ((now, result) :: rs))).
    { assert (E : take 10 (recent_entry result now :: entries_of rs)
                  = entries_of (take 10 ((now, result) :: rs))).
      { apply (firstn_map (fun nr : jsstring * ProcessResult =>
                             recent_entry (snd nr) (fst nr)) 10 ((now, result) :: rs)). }
      destruct (Nat.ltb_spec 10 (length (recent_entry result now :: entries_of rs)));
        [exact E|].
      rewrite <- E. symmetry. apply take_ge. lia. }
    rewrite Hcut. unfold displayRecentDocuments.
    cbn [recentDocs recentDocuments set_localStorage set_recentDocuments length_is_zero].
    rewrite Hview, recent_items_rows.
    rewrite bool_decide_eq_false_2 by discriminate.
    eexists. split; reflexivity.
Qed.
End RecentRows.

Section DocumentInfo.
Variable toUpperCase : jsstring -> jsstring.
Variable Date_of : option json -> option Z.
Variable toLocaleString : option Z -> jsstring.

Abbreviation displayDocumentInfo' :=
  (DetailView.displayDocumentInfo toUpperCase Date_of toLocaleString).

(** X24.  The information panel never shows an empty urgency, file name or
    preview: a value that is missing, [null] or empty is replaced by its
    fallback. For a body without [metadata] every item is the fallback, and
    the two badge classes are [undefined]. *)
Theorem document_info_fallbacks (body : DetailView.document_body) :
  DetailView.info_urgency (displayDocumentInfo' body) <> []
  /\ DetailView.info_filename (displayDocumentInfo' body) <> []
  /\ DetailView.info_preview (displayDocumentInfo' body) <> []
  /\ (DetailView.body_metadata body = None ->
      DetailView.info_category (displayDocumentInfo' body) = u "Unknown"
      /\ DetailView.info_urgency (displayDocumentInfo' body) = u "N/A"
      /\ DetailView.info_filename (displayDocumentInfo' body) = u "Unknown"
      /\ DetailView.info_processed (displayDocumentInfo' body) = u "N/A"
      /\ DetailView.info_customer (displayDocumentInfo' body) = None
      /\ DetailView.info_category_class (displayDocumentInfo' body) = u "undefined"
      /\ DetailView.info_urgency_class (displayDocumentInfo' body) = u "undefined").
Proof.
  unfold DetailView.displayDocumentInfo.
  cbn [DetailView.info_urgency DetailView.info_filename DetailView.info_preview
       DetailView.info_category DetailView.info_processed DetailView.info_customer
       DetailView.info_category_class DetailView.info_urgency_class].
  split; [|split; [|split]].
  - unfold DetailView.urgency_label.
    destruct (DetailView.md_urgency _) as [| |s]; try discriminate.
    destruct (toUpperCase s); discriminate.
  - unfold or_else.
    destruct (DetailView.md_filename _) as [| |[|c s]]; discriminate.
  - unfold DetailView.preview_of.
    destruct (DetailView.body_document body) as [| |[|c s]]; discriminate.
  - intros ->. repeat split.
Qed.
End DocumentInfo.

Local Open Scope R_scope.

Lemma ln_2147483648 : ln 2147483648 = 31 * ln 2.
Proof.
  replace 2147483648 with (2 ^ 31) by (simpl; lra).
  rewrite ln_pow by lra. simpl INR. f_equal. lra.
Qed.

Lemma ln_9007199254740992 : ln 9007199254740992 = 53 * ln 2.
Proof.
  replace 9007199254740992 with (2 ^ 53) by (simpl; lra).
  rewrite ln_pow by lra. simpl INR. f_equal. lra.
Qed.

Section LargeSizes.
Variable Math_log : R -> R.
Variable fdiv : R -> R -> R.
Variable fmul : R -> R -> R.
Variable Number_toString : R -> jsstring.
Hypothesis accurate : doubles_accurate_large Math_log fdiv.

(** X25.  [formatFileSize] has three units. For a size of 2 GiB or more the
    unit index is 3, 4 or 5, past the end of the table, and the text ends in
    the word [undefined]. *)
Theorem formatFileSize_beyond_units (bytes : Z) :
  (2147483648 <= bytes <= 9007199254740992)%Z ->
  (3 <= unit_index Math_log fdiv bytes <= 5)%Z
  /\ exists number,
       formatFileSize Math_log fdiv fmul Number_toString bytes
       = number ++ [32%N] ++ text_undefined.
Proof.
  intros [Hlo Hhi].
  assert (Hi : (3 <= unit_index Math_log fdiv bytes <= 5)%Z).
  { unfold unit_index.
    pose proof ln_lt_2 as HL. pose proof ln_2_le_1 as HU.
    pose proof (large_log_close _ _ accurate 1024 ltac:(lra)) as Hb.
    apply Rabs_le_inv in Hb. rewrite ln_1024 in Hb.
    set (b := Math_log 1024) in *.
    assert (Hx : 2147483648 <= IZR bytes <= 9007199254740992).
    { split; apply IZR_le; lia. }
    pose proof (large_log_close _ _ accurate (IZR bytes) ltac:(lra)) as Ha.
    apply Rabs_le_inv in Ha.
    set (a := Math_log (IZR bytes)) in *.
    assert (Hln : 31 * ln 2 <= ln (IZR bytes) <= 53 * ln 2).
    { rewrite <- ln_2147483648, <- ln_9007199254740992.
      split; apply ln_le_mono; lra. }
    pose proof (large_div_close _ _ accurate a b ltac:(lra) ltac:(lra)) as H1.
    apply Rabs_le_inv in H1.
    assert (Hq1 : 301 / 100 <= a / b).
    { apply (Rmult_le_reg_r b); [lra|].
      unfold Rdiv at 2. rewrite Rmult_assoc, Rinv_l by lra. lra. }
    assert (Hq2 : a / b < 599 / 100).
    { apply (Rmult_lt_reg_r b); [lra|].
      unfold Rdiv at 1. rewrite Rmult_assoc, Rinv_l by lra. lra. }
    split.
    - apply Zfloor_lub. simpl. lra.
    - assert (Hlt : (Zfloor (fdiv a b) < 6)%Z).
      { apply lt_IZR. pose proof (Zfloor_bound (fdiv a b)). lra. }
      lia. }
  split; [exact Hi|].
  unfold formatFileSize.
  destruct (Z.eqb_spec bytes 0%Z) as [E|_]; [lia|].
  set (i := unit_index Math_log fdiv bytes) in *.
  eexists. f_equal. f_equal.
  unfold sizes_at. destruct (Z.ltb_spec i 0%Z) as [|_]; [lia|].
  assert (Hcases : (i = 3 \/ i = 4 \/ i = 5)%Z) by lia.
  destruct Hcases as [E | [E | E]]; rewrite E; reflexivity.
Qed.
End LargeSizes.

Lemma exact_doubles_accurate_large : doubles_accurate_large ln Rdiv.
Proof.
  split.
  - intros x _. rewrite Rminus_diag, Rabs_R0. lra.
  - intros a b _ _. rewrite Rminus_diag, Rabs_R0. lra.
Qed.

Local Close Scope R_scope.

Lemma bold_stays_on_one_line_witness :
  formatMessageContent (u "**a" ++ [10] ++ u "b**") = u "**a<br>b**".
Proof.
  apply (bold_stays_on_one_line (u "a") (u "b**")).
  repeat constructor; discriminate.
Defined.

Lemma displayRecentDocuments_rows_witness :
  displayRecentDocuments ascii_toUpperCase never_zero sample_recorded_page
  = Normal (set_recentDocs
              (Some (RecentRows
                       [{| row_id := Some (JStr (u "doc-1"));
                           row_category := u "loan_applications";
                           row_label := u "Loan Applications";
                           row_urgency := Some (JStr (u "high"));
                           row_timestamp := Some (JStr (u "2024-05-01T10:00:00.000Z")) |}]))
              sample_recorded_page)
  /\ exists p',
       saveToRecent ascii_toUpperCase same_text never_zero (u "2024-05-02T08:30:00.000Z")
         sample_extracted_result sample_recorded_page
       = Normal p'
       /\ recentDocs p'
          = Some (RecentRows
                    [{| row_id := Some (JStr (u "doc-2"));
                        row_category := u "complaints";
                        row_label := u "Complaints";
                        row_urgency := Some (JStr (u "low"));
                        row_timestamp := Some (JStr (u "2024-05-02T08:30:00.000Z")) |};
                     {| row_id := Some (JStr (u "doc-1"));
                        row_category := u "loan_applications";
                        row_label := u "Loan Applications";
                        row_urgency := Some (JStr (u "high"));
                        row_timestamp := Some (JStr (u "2024-05-01T10:00:00.000Z")) |}]).
Proof.
  exact (displayRecentDocuments_rows ascii_toUpperCase same_text never_zero
           [(u "2024-05-01T10:00:00.000Z", sample_result)] sample_recorded_page
           RecentUntouched (u "2024-05-02T08:30:00.000Z") sample_extracted_result
           eq_refl eq_refl).
Defined.

Lemma document_info_fallbacks_witness :
  DetailView.info_category
    (DetailView.displayDocumentInfo ascii_toUpperCase epoch no_date sample_document)
  = u "Unknown".
Proof.
  apply (document_info_fallbacks ascii_toUpperCase epoch no_date sample_document).
  reflexivity.
Defined.

Lemma formatFileSize_beyond_units_witness :
  (3 <= unit_index ln Rdiv 3000000000 <= 5)%Z.
Proof.
  apply (formatFileSize_beyond_units ln Rdiv Rmult no_text exact_doubles_accurate_large
           3000000000).
  lia.
Defined.
(** ** What the handlers leave alone *)

Section Separation.
Variable toUpperCase : jsstring -> jsstring.
Variable number_text : jsstring -> jsstring.
Variable number_is_zero : jsstring -> bool.
Variable Math_log : R -> R.
Variable fdiv : R -> R -> R.
Variable fmul : R -> R -> R.
Variable Number_toString : R -> jsstring.
Variable toFixed1 : R -> jsstring.
Variable toFixed0 : R -> jsstring.
Variable error_message : js_error -> page -> jsstring.
Variable uri_error_message : jsstring.
Variable Date_of : option json -> option Z.
Variable toLocaleDateString : option Z -> jsstring.
Variable toLocaleTimeString : option Z -> jsstring.
Variable inherited_text : jsstring -> jsstring.

Abbreviation step' :=
  (step toUpperCase number_text number_is_zero Math_log fdiv fmul Number_toString toFixed1
     toFixed0 error_message uri_error_message Date_of toLocaleDateString toLocaleTimeString
     inherited_text).
Abbreviation run' :=
  (run toUpperCase number_text number_is_zero Math_log fdiv fmul Number_toString toFixed1
     toFixed0 error_message uri_error_message Date_of toLocaleDateString toLocaleTimeString
     inherited_text).
Abbreviation saveToRecent' := (saveToRecent toUpperCase number_text number_is_zero).
Abbreviation handleUpload_settle' :=
  (handleUpload_settle toUpperCase number_text number_is_zero fmul toFixed1 error_message).

(** [saveToRecent] writes to the storage under its own key only. *)
Lemma saveToRecent_storage now result p (k : jsstring) :
  k <> key_recentDocuments ->
  localStorage (final (saveToRecent' now result p)) !! k = localStorage p !! k.
Proof.
  intros Hk.
  destruct (recentDocuments p) as [| | | |docs|] eqn:E;
    try (unfold saveToRecent; rewrite E; reflexivity).
  destruct (saveToRecent_final toUpperCase number_text number_is_zero now result p docs E)
    as [_ ->].
  now apply lookup_insert_ne.
Qed.

Lemma handleUpload_settle_storage now reply w (k : jsstring) :
  k <> key_recentDocuments ->
  localStorage (core (handleUpload_settle' now reply w)) !! k = localStorage (core w) !! k.
Proof.
  intros Hk.
  destruct reply as [message|detail|message|result]; try reflexivity.
  pose proof (saveToRecent_storage now result
                (displayResults toUpperCase fmul toFixed1 result (core w)) k Hk) as Hs.
  destruct (displayResults_globals toUpperCase fmul toFixed1 result (core w))
    as (_ & _ & G3 & _).
  rewrite G3 in Hs.
  destruct (handleUpload_settle_ok toUpperCase number_text number_is_zero fmul toFixed1
              error_message now result w)
    as (p & _ & [[Ep ->]|(e & Ep & ->)]); rewrite Ep in Hs; exact Hs.
Qed.

(** X26.  The script writes to the storage of the browser under the key
    [recentDocuments] and under no other: whatever happens on the main
    page, every other key keeps the value it had, or stays absent. *)
Theorem storage_other_keys_untouched (events : list event) (w : main_page) (k : jsstring) :
  k <> key_recentDocuments ->
  localStorage (core (run' events w)) !! k = localStorage (core w) !! k.
Proof.
  intros Hk. revert w. unfold run.
  induction events as [|e events IH]; intros w; [reflexivity|].
  cbn [fold_left]. rewrite IH.
  destruct (step' e w) as [w'|] eqn:Hstep; [|reflexivity].
  change (default w (Some w')) with w'.
  pose proof (step_frames toUpperCase number_text number_is_zero Math_log fdiv fmul
                Number_toString toFixed1 error_message toFixed0 uri_error_message Date_of
                toLocaleDateString toLocaleTimeString inherited_text e w w' Hstep)
    as (_ & Hrecent & _).
  destruct e; try (now rewrite (proj2 Hrecent)).
  cbn [step] in Hstep.
  destruct (uploads_pending w) as [|n]; [discriminate|]. injection Hstep as <-.
  now rewrite handleUpload_settle_storage.
Qed.

(** X27.  The upload and the chat do not touch each other.  Events other
    than those of the upload (choosing a file, sending it, its answer, the
    reset) change neither the staged file nor the files sent, the recent
    list or the storage.  Events other than a click, a key or an answer of
    the chat change neither the chat history nor the chat requests sent or
    under way. *)
Theorem upload_and_chat_are_separate (events : list event) (w : main_page) :
  (Forall (fun e => is_upload_event e = false) events ->
   currentFile (core (run' events w)) = currentFile (core w)
   /\ upload_requests (run' events w) = upload_requests w
   /\ recentDocuments (core (run' events w)) = recentDocuments (core w)
   /\ localStorage (core (run' events w)) = localStorage (core w))
  /\ (Forall (fun e => is_chat_event e = false) events ->
      mainChatHistory (core (run' events w)) = mainChatHistory (core w)
      /\ requests (core (run' events w)) = requests (core w)
      /\ chats_pending (run' events w) = chats_pending w).
Proof.
  unfold run. split; intros Hall; revert w.
  - induction Hall as [|e events He _ IH]; intros w; [repeat split|].
    cbn [fold_left]. destruct (IH (default w (step' e w))) as (-> & -> & -> & ->).
    destruct (step' e w) as [w'|] eqn:Hstep; [|repeat split].
    change (default w (Some w')) with w'.
    pose proof (step_frames toUpperCase number_text number_is_zero Math_log fdiv fmul
                  Number_toString toFixed1 error_message toFixed0 uri_error_message Date_of
                  toLocaleDateString toLocaleTimeString inherited_text e w w' Hstep)
      as (Hfiles & Hrecent & _).
    destruct e; try discriminate He;
      (split; [exact (proj1 Hfiles)|]; split; [exact (proj2 Hfiles)|];
       split; [exact (proj1 Hrecent)|exact (proj2 Hrecent)]).
  - induction Hall as [|e events He _ IH]; intros w; [repeat split|].
    cbn [fold_left]. destruct (IH (default w (step' e w))) as (-> & -> & ->).
    destruct (step' e w) as [w'|] eqn:Hstep; [|repeat split].
    change (default w (Some w')) with w'.
    pose proof (step_frames toUpperCase number_text number_is_zero Math_log fdiv fmul
                  Number_toString toFixed1 error_message toFixed0 uri_error_message Date_of
                  toLocaleDateString toLocaleTimeString inherited_text e w w' Hstep)
      as (_ & _ & Hchat).
    destruct e; try discriminate He; exact Hchat.
Qed.

(** X28.  However an upload ends, [handleUpload] leaves the button enabled
    with its text restored and the spinner hidden, and tells the outcome
    with one toast: after the alert toasts of a result, either the success
    toast or one error toast.  The success toast is shown only for an
    answer that carried a result. *)
Theorem handleUpload_always_settles (now : jsstring) (reply : upload_reply)
  (w : main_page) :
  uploadBtn_disabled (core (handleUpload_settle' now reply w)) = false
  /\ uploadBtn_text (handleUpload_settle' now reply w) = text_process_document
  /\ uploadSpinner_hidden (handleUpload_settle' now reply w) = true
  /\ exists (shown : list toast) (t : toast),
       toasts (core (handleUpload_settle' now reply w)) = toasts (core w) ++ shown ++ [t]
       /\ (shown = [] \/ exists result, reply = UploadOk result /\ shown = alert_toasts result)
       /\ (toast_type t = ToastSuccess \/ toast_type t = ToastError)
       /\ (toast_type t = ToastSuccess -> exists result, reply = UploadOk result).
Proof.
  destruct reply as [message|detail|message|result].
  1-3: (split; [reflexivity|]; split; [reflexivity|]; split; [reflexivity|];
        exists []; eexists; split; [reflexivity|];
        split; [now left|]; split; [now right|]; discriminate).
  destruct (handleUpload_settle_ok toUpperCase number_text number_is_zero fmul toFixed1
              error_message now result w)
    as (p & (_ & _ & _ & _ & Ht & _) & [[_ ->]|(e & _ & ->)]).
  - split; [reflexivity|]. split; [reflexivity|]. split; [reflexivity|].
    exists (alert_toasts result). eexists. split.
    + cbn. rewrite Ht, (displayResults_toasts toUpperCase fmul toFixed1), <- app_assoc.
      reflexivity.
    + split; [right; eauto|]. split; [now left|]. eauto.
  - split; [reflexivity|]. split; [reflexivity|]. split; [reflexivity|].
    exists (alert_toasts result). eexists. split.
    + cbn. rewrite Ht, (displayResults_toasts toUpperCase fmul toFixed1), <- app_assoc.
      reflexivity.
    + split; [right; eauto|]. split; [now right|]. discriminate.
Qed.
End Separation.

Lemma storage_other_keys_untouched_witness :
  localStorage (core (sample_run sample_events (DOMContentLoaded sample_main_page)))
    !! key_id
  = None.
Proof.
  apply (storage_other_keys_untouched ascii_toUpperCase same_text never_zero ln Rdiv Rmult
           no_text no_text no_text no_message [] epoch no_date no_date no_inherited
           sample_events (DOMContentLoaded sample_main_page) key_id).
  discriminate.
Defined.

Lemma upload_and_chat_are_separate_witness :
  upload_requests
    (sample_run [ChatTyped (u "Wie?"); ChatClick; ChatAnswer 0 ChatHttpError]
       sample_staged_page)
  = [].
Proof.
  apply (upload_and_chat_are_separate ascii_toUpperCase same_text never_zero ln Rdiv Rmult
           no_text no_text no_text no_message [] epoch no_date no_date no_inherited
           [ChatTyped (u "Wie?"); ChatClick; ChatAnswer 0 ChatHttpError] sample_staged_page).
  repeat constructor.
Defined.
